(** * Tetris: the state-transition core (state.ts, util.ts, types.ts, main.ts)

    A shallow embedding of the game's reducer and of the grid utilities it
    calls, followed by the properties checked against the specification.

    Modelling conventions.
    - A JavaScript [number] that the program only ever uses as an integer
      (row and column indexes, pixel positions, counters, score) is a [Z].
      The hashes of the random number generator are integers too, with the
      rounding of the product and the sum to a double written out; the
      scaled random values are exact rationals ([Q]).
    - An array is a [list]; [a[i]] is [nthZ a i], which is [None]
      (JavaScript's [undefined]) for an index outside the array.
    - A grid cell is an [option Cube]: [None] is [null].
    - Reading a property of [undefined] throws; a computation that can throw
      has type [result _] and the exception is [TypeError].
    - [Drop.apply] is recursive without a structural argument: it takes a
      fuel and answers [OutOfFuel] when the fuel does not suffice.
    - [console.log] calls are not modelled. *)

From Stdlib Require Import ZArith List String Bool Lia QArith Qround Qabs Lqa.
Import ListNotations.
Local Open Scope string_scope.
Local Open Scope list_scope.
Local Open Scope Z_scope.

(* ------------------------------------------------------------------ *)
(** ** Results of computations that may throw *)

Inductive result (A : Type) : Type :=
| Ok (a : A)
| TypeError
| OutOfFuel.

Arguments Ok {A} a.
Arguments TypeError {A}.
Arguments OutOfFuel {A}.

Definition bind {A B : Type} (r : result A) (k : A -> result B) : result B :=
  match r with
  | Ok a => k a
  | TypeError => TypeError
  | OutOfFuel => OutOfFuel
  end.

Notation "v <- e ;; k" := (bind e (fun v => k))
  (at level 61, e at next level, right associativity).

(** [a[i]] for an array [a]: [None] stands for [undefined]. *)
Definition nthZ {A : Type} (a : list A) (i : Z) : option A :=
  if i <? 0 then None else nth_error a (Z.to_nat i).

(** [Array.prototype.map] with the index passed to the callback. *)
Fixpoint mapi_from {A B : Type} (i : Z) (f : A -> Z -> B) (a : list A) : list B :=
  match a with
  | [] => []
  | v :: rest => f v i :: mapi_from (i + 1) f rest
  end.

Definition mapi {A B : Type} (f : A -> Z -> B) (a : list A) : list B :=
  mapi_from 0 f a.

(** [Array.prototype.filter] with a callback that may throw. *)
Fixpoint filterM {A : Type} (p : A -> result bool) (a : list A) : result (list A) :=
  match a with
  | [] => Ok []
  | v :: rest =>
      keep <- p v ;;
      kept <- filterM p rest ;;
      Ok (if keep then v :: kept else kept)
  end.

(** [Array.prototype.indexOf] on numbers. *)
Fixpoint indexOf_from (i : Z) (a : list Z) (item : Z) : Z :=
  match a with
  | [] => -1
  | v :: rest => if v =? item then i else indexOf_from (i + 1) rest item
  end.

Definition indexOf (a : list Z) (item : Z) : Z := indexOf_from 0 a item.

(** [Array.prototype.includes] on numbers. *)
Definition includes (a : list Z) (item : Z) : bool :=
  existsb (fun v => v =? item) a.

(** [[0, 1, ..., n-1]], the indexes [Array.from({length: n}, ...)] visits. *)
Definition indexes (n : Z) : list Z := map Z.of_nat (seq 0 (Z.to_nat n)).

(* ------------------------------------------------------------------ *)
(** ** types.ts: constants *)

Module Viewport.
Definition CANVAS_WIDTH : Z := 200.
Definition CANVAS_HEIGHT : Z := 400.
Definition PREVIEW_WIDTH : Z := 160.
Definition PREVIEW_HEIGHT : Z := 80.
End Viewport.

Module Constants.
Definition TICK_RATE_MS : Z := 1.
Definition INITIAL_SPEED : Z := 100.
Definition GRID_WIDTH : Z := 10.
Definition GRID_HEIGHT : Z := 20.
Definition MAX_SPEED : Z := 10.
End Constants.

Module Cube_Dimensions.
Definition WIDTH : Z := Viewport.CANVAS_WIDTH / Constants.GRID_WIDTH.
Definition HEIGHT : Z := Viewport.CANVAS_HEIGHT / Constants.GRID_HEIGHT.
End Cube_Dimensions.

Module GRID_RANGE.
Definition NUM_OF_ROWS : Z := Viewport.CANVAS_HEIGHT / Cube_Dimensions.HEIGHT.
Definition COL_MIDPOINT : Z := (Viewport.CANVAS_WIDTH / Cube_Dimensions.WIDTH) / 2.
Definition NUM_OF_COLUMNS : Z := Viewport.CANVAS_WIDTH / Cube_Dimensions.WIDTH.
End GRID_RANGE.

Module Tetrimino.
Definition TETRIMINO_TYPES : list string := ["I"; "J"; "L"; "O"; "S"; "T"; "Z"].
Definition DEFAULT_CHOICE : Z := 3.
Definition TETRIMINO_SIZE : Z := 4.
End Tetrimino.

(* ------------------------------------------------------------------ *)
(** ** util.ts: the random number generator *)

Module RNG.
Definition m : Z := 2147483648. (* 0x80000000 *)
Definition a : Z := 1103515245.
Definition c : Z := 12345.

(** The double nearest to the integer [n], a tie going to the even
    significand.  An integer of magnitude below 2^53 is a double.  Beyond
    that [|n|] has [e = log2 |n| - 52] bits more than the 53 a double
    keeps, and is rounded to a multiple of [2^e].  Overflow to [Infinity]
    (from 2^1024 on) is not modelled: [a * seed] stays below 2^62 for a seed
    below [m], and below 2^84 for every seed that is a safe integer. *)
Definition roundDouble (n : Z) : Z :=
  let size := Z.abs n in
  if size <? 2 ^ 53 then n
  else
    let e := Z.log2 size - 52 in
    let q := size / 2 ^ e in
    let r := size mod 2 ^ e in
    let half := 2 ^ (e - 1) in
    let up := (half <? r) || ((r =? half) && Z.odd q) in
    Z.sgn n * ((if up then q + 1 else q) * 2 ^ e).

(** [(a * seed + c) % m] in double arithmetic: the product is rounded to a
    double, then the sum is; [%] is exact and its result takes the sign of
    the dividend. *)
Definition hash (seed : Z) : Z := Z.rem (roundDouble (roundDouble (a * seed) + c)) m.

(** [(2 * hash) / (m - 1) - 1], as an exact rational.  The program rounds
    the quotient and the difference to doubles (a relative error below
    2^-51).  For a hash from 0 to [m - 1] this does not change the index
    that main.ts computes from the value: [14 * hash / (m - 1) - 8] is an
    integer for the hashes 0 and [m - 1], where the doubles are exact, and
    for every other hash it is at least [1 / (m - 1)] away from the nearest
    integer. *)
Definition scale (hash : Z) : Q := (inject_Z (2 * hash) / inject_Z (m - 1) - 1)%Q.
End RNG.

(** [createRngStreamFromSource(source$)(seed)]: the [n]-th value emitted
    (counting from 0) is [scale] of [hash] iterated [n + 1] times on the
    seed, because [scan] starts from the seed and emits after each step. *)
Fixpoint hashIter (n : nat) (seed : Z) : Z :=
  match n with
  | O => seed
  | S k => RNG.hash (hashIter k seed)
  end.

Definition createRngStream (seed : Z) (n : nat) : Q := RNG.scale (hashIter (S n) seed).

(** main.ts: [Math.abs(Math.floor(randNum * TETRIMINO_TYPES.length - 1))],
    the index given to [new GenerateBlock(index)]. *)
Definition randomTetrominoIndex (randNum : Q) : Z :=
  Z.abs (Qfloor (randNum * inject_Z (Z.of_nat (List.length Tetrimino.TETRIMINO_TYPES)) - 1)%Q).

(** The formula in the words of the specification: [floor(|v| * 7 - 1)]. *)
Definition specShapeIndex (v : Q) : Z := Qfloor (Qabs v * 7 - 1)%Q.

(* ------------------------------------------------------------------ *)
(** ** types.ts: cubes and states *)

(** The [id] string is the concatenation, with dashes, of the spawn counter,
    the row, the column and the printed value of
    [RNG.scale(RNG.hash(row + col))]; the four parts are kept as a record. *)
Record CubeId : Type := mkCubeId {
  idCount : Z;
  idRow : Z;
  idCol : Z;
  idHash : Q
}.

Record Cube : Type := mkCube {
  id : CubeId;
  x : Z;
  y : Z;
  grid_row : Z;
  grid_col : Z;
  width : string;
  height : string;
  style : string;
  center : bool
}.

Definition Block : Type := list Cube.
Definition Grid : Type := list (list (option Cube)).

Record State : Type := mkState {
  gameEnd : bool;
  activeBlock : Block;
  grid : Grid;
  shapePreview : string;
  clearBlocks : list Cube;
  randomTetriminoType : string;
  score : Z;
  highScore : Z;
  level : Z;
  objCount : Z
}.

(* ------------------------------------------------------------------ *)
(** ** util.ts: grid and geometry utilities *)

(** [first > second ? first : second] *)
Definition max (first second : Z) : Z :=
  if first >? second then first else second.

(** [Math.floor(col / NUM_OF_COLUMNS * CANVAS_WIDTH)], computed exactly.  The
    program's double arithmetic gives the same integer for every index from
    -10 to 22, which covers the grid and the positions one move or rotation
    away from it. *)
Definition calculateXcoord (col : Z) : Z :=
  (col * Viewport.CANVAS_WIDTH) / GRID_RANGE.NUM_OF_COLUMNS.

(** [Math.floor(row / NUM_OF_ROWS * CANVAS_HEIGHT)], in the same way. *)
Definition calculateYcoord (row : Z) : Z :=
  (row * Viewport.CANVAS_HEIGHT) / GRID_RANGE.NUM_OF_ROWS.

(** [input != null] on a grid cell. *)
Definition isNotNullOrUndefined (input : option Cube) : bool :=
  match input with
  | Some _ => true
  | None => false
  end.

(** [cells.filter(isNotNullOrUndefined)], with the narrowed element type. *)
Fixpoint filterNotNull (cells : list (option Cube)) : list Cube :=
  match cells with
  | [] => []
  | Some cube :: rest => cube :: filterNotNull rest
  | None :: rest => filterNotNull rest
  end.

(** [list.filter((item, index) => list.indexOf(item) === index)] *)
Definition removeDuplicates (items : list Z) : list Z :=
  map fst
    (filter (fun '(item, index) => indexOf items item =? index)
       (mapi (fun item index => (item, index)) items)).

(** [grid[row][col] !== null].  [grid[row]] outside the grid is [undefined]
    and indexing it throws; a column outside the row gives [undefined],
    which is not [null]. *)
Definition cellNotNull (grid : Grid) (row col : Z) : result bool :=
  match nthZ grid row with
  | None => TypeError
  | Some cells =>
      match nthZ cells col with
      | None => Ok true
      | Some None => Ok false
      | Some (Some _) => Ok true
      end
  end.

Definition checkCubeRowExceedsBoundaries (cube : Cube) : bool :=
  (grid_row cube >=? GRID_RANGE.NUM_OF_ROWS - 1) || (grid_row cube <? 0).

Definition checkCubeColExceedsBoundaries (cube : Cube) : bool :=
  (grid_col cube <? 0) || (grid_col cube >? GRID_RANGE.NUM_OF_COLUMNS - 1).

Definition cantMoveLeft (grid : Grid) (cube : Cube) : result bool :=
  if grid_col cube <=? 0 then Ok true
  else cellNotNull grid (grid_row cube) (grid_col cube - 1).

Definition cantMoveRight (grid : Grid) (cube : Cube) : result bool :=
  if grid_col cube >=? GRID_RANGE.NUM_OF_COLUMNS - 1 then Ok true
  else cellNotNull grid (grid_row cube) (grid_col cube + 1).

Definition cantMoveDown (grid : Grid) (cube : Cube) : result bool :=
  cellNotNull grid (grid_row cube + 1) (grid_col cube).

Definition checkCurrentCell (grid : Grid) (cube : Cube) : result bool :=
  cellNotNull grid (grid_row cube) (grid_col cube).

(** A condition that cannot throw, as an element of a condition array. *)
Definition total (p : Cube -> bool) : Cube -> result bool :=
  fun cube => Ok (p cube).

(** [conditions.some(condition => condition(cube))]: the conditions are
    tried in order and the first that holds ends the search. *)
Fixpoint checkCollisions (conditions : list (Cube -> result bool)) (cube : Cube)
  : result bool :=
  match conditions with
  | [] => Ok false
  | condition :: rest =>
      holds <- condition cube ;;
      if holds then Ok true else checkCollisions rest cube
  end.

(** [block.filter(checkCollisions(conditions)).length > 0] *)
Definition checkBlockCollision (conditions : list (Cube -> result bool))
  (block : Block) : result bool :=
  colliding <- filterM (checkCollisions conditions) block ;;
  Ok (Z.of_nat (List.length colliding) >? 0).

(** [not(f)] for a predicate that may throw. *)
Definition not (f : Block -> result bool) (block : Block) : result bool :=
  b <- f block ;; Ok (negb b).

Definition isCubeHere (rowIndex colIndex : Z) (cube : Cube) : bool :=
  (grid_row cube =? rowIndex) && (grid_col cube =? colIndex).

Definition setBlockInArray (gridArray : Grid) (activeBlock : Block) : Grid :=
  mapi (fun row rowIndex =>
    mapi (fun cell colIndex =>
      match find (isCubeHere rowIndex colIndex) activeBlock with
      | Some cubeInActiveBlock => Some cubeInActiveBlock
      | None => cell
      end) row) gridArray.

Definition getRecentlyPlacedRows (activeBlock : Block) : list Z :=
  removeDuplicates (map grid_row activeBlock).

(** [gridArray[rowIndex].every(column => column !== null)] throws when
    [rowIndex] is not a row of the grid. *)
Definition getDeletingRows (gridArray : Grid) (rowIndexes : list Z) : result (list Z) :=
  filterM (fun rowIndex =>
    match nthZ gridArray rowIndex with
    | None => TypeError
    | Some cells => Ok (forallb isNotNullOrUndefined cells)
    end) rowIndexes.

Definition getRemovedCubes (grid : Grid) (deletingRowIndexes : list Z) : list Cube :=
  let checkIsRemovingCube (cell : option Cube) : bool :=
    match cell with
    | Some cube => includes deletingRowIndexes (grid_row cube)
    | None => false
    end in
  filterNotNull (flat_map (fun row => filter checkIsRemovingCube row) grid).

(** [Array.from({length: NUM_OF_ROWS}, (row, rowIndex) =>
      Array.from({length: NUM_OF_COLUMNS}, (cell, colIndex) => ...))] *)
Definition generate2DArray (generateCell : Z -> Z -> option Cube) : Grid :=
  map (fun rowIndex =>
    map (fun colIndex => generateCell rowIndex colIndex)
      (indexes GRID_RANGE.NUM_OF_COLUMNS))
    (indexes GRID_RANGE.NUM_OF_ROWS).

(** [grid[0].some((_, columnIndex) => grid[0][columnIndex] !== null)] *)
Definition isColumnFilled (grid : Grid) : result bool :=
  match nthZ grid 0 with
  | None => TypeError
  | Some cells => Ok (existsb isNotNullOrUndefined cells)
  end.

(** [Math.min(...rows)]; [None] is [Infinity], the minimum of no numbers. *)
Fixpoint mathMin (rows : list Z) : option Z :=
  match rows with
  | [] => None
  | row :: rest =>
      match mathMin rest with
      | None => Some row
      | Some least => Some (Z.min row least)
      end
  end.

(** [n < bound] where [bound] may be [Infinity]. *)
Definition ltMin (n : Z) (bound : option Z) : bool :=
  match bound with
  | None => true
  | Some b => n <? b
  end.

(** state.ts, [Tick.moveCube]; it is defined here because
    [removeRowsAndShiftDown] calls it. *)
Definition moveCube (amount : Z) (cube : Cube) : Cube :=
  mkCube (id cube) (x cube) (calculateYcoord (grid_row cube + amount))
    (grid_row cube + amount) (grid_col cube)
    (width cube) (height cube) (style cube) (center cube).

Definition removeRowsAndShiftDown (grid : Grid) (deletingRowIndexes : list Z) : Grid :=
  let minDeletingRowIndex := mathMin deletingRowIndexes in
  let moveCubeAndGridPos (cube : Cube) : Cube :=
    moveCube (Z.of_nat (List.length deletingRowIndexes)) cube in
  let checkCellAgainstRow (cell : option Cube) : bool :=
    match cell with
    | Some cube => negb (includes deletingRowIndexes (grid_row cube))
    | None => false
    end in
  let checkIfCubeAboveRemovedRow (cube : Cube) : Cube :=
    if ltMin (grid_row cube) minDeletingRowIndex then moveCubeAndGridPos cube else cube in
  let leftOverCubes : list Cube :=
    map checkIfCubeAboveRemovedRow
      (filterNotNull (flat_map (fun row => filter checkCellAgainstRow row) grid)) in
  let getCube (rowIndex colIndex : Z) : option Cube :=
    find (fun cube => (grid_row cube =? rowIndex) && (colIndex =? grid_col cube))
      leftOverCubes in
  generate2DArray getCube.

(* ------------------------------------------------------------------ *)
(** ** state.ts: blocks, the initial state and the actions *)

Inductive Direction : Type := clockwise | anticlockwise.

Inductive Action : Type :=
| GenerateBlock (tetriminoTypeIndex : Z)
| Tick (elapsed : Z)
| Move (direction : Z)
| Restart
| Rotate (direction : Direction)
| Drop.

(** [{...state, activeBlock: block}] *)
Definition withActiveBlock (state : State) (block : Block) : State :=
  mkState (gameEnd state) block (grid state) (shapePreview state)
    (clearBlocks state) (randomTetriminoType state) (score state)
    (highScore state) (level state) (objCount state).

Module GenerateBlock.

Definition checkIndex (tetriminoTypeIndex : Z) : bool :=
  (tetriminoTypeIndex >=? 0)
  && (tetriminoTypeIndex <? Z.of_nat (List.length Tetrimino.TETRIMINO_TYPES)).

(** [Tetrimino.TETRIMINO_TYPES[index]], read only at an index inside the
    array. *)
Definition typeAt (index : Z) : string :=
  match nthZ Tetrimino.TETRIMINO_TYPES index with
  | Some tetriminoType => tetriminoType
  | None => "undefined"
  end.

Definition apply (tetriminoTypeIndex : Z) (s : State) : State :=
  mkState (gameEnd s) (activeBlock s) (grid s) (shapePreview s) (clearBlocks s)
    (if checkIndex tetriminoTypeIndex then typeAt tetriminoTypeIndex
     else typeAt Tetrimino.DEFAULT_CHOICE)
    (score s) (highScore s) (level s) (objCount s).

(** The layout table.  A centre of [None] is the source's
    [{row: Infinity, col: Infinity}], which no cell index equals; a key
    that is not in the table gives [None] ([undefined]). *)
Definition tetriminoLayouts (key : string)
  : option (list (list Z) * option (Z * Z)) :=
  if String.eqb key "I" then Some ([[1; 1; 1; 1]], Some (0, 1))
  else if String.eqb key "J" then Some ([[1; 0; 0]; [1; 1; 1]], Some (1, 1))
  else if String.eqb key "L" then Some ([[0; 0; 1]; [1; 1; 1]], Some (1, 1))
  else if String.eqb key "O" then Some ([[1; 1]; [1; 1]], None)
  else if String.eqb key "S" then Some ([[0; 1; 1]; [1; 1; 0]], Some (1, 1))
  else if String.eqb key "T" then Some ([[0; 1; 0]; [1; 1; 1]], Some (1, 1))
  else if String.eqb key "Z" then Some ([[1; 1; 0]; [0; 1; 1]], Some (1, 1))
  else None.

End GenerateBlock.

Definition createCube (rowIndex colIndex cubeCount : Z) (isCenter : bool) : Cube :=
  mkCube
    (mkCubeId cubeCount rowIndex colIndex (RNG.scale (RNG.hash (rowIndex + colIndex))))
    (calculateXcoord colIndex)
    (calculateYcoord rowIndex)
    rowIndex
    colIndex
    "20" (* `${Cube_Dimensions.WIDTH}` *)
    "20" (* `${Cube_Dimensions.HEIGHT}` *)
    "fill: green"
    isCenter.

(** Destructuring the table entry of an unknown type throws. *)
Definition createBlock (tetriminoType : string) (cubeCount : Z) : result Block :=
  match GenerateBlock.tetriminoLayouts tetriminoType with
  | None => TypeError
  | Some (layout, center) =>
      Ok (filterNotNull
            (List.concat
               (mapi (fun row rowIndex =>
                  mapi (fun col colIndex =>
                    let generate :=
                      createCube rowIndex (colIndex + GRID_RANGE.COL_MIDPOINT - 1) cubeCount in
                    let isCenter :=
                      match center with
                      | Some (centerRow, centerCol) =>
                          (rowIndex =? centerRow) && (colIndex =? centerCol)
                      | None => false
                      end in
                    if col =? 1
                    then (if isCenter then Some (generate true) else Some (generate false))
                    else None) row) layout)))
  end.

Definition startingBlock : Block :=
  match createBlock "O" 4 with
  | Ok block => block
  | _ => []
  end.

Definition initialState : State :=
  mkState
    false
    startingBlock
    (generate2DArray (fun _ _ => None))
    "T"
    []
    "J"
    0
    0
    0
    (Z.of_nat (List.length startingBlock)).

Module Tick.

Definition handleBlockClear (state : State) (deletingRows : list Z) : State :=
  let removedCubes := getRemovedCubes (grid state) deletingRows in
  let newScore :=
    score state + GRID_RANGE.NUM_OF_COLUMNS * Z.of_nat (List.length deletingRows) in
  mkState (gameEnd state) (activeBlock state)
    (removeRowsAndShiftDown (grid state) deletingRows)
    (randomTetriminoType state)
    (clearBlocks state ++ removedCubes)
    (randomTetriminoType state)
    newScore
    (highScore state)
    (newScore / GRID_RANGE.NUM_OF_COLUMNS)
    (objCount state).

Definition handleCollisions (state : State) : result State :=
  let updatedGrid := setBlockInArray (grid state) (activeBlock state) in
  newActiveBlock <-
    createBlock (shapePreview state) (Tetrimino.TETRIMINO_SIZE + objCount state) ;;
  spawnOverlap <- checkBlockCollision [checkCurrentCell updatedGrid] newActiveBlock ;;
  let recentlyPlacedRows := getRecentlyPlacedRows (activeBlock state) in
  deletingRows <- getDeletingRows updatedGrid recentlyPlacedRows ;;
  if Z.of_nat (List.length deletingRows) >? 0 then
    filled <- isColumnFilled updatedGrid ;;
    Ok (handleBlockClear
          (mkState (filled || spawnOverlap)
             (if negb spawnOverlap then newActiveBlock else activeBlock state)
             updatedGrid
             (shapePreview state)
             (clearBlocks state)
             (randomTetriminoType state)
             (score state)
             (highScore state)
             (level state)
             (objCount state + Z.of_nat (List.length newActiveBlock)))
          deletingRows)
  else
    filled <- isColumnFilled updatedGrid ;;
    Ok (mkState (filled || spawnOverlap)
          (if negb spawnOverlap then newActiveBlock else activeBlock state)
          updatedGrid
          (randomTetriminoType state)
          (clearBlocks state)
          (randomTetriminoType state)
          (score state)
          (highScore state)
          (level state)
          (objCount state + Z.of_nat (List.length newActiveBlock))).

(** The collision test comes first in the source, before [gameEnd] is
    looked at. *)
Definition apply (elapsed : Z) (state : State) : result State :=
  let conditions := [total checkCubeRowExceedsBoundaries; cantMoveDown (grid state)] in
  isCollision <- checkBlockCollision conditions (activeBlock state) ;;
  if gameEnd state then Ok state
  else if isCollision then handleCollisions state
  else
    filled <- isColumnFilled (grid state) ;;
    Ok (mkState filled
          (map (moveCube 1) (activeBlock state))
          (grid state) (shapePreview state) (clearBlocks state)
          (randomTetriminoType state) (score state) (highScore state)
          (level state) (objCount state)).

Definition getElapsed (elapsed : Z) : Z := elapsed.

End Tick.

Module Move.

Definition updateCubeX (direction : Z) (cube : Cube) : Cube :=
  mkCube (id cube) (calculateXcoord (grid_col cube + direction)) (y cube)
    (grid_row cube) (grid_col cube + direction)
    (width cube) (height cube) (style cube) (center cube).

Definition apply (direction : Z) (s : State) : result State :=
  let isOutOfBoundaries (cube : Cube) : result bool :=
    if direction >? 0 then cantMoveRight (grid s) cube
    else cantMoveLeft (grid s) cube in
  blocked <- checkBlockCollision [isOutOfBoundaries] (activeBlock s) ;;
  Ok (withActiveBlock s
        (if blocked then activeBlock s
         else map (updateCubeX direction) (activeBlock s))).

End Move.

Module Restart.

Definition apply (state : State) : result State :=
  let removingCubes : list Cube :=
    filterNotNull (flat_map (fun row => map (fun cell => cell) row) (grid state)) in
  if gameEnd state then
    newBlock <-
      createBlock (randomTetriminoType state)
        (objCount state + Tetrimino.TETRIMINO_SIZE) ;;
    Ok (mkState
          false
          newBlock
          (generate2DArray (fun _ _ => None))
          (randomTetriminoType state)
          (clearBlocks state ++ removingCubes ++ activeBlock state)
          (randomTetriminoType initialState)
          (score initialState)
          (max (highScore state) (score state))
          (level initialState)
          (objCount state + Tetrimino.TETRIMINO_SIZE * 3))
  else Ok state.

End Restart.

Module Rotate.

Definition rotateCube (direction : Direction) (centerCube cube : Cube) : Cube :=
  let newRow :=
    match direction with
    | clockwise => grid_row centerCube - grid_col centerCube + grid_col cube
    | anticlockwise => grid_row centerCube + grid_col centerCube - grid_col cube
    end in
  let newCol :=
    match direction with
    | clockwise => grid_col centerCube + grid_row centerCube - grid_row cube
    | anticlockwise => grid_col centerCube - grid_row centerCube + grid_row cube
    end in
  mkCube (id cube) (calculateXcoord newCol) (calculateYcoord newRow)
    newRow newCol (width cube) (height cube) (style cube) (center cube).

Definition canRotate (grid : Grid) : Block -> result bool :=
  not (checkBlockCollision
         [checkCurrentCell grid;
          total checkCubeRowExceedsBoundaries;
          total checkCubeColExceedsBoundaries]).

(** Without a centre cube [newActiveBlock] is [undefined] and [canRotate]
    is not called. *)
Definition apply (direction : Direction) (state : State) : result State :=
  match find (fun cube => Bool.eqb (center cube) true) (activeBlock state) with
  | None => Ok (withActiveBlock state (activeBlock state))
  | Some centerCube =>
      let newActiveBlock := map (rotateCube direction centerCube) (activeBlock state) in
      accepted <- canRotate (grid state) newActiveBlock ;;
      Ok (withActiveBlock state
            (if accepted then newActiveBlock else activeBlock state))
  end.

End Rotate.

Module Drop.

(** One unit of fuel is one call of [apply]. *)
Fixpoint apply (fuel : nat) (state : State) : result State :=
  match fuel with
  | O => OutOfFuel
  | S fuel' =>
      let canDrop :=
        not (checkBlockCollision
               [total checkCubeRowExceedsBoundaries; cantMoveDown (grid state)]) in
      let newState := withActiveBlock state (map (moveCube 1) (activeBlock state)) in
      goesOn <- canDrop (activeBlock newState) ;;
      if goesOn then apply fuel' newState else Ok state
  end.

End Drop.

(** [action.apply(s)] *)
Definition applyAction (fuel : nat) (action : Action) (s : State) : result State :=
  match action with
  | GenerateBlock tetriminoTypeIndex => Ok (GenerateBlock.apply tetriminoTypeIndex s)
  | Tick elapsed => Tick.apply elapsed s
  | Move direction => Move.apply direction s
  | Restart => Restart.apply s
  | Rotate direction => Rotate.apply direction s
  | Drop => Drop.apply fuel s
  end.

Definition speedMultiplier (s : State) : Z :=
  max (Constants.INITIAL_SPEED - level s * 10) Constants.MAX_SPEED.

(** [!isTickAction || action.getElapsed() % speedMultiplier === 0
      ? action.apply(s) : s] *)
Definition reduceState (fuel : nat) (s : State) (action : Action) : result State :=
  let isTickAction :=
    match action with
    | Tick _ => true
    | _ => false
    end in
  let onBeat :=
    match action with
    | Tick elapsed => Z.rem (Tick.getElapsed elapsed) (speedMultiplier s) =? 0
    | _ => false
    end in
  if negb isTickAction || onBeat then applyAction fuel action s else Ok s.

(** [scan(reduceState, initialState)] over a finite prefix of the action
    stream; an exception ends the stream. *)
Fixpoint runActions (fuel : nat) (s : State) (actions : list Action) : result State :=
  match actions with
  | [] => Ok s
  | action :: rest =>
      s' <- reduceState fuel s action ;;
      runActions fuel s' rest
  end.

(* ------------------------------------------------------------------ *)
(** ** Auxiliary definitions for the statements *)

(** The row and column of a cube. *)
Definition position (cube : Cube) : Z * Z := (grid_row cube, grid_col cube).

(** The content of cell [(row, col)]: [None] for an empty cell and for a
    cell outside the grid. *)
Definition cellAt (g : Grid) (row col : Z) : option Cube :=
  match nthZ g row with
  | Some cells =>
      match nthZ cells col with
      | Some cell => cell
      | None => None
      end
  | None => None
  end.

(** All the cubes of a grid, in row-major order. *)
Definition gridCubes (g : Grid) : list Cube := filterNotNull (List.concat g).

(** A grid has the fixed dimensions. *)
Definition hasGridShape (g : Grid) : bool :=
  (Z.of_nat (List.length g) =? GRID_RANGE.NUM_OF_ROWS)
  && forallb (fun cells => Z.of_nat (List.length cells) =? GRID_RANGE.NUM_OF_COLUMNS) g.

(** Every placed cube records the indexes of the cell that holds it. *)
Definition cubesInPlace (g : Grid) : bool :=
  forallb (fun b => b)
    (List.concat
       (mapi (fun cells rowIndex =>
          mapi (fun cell colIndex =>
            match cell with
            | Some cube => isCubeHere rowIndex colIndex cube
            | None => true
            end) cells) g)).

(** A cube lies inside the grid. *)
Definition inGrid (cube : Cube) : bool :=
  (0 <=? grid_row cube) && (grid_row cube <=? GRID_RANGE.NUM_OF_ROWS - 1)
  && (0 <=? grid_col cube) && (grid_col cube <=? GRID_RANGE.NUM_OF_COLUMNS - 1).

(** Row [row] of the grid exists and has no empty cell. *)
Definition rowFull (g : Grid) (row : Z) : bool :=
  match nthZ g row with
  | Some cells => forallb isNotNullOrUndefined cells
  | None => false
  end.

(** The rotation in direction [direction] finds a pivot and passes the
    boundary and occupancy check. *)
Definition rotationAccepted (direction : Direction) (s : State) : bool :=
  match find (fun cube => Bool.eqb (center cube) true) (activeBlock s) with
  | None => false
  | Some centerCube =>
      match Rotate.canRotate (grid s)
              (map (Rotate.rotateCube direction centerCube) (activeBlock s)) with
      | Ok true => true
      | _ => false
      end
  end.

(** The actions that the player uses to steer the active block. *)
Definition steersBlock (a : Action) : bool :=
  match a with
  | Move _ | Rotate _ | Drop => true
  | _ => false
  end.

(** Every block spawns in rows 0-1 and columns 4-7. *)
Definition inSpawnArea (cube : Cube) : bool :=
  (0 <=? grid_row cube) && (grid_row cube <=? 1)
  && (4 <=? grid_col cube) && (grid_col cube <=? 7).

(** The propositional reading of [cubesInPlace]. *)
Definition InPlace (g : Grid) : Prop :=
  forall row col q, cellAt g row col = Some q -> grid_row q = row /\ grid_col q = col.

(** The test of [getCube] inside [removeRowsAndShiftDown]. *)
Definition cubeAt (rowIndex colIndex : Z) (cube : Cube) : bool :=
  (grid_row cube =? rowIndex) && (colIndex =? grid_col cube).

(** A Tick with counter [elapsed] locks the active block of [s]: the game is
    on, the Tick passes the speed gate, and the block collides (a cube is in
    the last row or has an occupied cell below it). *)
Definition locksBlock (elapsed : Z) (s : State) : Prop :=
  gameEnd s = false
  /\ Z.rem elapsed (speedMultiplier s) = 0
  /\ checkBlockCollision
       [total checkCubeRowExceedsBoundaries; cantMoveDown (grid s)] (activeBlock s)
     = Ok true.

(** main.ts builds [Move] with the directions 1 and -1 only. *)
Definition emitted (a : Action) : bool :=
  match a with
  | Move direction => (direction =? 1) || (direction =? -1)
  | _ => true
  end.

(** The states that [scan(reduceState, initialState)] can produce. *)
Definition reachable (s : State) : Prop :=
  exists fuel actions,
    forallb emitted actions = true /\ runActions fuel initialState actions = Ok s.

(** What every reachable state satisfies. *)
Record Invariant (s : State) : Prop := mkInvariant {
  inv_shape : hasGridShape (grid s) = true;
  inv_place : InPlace (grid s);
  inv_block : forallb inGrid (activeBlock s) = true;
  inv_nonempty : activeBlock s <> [];
  inv_preview : In (shapePreview s) Tetrimino.TETRIMINO_TYPES;
  inv_random : In (randomTetriminoType s) Tetrimino.TETRIMINO_TYPES
}.

(** The Tick actions that pass the speed gate at level 0: elapsed counters
    [100 * start], [100 * (start + 1)], ... *)
Definition beats (start count : nat) : list Action :=
  map (fun k => Tick (100 * Z.of_nat k)) (seq start count).

(** The state after a prefix of the action stream, for prefixes that do not
    throw. *)
Definition stateAfter (actions : list Action) : State :=
  match runActions 20 initialState actions with
  | Ok s => s
  | _ => initialState
  end.

(** Four presses of the key that moves the block to the left. *)
Definition left4 : list Action := [Move (-1); Move (-1); Move (-1); Move (-1)].

(** The first block ("O") falls and locks: the "T" block is at its spawn
    position above it. *)
Definition firstLock : list Action := beats 0 19.

(** "I" is staged, the "O" and "T" blocks lock in the middle columns: the
    "I" block is at its spawn position. *)
Definition spawnI : list Action :=
  [GenerateBlock 0] ++ beats 0 19 ++ beats 19 17.

(** "L" is staged, "O" and "T" lock, the "L" block is moved two columns to
    the right and falls until its cube at (16, 6) rests on the placed cube
    at (17, 6), under which cell (18, 6) is empty. *)
Definition overhang : list Action :=
  [GenerateBlock 2] ++ beats 0 19 ++ beats 19 17 ++ [Move 1; Move 1] ++ beats 36 15.

(** A game that fills row 19: "O" in columns 4-5, the "T" block turned and
    stacked on it, an "I" block in columns 0-3 and one in columns 6-9,
    which sits in row 19 and is about to lock. *)
Definition beforeClear : list Action :=
  [GenerateBlock 0] ++ beats 0 19 ++ [Rotate clockwise; Move (-1)] ++ beats 19 16
  ++ left4 ++ beats 35 20 ++ [Move 1; Move 1] ++ beats 55 19.

(** A grid for [removeRowsAndShiftDown]: rows 17 and 19 are full, row 18
    holds one cube in column 0 and row 16 one cube in column 0. *)
Definition gappedGrid : Grid :=
  generate2DArray (fun rowIndex colIndex =>
    if (rowIndex =? 17) || (rowIndex =? 19)
       || (((rowIndex =? 16) || (rowIndex =? 18)) && (colIndex =? 0))
    then Some (createCube rowIndex colIndex rowIndex false)
    else None).

(** Every block is moved to the left wall before it falls, with "O" staged
    throughout: the pile reaches row 0 in columns 0-1, the game ends, and
    the block spawned last is free in the middle columns. *)
Definition leftPile : list Action :=
  [GenerateBlock 3] ++ left4 ++ beats 0 19 ++ left4 ++ beats 19 17
  ++ left4 ++ beats 36 15 ++ left4 ++ beats 51 13 ++ left4 ++ beats 64 11
  ++ left4 ++ beats 75 9 ++ left4 ++ beats 84 7 ++ left4 ++ beats 91 5
  ++ left4 ++ beats 96 3 ++ left4 ++ beats 99 1.

(* ------------------------------------------------------------------ *)
(** ** Auxiliary definitions for the further properties *)

(** The first occurrences of the items of a list, in order: what
    [removeDuplicates] is meant to return. *)
Fixpoint firstOccurrences (items : list Z) : list Z :=
  match items with
  | [] => []
  | item :: rest => item :: filter (fun v => negb (v =? item)) (firstOccurrences rest)
  end.

(** The pixel position of a cube is the one computed from its row and
    column. *)
Definition pixelsMatch (cube : Cube) : bool :=
  (x cube =? calculateXcoord (grid_col cube))
  && (y cube =? calculateYcoord (grid_row cube)).

(** The first three parts of a cube's [id] string: the spawn counter and
    the row and column at which the cube was created. *)
Definition idPrefix (cube : Cube) : Z * Z * Z :=
  (idCount (id cube), idRow (id cube), idCol (id cube)).

(** Cell [(row, col)] exists in the grid and is empty ([null]). *)
Definition cellFree (g : Grid) (row col : Z) : bool :=
  match nthZ g row with
  | Some cells =>
      match nthZ cells col with
      | Some None => true
      | _ => false
      end
  | None => false
  end.

(** A cube sits on an existing empty cell of the grid. *)
Definition onFreeCell (g : Grid) (cube : Cube) : bool :=
  cellFree g (grid_row cube) (grid_col cube).

(** A cube cannot take one step to the side: it is in the last column on
    that side, or the cell next to it on that side is not an existing empty
    cell of the grid. *)
Definition sideBlocked (g : Grid) (direction : Z) (cube : Cube) : bool :=
  (if direction >? 0
   then grid_col cube >=? GRID_RANGE.NUM_OF_COLUMNS - 1
   else grid_col cube <=? 0)
  || negb (cellFree g (grid_row cube) (grid_col cube + direction)).

(** A rotated cube is refused: its cell is not an existing empty cell of the
    grid, or its row or column exceeds the boundaries. *)
Definition rotationBlocked (g : Grid) (cube : Cube) : bool :=
  negb (onFreeCell g cube)
  || checkCubeRowExceedsBoundaries cube
  || checkCubeColExceedsBoundaries cube.

(** The state that [Tick.handleCollisions] builds when the active block
    locks, before any row is cleared: the block is committed to the grid,
    [newBlock] becomes active unless it overlaps ([overlap]), the game ends
    if row 0 is occupied ([filled]) or the new block overlaps. *)
Definition lockedState (s : State) (newBlock : Block) (overlap filled : bool)
  (preview : string) : State :=
  mkState (filled || overlap)
    (if negb overlap then newBlock else activeBlock s)
    (setBlockInArray (grid s) (activeBlock s))
    preview
    (clearBlocks s)
    (randomTetriminoType s)
    (score s)
    (highScore s)
    (level s)
    (objCount s + Z.of_nat (List.length newBlock)).

(** The state that [Tick.apply] builds when the active block falls. *)
Definition fallenState (s : State) (filled : bool) : State :=
  mkState filled (map (moveCube 1) (activeBlock s)) (grid s) (shapePreview s)
    (clearBlocks s) (randomTetriminoType s) (score s) (highScore s) (level s)
    (objCount s).

(** The state that [Restart.apply] builds for an ended game. *)
Definition restartedState (s : State) (newBlock : Block) : State :=
  mkState false newBlock (generate2DArray (fun _ _ => None))
    (randomTetriminoType s)
    (clearBlocks s ++ gridCubes (grid s) ++ activeBlock s)
    "J" 0 (max (highScore s) (score s)) 0
    (objCount s + Tetrimino.TETRIMINO_SIZE * 3).

(** A cube function that keeps the id and the match between pixels and
    cell; such are the moves that the actions apply to the cubes. *)
Definition keepsCube (f : Cube -> Cube) : Prop :=
  (forall q, id (f q) = id q)
  /\ (forall q, pixelsMatch q = true -> pixelsMatch (f q) = true).

(** The cell that a cube records is occupied in the grid. *)
Definition onOccupiedCell (g : Grid) (cube : Cube) : bool :=
  isNotNullOrUndefined (cellAt g (grid_row cube) (grid_col cube)).

(** The move that [removeRowsAndShiftDown] applies to a cube that it
    keeps. *)
Definition shiftAbove (rows : list Z) (cube : Cube) : Cube :=
  if ltMin (grid_row cube) (mathMin rows)
  then moveCube (Z.of_nat (List.length rows)) cube
  else cube.

(* ------------------------------------------------------------------ *)
(** * Properties *)

(** ** Elementary facts about the array primitives *)

Lemma nthZ_Some_range {A : Type} (a : list A) (i : Z) (v : A) :
  nthZ a i = Some v -> 0 <= i < Z.of_nat (List.length a).
Proof.
  unfold nthZ. destruct (Z.ltb_spec i 0) as [Hneg | Hpos]; [discriminate |].
  intros Hnth.
  assert (Hlt : (Z.to_nat i < List.length a)%nat).
  { apply nth_error_Some. rewrite Hnth. discriminate. }
  lia.
Qed.

Lemma nthZ_in_range {A : Type} (a : list A) (i : Z) :
  0 <= i < Z.of_nat (List.length a) -> exists v, nthZ a i = Some v.
Proof.
  intros Hrange. unfold nthZ.
  destruct (Z.ltb_spec i 0) as [Hneg | Hpos]; [lia |].
  destruct (nth_error a (Z.to_nat i)) as [v |] eqn:Hnth; [now exists v |].
  apply nth_error_None in Hnth. lia.
Qed.

Lemma nthZ_In {A : Type} (a : list A) (i : Z) (v : A) :
  nthZ a i = Some v -> In v a.
Proof.
  unfold nthZ. destruct (i <? 0); [discriminate |]. apply nth_error_In.
Qed.

Lemma max_is_Zmax (first second : Z) : max first second = Z.max first second.
Proof.
  unfold max. destruct (Z.gtb_spec first second); lia.
Qed.

(** ** The column boundary predicate (C5) *)

(** C5, as stated, fails: a cube in column 9, the last column of the grid,
    has a column [>= columnCount - 1] and does not exceed the column
    boundary. *)
Lemma column_9_does_not_exceed :
  grid_col (createCube 0 9 0 false) >= GRID_RANGE.NUM_OF_COLUMNS - 1
  /\ checkCubeColExceedsBoundaries (createCube 0 9 0 false) = false.
Proof.
  split; [vm_compute; discriminate | reflexivity].
Qed.

(** C5, amended: a cube exceeds the column boundary if and only if its
    column is [< 0] or [> columnCount - 1]; the columns 0 to 9 are all
    inside. *)
Theorem checkCubeColExceedsBoundaries_iff (cube : Cube) :
  checkCubeColExceedsBoundaries cube = true
  <-> grid_col cube < 0 \/ grid_col cube > GRID_RANGE.NUM_OF_COLUMNS - 1.
Proof.
  unfold checkCubeColExceedsBoundaries. rewrite orb_true_iff.
  rewrite Z.ltb_lt, Z.gtb_gt. reflexivity.
Qed.

(** ** The speed gate of the reducer (C7) *)

Lemma rem_zero_iff_mod_zero (n d : Z) :
  d <> 0 -> (Z.rem n d =? 0) = (n mod d =? 0).
Proof.
  intros Hd. apply eq_true_iff_eq. rewrite !Z.eqb_eq.
  rewrite Z.rem_divide by assumption. rewrite Z.mod_divide by assumption.
  reflexivity.
Qed.

(** C7: the reducer computes [speed = max(100 - level * 10, 10)]; a Tick
    whose elapsed counter is not a multiple of [speed] leaves the state as it
    is, and every other action, a Tick on a multiple of [speed] included, is
    applied by its own [apply]. *)
Theorem reduceState_gate (fuel : nat) (s : State) (a : Action) :
  let speed := Z.max (100 - level s * 10) 10 in
  speedMultiplier s = speed
  /\ reduceState fuel s a =
     match a with
     | Tick elapsed =>
         if elapsed mod speed =? 0 then Tick.apply elapsed s else Ok s
     | GenerateBlock index => Ok (GenerateBlock.apply index s)
     | Move direction => Move.apply direction s
     | Restart => Restart.apply s
     | Rotate direction => Rotate.apply direction s
     | Drop => Drop.apply fuel s
     end.
Proof.
  intros speed.
  assert (Hspeed : speedMultiplier s = speed).
  { unfold speedMultiplier. apply max_is_Zmax. }
  split; [exact Hspeed |].
  destruct a as [index | elapsed | direction | | direction |]; try reflexivity.
  unfold reduceState, Tick.getElapsed. cbn [negb orb applyAction].
  rewrite Hspeed. rewrite rem_zero_iff_mod_zero by (subst speed; lia).
  reflexivity.
Qed.

(** The scenario of the specification: at level 0 the speed is 100, and a
    Tick with an elapsed counter strictly between two multiples of 100 does
    nothing. *)
Lemma throttled_tick (fuel : nat) (s : State) (elapsed : Z) :
  level s = 0 ->
  elapsed mod 100 <> 0 ->
  speedMultiplier s = 100 /\ reduceState fuel s (Tick elapsed) = Ok s.
Proof.
  intros Hlevel Hoff.
  assert (Hspeed : speedMultiplier s = 100).
  { unfold speedMultiplier. rewrite Hlevel. reflexivity. }
  split; [exact Hspeed |].
  unfold reduceState, Tick.getElapsed. cbn [negb orb].
  rewrite Hspeed, rem_zero_iff_mod_zero by lia.
  destruct (Z.eqb_spec (elapsed mod 100) 0) as [Hzero | _]; [contradiction | reflexivity].
Qed.

(** ** The shape index drawn from the random stream (C9) *)

Lemma roundDouble_nonneg (n : Z) : 0 <= n -> 0 <= RNG.roundDouble n.
Proof.
  intros Hn. unfold RNG.roundDouble. cbv zeta.
  destruct (Z.abs n <? 2 ^ 53); [exact Hn |].
  set (e := Z.log2 (Z.abs n) - 52).
  assert (Hpow : 0 <= 2 ^ e) by (apply Z.pow_nonneg; lia).
  assert (Hq : 0 <= Z.abs n / 2 ^ e) by (apply Z_div_nonneg_nonneg; lia).
  assert (Hsgn : 0 <= Z.sgn n) by (apply Z.sgn_nonneg; exact Hn).
  apply Z.mul_nonneg_nonneg; [exact Hsgn |].
  apply Z.mul_nonneg_nonneg; [| exact Hpow].
  destruct (_ || _); lia.
Qed.

(** Rounding does not bring a negative integer closer to 0 than a bound
    that is itself a double. *)
Lemma roundDouble_le_neg (n k : Z) :
  0 <= k <= 2 ^ 53 -> n <= - k -> RNG.roundDouble n <= - k.
Proof.
  intros Hk Hn. unfold RNG.roundDouble. cbv zeta.
  destruct (Z.ltb_spec (Z.abs n) (2 ^ 53)) as [Hsmall | Hlarge]; [exact Hn |].
  set (size := Z.abs n) in *.
  set (e := Z.log2 size - 52).
  assert (Hsize : 0 < size) by (assert (0 < 2 ^ 53) by reflexivity; lia).
  assert (Hlog : 53 <= Z.log2 size) by (apply Z.log2_le_pow2; [exact Hsize | exact Hlarge]).
  assert (He : 1 <= e) by (subst e; lia).
  assert (Hpow : 2 <= 2 ^ e).
  { change 2 with (2 ^ 1) at 1. apply Z.pow_le_mono_r; lia. }
  assert (Hq : 2 ^ 52 <= size / 2 ^ e).
  { apply Z.div_le_lower_bound; [lia |].
    rewrite Z.mul_comm, <- Z.pow_add_r by lia.
    replace (52 + e) with (Z.log2 size) by (subst e; lia).
    apply Z.log2_spec. exact Hsize. }
  assert (Hneg : n < 0) by (subst size; lia).
  rewrite (Z.sgn_neg n Hneg).
  assert (Hup : size / 2 ^ e <= (if (2 ^ (e - 1) <? size mod 2 ^ e)
                                    || ((size mod 2 ^ e =? 2 ^ (e - 1))
                                        && Z.odd (size / 2 ^ e))
                                 then size / 2 ^ e + 1 else size / 2 ^ e))
    by (destruct (_ || _); lia).
  assert (H53 : 2 ^ 53 = 2 ^ 52 * 2) by reflexivity.
  nia.
Qed.

Lemma hash_range (seed : Z) : 0 <= seed -> 0 <= RNG.hash seed < RNG.m.
Proof.
  intros Hseed. unfold RNG.hash.
  assert (Hproduct : 0 <= RNG.roundDouble (RNG.a * seed))
    by (apply roundDouble_nonneg; unfold RNG.a; lia).
  assert (Hsum : 0 <= RNG.roundDouble (RNG.roundDouble (RNG.a * seed) + RNG.c))
    by (apply roundDouble_nonneg; unfold RNG.c; lia).
  apply Z.rem_bound_pos; [exact Hsum | reflexivity].
Qed.

(** The rounding shows from the second hash of the stream on: the stream
    seeded with 6, as main.ts seeds it, gives these first six indexes. *)
Lemma first_indexes_of_the_stream :
  RNG.hash 178652871 = 1672197376
  /\ map (fun n => randomTetrominoIndex (createRngStream 6 n)) (seq 0 6)
     = [7; 2; 2; 3; 5; 0].
Proof.
  split; vm_compute; reflexivity.
Qed.

Lemma hashIter_range (n : nat) (seed : Z) :
  0 <= seed < RNG.m -> 0 <= hashIter (S n) seed < RNG.m.
Proof.
  intros Hseed. induction n as [| n IH].
  - apply hash_range; lia.
  - change (hashIter (S (S n)) seed) with (RNG.hash (hashIter (S n) seed)).
    apply hash_range. lia.
Qed.

Lemma scale_range (h : Z) :
  0 <= h < RNG.m -> (-1 <= RNG.scale h <= 1)%Q.
Proof.
  intros [Hlo Hhi]. unfold RNG.scale, RNG.m in *.
  assert (H1 : (0 <= inject_Z h)%Q) by (rewrite Zle_Qle in Hlo; exact Hlo).
  assert (H2 : (inject_Z h <= 2147483647)%Q).
  { change 2147483647%Q with (inject_Z 2147483647). rewrite <- Zle_Qle. lia. }
  rewrite inject_Z_mult.
  change (inject_Z (2147483648 - 1)) with 2147483647%Q.
  change (inject_Z 2) with 2%Q.
  setoid_replace (2 * inject_Z h / 2147483647)%Q
    with (inject_Z h * (2 # 2147483647))%Q by (field; discriminate).
  split; lra.
Qed.

(** Every value of the stream is [scale] of a hash from 0 to [m - 1], for
    a seed in that range; main.ts seeds the stream with 6. *)
Lemma stream_values_are_scaled_hashes (seed : Z) (n : nat) :
  0 <= seed < RNG.m ->
  exists h, 0 <= h < RNG.m /\ createRngStream seed n = RNG.scale h.
Proof.
  intros Hseed. exists (hashIter (S n) seed).
  split; [apply hashIter_range; exact Hseed | reflexivity].
Qed.

Lemma floor_le_iff_lt (q : Q) (n : Z) :
  Qfloor q <= n <-> (q < inject_Z (n + 1))%Q.
Proof.
  split.
  - intros Hle. apply Qlt_le_trans with (inject_Z (Qfloor q + 1)).
    + apply Qlt_floor.
    + rewrite <- Zle_Qle. lia.
  - intros Hlt.
    assert (Hfl : (inject_Z (Qfloor q) < inject_Z (n + 1))%Q).
    { apply Qle_lt_trans with q; [apply Qfloor_le | exact Hlt]. }
    rewrite <- Zlt_Qlt in Hfl. lia.
Qed.

(** C9, as stated, fails: for the first value of the stream seeded with 6
    the program hands index 7 to [GenerateBlock], where the formula
    [floor(|v| * 7 - 1)] gives 4. *)
Lemma first_random_index_differs :
  randomTetrominoIndex (createRngStream 6 0) = 7
  /\ specShapeIndex (createRngStream 6 0) = 4.
Proof.
  split; vm_compute; reflexivity.
Qed.

Lemma randomTetrominoIndex_bounds (v : Q) :
  (-1 <= v <= 1)%Q ->
  0 <= randomTetrominoIndex v <= 8
  /\ ((v < -(5 # 7))%Q <-> 7 <= randomTetrominoIndex v).
Proof.
  intros [Hlo Hhi]. unfold randomTetrominoIndex.
  change (inject_Z (Z.of_nat (List.length Tetrimino.TETRIMINO_TYPES))) with 7%Q.
  set (q := (v * 7 - 1)%Q).
  assert (Hfloor_hi : Qfloor q <= 6).
  { apply floor_le_iff_lt. change (inject_Z (6 + 1)) with 7%Q. subst q. lra. }
  assert (Hfloor_lo : -8 <= Qfloor q).
  { change (-8) with (Qfloor (inject_Z (-8))) at 1.
    apply Qfloor_resp_le. change (inject_Z (-8)) with (-8)%Q. subst q. lra. }
  split; [lia |].
  split.
  - intros Hv.
    assert (Hfl : Qfloor q <= -7).
    { apply floor_le_iff_lt. change (inject_Z (-7 + 1)) with (-6)%Q. subst q. lra. }
    lia.
  - intros Hidx.
    assert (Hfl : Qfloor q <= -7) by lia.
    apply floor_le_iff_lt in Hfl. change (inject_Z (-7 + 1)) with (-6)%Q in Hfl.
    subst q. lra.
Qed.

(** C9, amended: for every hash [h] from 0 to [m - 1], which is what the
    generator's stream holds, and the random value [v = scale h], the index
    handed to [GenerateBlock] is [|floor(v * 7 - 1)|].  It is never negative
    and lies between 0 and 8; it is out of range (7 or 8) exactly when
    [v < -5/7], and then [GenerateBlock] stages the shape at the default
    index 3 ("O"); otherwise it stages the shape at that index. *)
Theorem random_index_from_stream (h : Z) (s : State) :
  0 <= h < RNG.m ->
  let v := RNG.scale h in
  let index := randomTetrominoIndex v in
  index = Z.abs (Qfloor (v * 7 - 1)%Q)
  /\ 0 <= index <= 8
  /\ ((v < -(5 # 7))%Q ->
      7 <= index
      /\ randomTetriminoType (GenerateBlock.apply index s) = "O")
  /\ (~ (v < -(5 # 7))%Q ->
      index <= 6
      /\ randomTetriminoType (GenerateBlock.apply index s) = GenerateBlock.typeAt index).
Proof.
  intros Hhash v index.
  pose proof (scale_range h Hhash) as Hrange. fold v in Hrange.
  destruct (randomTetrominoIndex_bounds v Hrange) as [Hbounds Hout]. fold index in Hbounds, Hout.
  split; [reflexivity |]. split; [exact Hbounds |]. split.
  - intros Hv. apply Hout in Hv. split; [exact Hv |].
    cbn [GenerateBlock.apply randomTetriminoType].
    replace (GenerateBlock.checkIndex index) with false; [reflexivity |].
    symmetry. unfold GenerateBlock.checkIndex. apply andb_false_iff. right.
    apply Z.ltb_ge. simpl. lia.
  - intros Hv.
    assert (Hin : index <= 6).
    { destruct (Z.le_gt_cases index 6) as [Hle | Hgt]; [exact Hle |].
      exfalso. apply Hv. apply Hout. lia. }
    split; [exact Hin |].
    cbn [GenerateBlock.apply randomTetriminoType].
    replace (GenerateBlock.checkIndex index) with true; [reflexivity |].
    symmetry. unfold GenerateBlock.checkIndex. apply andb_true_iff. split.
    + apply Z.geb_le. lia.
    + apply Z.ltb_lt. simpl. lia.
Qed.

Lemma random_index_from_stream_witness :
  0 <= RNG.hash 6 < RNG.m
  /\ randomTetrominoIndex (createRngStream 6 0) = 7
  /\ randomTetriminoType
       (GenerateBlock.apply (randomTetrominoIndex (createRngStream 6 0)) initialState)
     = "O".
Proof.
  assert (Hhash : 0 <= RNG.hash 6 < RNG.m) by (vm_compute; split; [discriminate | reflexivity]).
  pose proof (random_index_from_stream (RNG.hash 6) initialState Hhash) as Hthm.
  cbv zeta in Hthm.
  destruct Hthm as (_ & _ & Hout & _).
  split; [exact Hhash |].
  split; [vm_compute; reflexivity |].
  apply Hout. vm_compute. reflexivity.
Defined.

(** ** Rotation (C8) *)

Lemma withActiveBlock_same (s : State) : withActiveBlock s (activeBlock s) = s.
Proof.
  destruct s; reflexivity.
Qed.

Lemma rotateCube_center (direction : Direction) (pivot cube : Cube) :
  center (Rotate.rotateCube direction pivot cube) = center cube.
Proof.
  reflexivity.
Qed.

Lemma find_center_rotated (direction : Direction) (pivot : Cube) (block : Block) :
  find (fun cube => Bool.eqb (center cube) true)
    (map (Rotate.rotateCube direction pivot) block)
  = option_map (Rotate.rotateCube direction pivot)
      (find (fun cube => Bool.eqb (center cube) true) block).
Proof.
  induction block as [| cube rest IH]; [reflexivity |].
  cbn [map find]. rewrite rotateCube_center.
  destruct (Bool.eqb (center cube) true); [reflexivity | exact IH].
Qed.

Lemma rotateCube_pivot_fixed (pivot : Cube) :
  position (Rotate.rotateCube clockwise pivot pivot) = position pivot.
Proof.
  unfold position, Rotate.rotateCube. cbn [grid_row grid_col]. f_equal; lia.
Qed.

Lemma rotateCube_there_and_back (pivot pivot' cube : Cube) :
  position pivot' = position pivot ->
  position (Rotate.rotateCube anticlockwise pivot' (Rotate.rotateCube clockwise pivot cube))
  = position cube.
Proof.
  unfold position. intros Hpivot. injection Hpivot as Hrow Hcol.
  unfold Rotate.rotateCube. cbn [grid_row grid_col]. rewrite Hrow, Hcol.
  f_equal; lia.
Qed.

Lemma rotationAccepted_apply (direction : Direction) (s : State) :
  rotationAccepted direction s = true ->
  exists pivot,
    find (fun cube => Bool.eqb (center cube) true) (activeBlock s) = Some pivot
    /\ Rotate.apply direction s
       = Ok (withActiveBlock s (map (Rotate.rotateCube direction pivot) (activeBlock s))).
Proof.
  unfold rotationAccepted, Rotate.apply.
  destruct (find _ (activeBlock s)) as [pivot |]; [| discriminate].
  destruct (Rotate.canRotate (grid s) _) as [[|] | |]; try discriminate.
  intros _. exists pivot. split; reflexivity.
Qed.

(** C8: when the clockwise rotation is accepted (a pivot exists and the
    rotated block passes the boundary and occupancy check) and the
    anticlockwise rotation that follows is accepted too, both transitions
    return and every cube of the active block is back at its original row
    and column.  The statement holds on any grid, the empty one included. *)
Theorem rotate_clockwise_then_anticlockwise (fuel : nat) (s : State) :
  rotationAccepted clockwise s = true ->
  (forall s1, reduceState fuel s (Rotate clockwise) = Ok s1 ->
              rotationAccepted anticlockwise s1 = true) ->
  exists s1 s2,
    reduceState fuel s (Rotate clockwise) = Ok s1
    /\ reduceState fuel s1 (Rotate anticlockwise) = Ok s2
    /\ map position (activeBlock s2) = map position (activeBlock s).
Proof.
  intros Hfirst Hsecond.
  destruct (rotationAccepted_apply clockwise s Hfirst) as (pivot & Hpivot & Happly1).
  set (s1 := withActiveBlock s (map (Rotate.rotateCube clockwise pivot) (activeBlock s))) in *.
  assert (Hstep1 : reduceState fuel s (Rotate clockwise) = Ok s1) by exact Happly1.
  specialize (Hsecond s1 Hstep1).
  destruct (rotationAccepted_apply anticlockwise s1 Hsecond) as (pivot1 & Hpivot1 & Happly2).
  exists s1. eexists. split; [exact Hstep1 |]. split; [exact Happly2 |].
  subst s1. cbn [withActiveBlock activeBlock] in Hpivot1 |- *.
  rewrite find_center_rotated, Hpivot in Hpivot1. cbn [option_map] in Hpivot1.
  injection Hpivot1 as Hpivot1. subst pivot1.
  rewrite !map_map. apply map_ext. intros cube.
  apply rotateCube_there_and_back. apply rotateCube_pivot_fixed.
Qed.

Lemma rotate_clockwise_then_anticlockwise_witness :
  exists s1 s2,
    reduceState 20 (stateAfter firstLock) (Rotate clockwise) = Ok s1
    /\ reduceState 20 s1 (Rotate anticlockwise) = Ok s2
    /\ map position (activeBlock s2) = map position (activeBlock (stateAfter firstLock)).
Proof.
  apply (rotate_clockwise_then_anticlockwise 20 (stateAfter firstLock)).
  - vm_compute. reflexivity.
  - intros s1 Hstep. vm_compute in Hstep. injection Hstep as Hs1. subst s1.
    vm_compute. reflexivity.
Defined.

(** ** When the grid predicates return *)

Lemma filterM_pure {A : Type} (p : A -> result bool) (q : A -> bool) (a : list A) :
  (forall v, In v a -> p v = Ok (q v)) -> filterM p a = Ok (filter q a).
Proof.
  induction a as [| v rest IH]; intros Hp; [reflexivity |].
  cbn [filterM filter]. rewrite (Hp v (or_introl eq_refl)). cbn [bind].
  rewrite IH by (intros w Hw; apply Hp; right; exact Hw).
  reflexivity.
Qed.

Lemma filterM_total {A : Type} (p : A -> result bool) (a : list A) :
  (forall v, In v a -> exists b, p v = Ok b) -> exists kept, filterM p a = Ok kept.
Proof.
  induction a as [| v rest IH]; intros Hp; [now exists [] |].
  destruct (Hp v (or_introl eq_refl)) as [b Hb].
  destruct IH as [kept Hkept]; [intros w Hw; apply Hp; right; exact Hw |].
  cbn [filterM]. rewrite Hb. cbn [bind]. rewrite Hkept. cbn [bind].
  eexists; reflexivity.
Qed.

Lemma checkBlockCollision_total (conditions : list (Cube -> result bool)) (block : Block) :
  (forall cube, In cube block -> exists b, checkCollisions conditions cube = Ok b) ->
  exists b, checkBlockCollision conditions block = Ok b.
Proof.
  intros Hp. unfold checkBlockCollision.
  destruct (filterM_total _ _ Hp) as [kept Hkept]. rewrite Hkept.
  eexists; reflexivity.
Qed.

Lemma cellNotNull_total (g : Grid) (row col : Z) :
  0 <= row < Z.of_nat (List.length g) -> exists b, cellNotNull g row col = Ok b.
Proof.
  intros Hrow. unfold cellNotNull.
  destruct (nthZ_in_range g row Hrow) as [cells Hcells]. rewrite Hcells.
  destruct (nthZ cells col) as [[cube |] |]; eexists; reflexivity.
Qed.

(** The two conditions of [Tick] and [Drop]: the row test comes first, so
    the cell below is read only for a cube in rows 0 to 18. *)
Lemma fallConditions_total (g : Grid) (cube : Cube) :
  Z.of_nat (List.length g) = GRID_RANGE.NUM_OF_ROWS ->
  exists b,
    checkCollisions [total checkCubeRowExceedsBoundaries; cantMoveDown g] cube = Ok b.
Proof.
  intros Hlen. cbn [checkCollisions total bind].
  destruct (checkCubeRowExceedsBoundaries cube) eqn:Hexceeds; [now exists true |].
  unfold checkCubeRowExceedsBoundaries in Hexceeds.
  apply orb_false_iff in Hexceeds. destruct Hexceeds as [Hhi Hlo].
  rewrite Z.geb_leb in Hhi. apply Z.leb_gt in Hhi. apply Z.ltb_ge in Hlo.
  destruct (cellNotNull_total g (grid_row cube + 1) (grid_col cube)) as [b Hb]; [lia |].
  unfold cantMoveDown. rewrite Hb. cbn [bind]. destruct b; eexists; reflexivity.
Qed.

Lemma fallCollision_total (g : Grid) (block : Block) :
  Z.of_nat (List.length g) = GRID_RANGE.NUM_OF_ROWS ->
  exists b,
    checkBlockCollision [total checkCubeRowExceedsBoundaries; cantMoveDown g] block = Ok b.
Proof.
  intros Hlen. apply checkBlockCollision_total.
  intros cube _. apply fallConditions_total; exact Hlen.
Qed.

Lemma isColumnFilled_total (g : Grid) :
  0 < Z.of_nat (List.length g) -> exists b, isColumnFilled g = Ok b.
Proof.
  intros Hlen. unfold isColumnFilled.
  destruct (nthZ_in_range g 0) as [cells Hcells]; [lia |].
  rewrite Hcells. eexists; reflexivity.
Qed.

Lemma mapi_from_length {A B : Type} (f : A -> Z -> B) (a : list A) (i : Z) :
  List.length (mapi_from i f a) = List.length a.
Proof.
  revert i. induction a as [| v rest IH]; intros i; [reflexivity |].
  cbn [mapi_from List.length]. now rewrite IH.
Qed.

Lemma setBlockInArray_length (g : Grid) (block : Block) :
  List.length (setBlockInArray g block) = List.length g.
Proof.
  unfold setBlockInArray, mapi. apply mapi_from_length.
Qed.

Lemma mapi_from_In {A B : Type} (f : A -> Z -> B) (a : list A) (i : Z) (w : B) :
  In w (mapi_from i f a) -> exists v k, In v a /\ w = f v k.
Proof.
  revert i. induction a as [| v rest IH]; intros i Hin; [contradiction |].
  cbn [mapi_from] in Hin. destruct Hin as [Hhead | Htail].
  - exists v, i. split; [now left | now symmetry].
  - destruct (IH _ Htail) as (v' & k & Hv' & Hw). exists v', k. split; [now right | exact Hw].
Qed.

Lemma removeDuplicates_In (items : list Z) (item : Z) :
  In item (removeDuplicates items) -> In item items.
Proof.
  unfold removeDuplicates. intros Hin.
  apply in_map_iff in Hin. destruct Hin as ([item' index] & Hfst & Hin).
  cbn [fst] in Hfst. subst item'.
  apply filter_In in Hin. destruct Hin as [Hin _].
  apply mapi_from_In in Hin. destruct Hin as (v & k & Hv & Hpair).
  injection Hpair as Hitem _. subst v. exact Hv.
Qed.

Lemma getDeletingRows_in_range (g : Grid) (rows : list Z) :
  (forall row, In row rows -> 0 <= row < Z.of_nat (List.length g)) ->
  getDeletingRows g rows = Ok (filter (rowFull g) rows).
Proof.
  intros Hrange. unfold getDeletingRows. apply filterM_pure.
  intros row Hrow. unfold rowFull.
  destruct (nthZ_in_range g row (Hrange row Hrow)) as [cells Hcells].
  rewrite Hcells. reflexivity.
Qed.

(** ** Spawning *)

Lemma createBlock_known (tetriminoType : string) (cubeCount : Z) :
  In tetriminoType Tetrimino.TETRIMINO_TYPES ->
  exists block, createBlock tetriminoType cubeCount = Ok block.
Proof.
  intros Hin. cbn [Tetrimino.TETRIMINO_TYPES In] in Hin.
  repeat (destruct Hin as [Hin | Hin]; [subst tetriminoType; eexists; reflexivity |]).
  contradiction.
Qed.

Lemma createBlock_spawn_area (tetriminoType : string) (cubeCount : Z) (block : Block) :
  createBlock tetriminoType cubeCount = Ok block ->
  forallb inSpawnArea block = true /\ block <> [].
Proof.
  unfold createBlock, GenerateBlock.tetriminoLayouts.
  repeat (match goal with
          | |- context [if String.eqb ?a ?b then _ else _] => destruct (String.eqb a b)
          end;
          [intros Hblock; injection Hblock as Hblock; subst block;
           split; [reflexivity | discriminate] |]).
  discriminate.
Qed.

(** ** Actions once the game has ended (C1) *)

(** In a hypothesis [H : ... = Ok _], case on the first computation that
    was sequenced, dropping the cases in which it throws. *)
Ltac step_bind H :=
  match type of H with
  | context [bind ?e _] =>
      let E := fresh "E" in
      destruct e eqn:E; cbn [bind] in H; try discriminate H
  end.

Lemma withActiveBlock_twice (s : State) (b b' : Block) :
  withActiveBlock (withActiveBlock s b) b' = withActiveBlock s b'.
Proof.
  reflexivity.
Qed.

Lemma withActiveBlock_activeBlock (s : State) (b : Block) :
  activeBlock (withActiveBlock s b) = b.
Proof.
  reflexivity.
Qed.

Lemma Move_only_block (direction : Z) (s s' : State) :
  Move.apply direction s = Ok s' -> s' = withActiveBlock s (activeBlock s').
Proof.
  unfold Move.apply. intros H. step_bind H.
  injection H as H. subst s'. reflexivity.
Qed.

Lemma Rotate_only_block (direction : Direction) (s s' : State) :
  Rotate.apply direction s = Ok s' -> s' = withActiveBlock s (activeBlock s').
Proof.
  unfold Rotate.apply. intros H.
  destruct (find _ (activeBlock s)) as [pivot |].
  - step_bind H. injection H as H. subst s'. reflexivity.
  - injection H as H. subst s'. reflexivity.
Qed.

Lemma Drop_only_block (fuel : nat) (s s' : State) :
  Drop.apply fuel s = Ok s' -> s' = withActiveBlock s (activeBlock s').
Proof.
  revert s. induction fuel as [| fuel IH]; intros s H; [discriminate |].
  cbn [Drop.apply] in H. step_bind H.
  destruct a.
  - apply IH in H. rewrite withActiveBlock_twice in H. exact H.
  - injection H as H. subst s'. symmetry. apply withActiveBlock_same.
Qed.

Lemma steering_only_block (fuel : nat) (a : Action) (s s' : State) :
  steersBlock a = true ->
  reduceState fuel s a = Ok s' -> s' = withActiveBlock s (activeBlock s').
Proof.
  destruct a as [index | elapsed | direction | | direction |]; try discriminate;
    intros _ H; cbn in H.
  - eapply Move_only_block; exact H.
  - eapply Rotate_only_block; exact H.
  - eapply Drop_only_block; exact H.
Qed.

(** C1, as stated, fails.  In the game [leftPile] the pile reaches row 0 at
    the left wall, so the game is over while the block spawned last is free:
    [Move 1] shifts it, and [GenerateBlock 0] replaces the staged shape. *)
Lemma ended_game_state_changes :
  runActions 20 initialState leftPile = Ok (stateAfter leftPile)
  /\ gameEnd (stateAfter leftPile) = true
  /\ (exists s', reduceState 20 (stateAfter leftPile) (Move 1) = Ok s'
                 /\ s' <> stateAfter leftPile)
  /\ (exists s', reduceState 20 (stateAfter leftPile) (GenerateBlock 0) = Ok s'
                 /\ s' <> stateAfter leftPile).
Proof.
  split; [vm_compute; reflexivity |].
  split; [vm_compute; reflexivity |].
  split.
  - exists (withActiveBlock (stateAfter leftPile)
              (map (Move.updateCubeX 1) (activeBlock (stateAfter leftPile)))).
    split; [vm_compute; reflexivity |].
    intros Heq.
    apply (f_equal (fun st => map position (activeBlock st))) in Heq.
    vm_compute in Heq. discriminate Heq.
  - exists (GenerateBlock.apply 0 (stateAfter leftPile)).
    split; [vm_compute; reflexivity |].
    intros Heq. apply (f_equal randomTetriminoType) in Heq.
    vm_compute in Heq. discriminate Heq.
Qed.

(** C1, amended: in a state with [gameEnd = true], a Tick returns the state
    unchanged (the grid having its 20 rows); [GenerateBlock] returns it with
    only [randomTetriminoType] replaced; and a state returned by [Move],
    [Rotate] or [Drop] differs from it in [activeBlock] at most. *)
Theorem ended_game_actions (fuel : nat) (s : State) :
  gameEnd s = true ->
  (Z.of_nat (List.length (grid s)) = GRID_RANGE.NUM_OF_ROWS ->
   forall elapsed, reduceState fuel s (Tick elapsed) = Ok s)
  /\ (forall index,
        reduceState fuel s (GenerateBlock index)
        = Ok (mkState (gameEnd s) (activeBlock s) (grid s) (shapePreview s)
                (clearBlocks s)
                (if GenerateBlock.checkIndex index
                 then GenerateBlock.typeAt index else "O")
                (score s) (highScore s) (level s) (objCount s)))
  /\ (forall a s',
        steersBlock a = true ->
        reduceState fuel s a = Ok s' ->
        s' = withActiveBlock s (activeBlock s')).
Proof.
  intros Hend. split; [| split].
  - intros Hlen elapsed. unfold reduceState. cbn [negb orb].
    destruct (Z.rem _ _ =? 0); [| reflexivity].
    cbn [applyAction]. unfold Tick.apply.
    destruct (fallCollision_total (grid s) (activeBlock s) Hlen) as [b Hb].
    rewrite Hb. cbn [bind]. rewrite Hend. reflexivity.
  - intros index. reflexivity.
  - intros a s' Hsteer Hstep. eapply steering_only_block; eassumption.
Qed.

Lemma ended_game_actions_witness :
  reduceState 20 (stateAfter leftPile) (Tick 10000) = Ok (stateAfter leftPile).
Proof.
  assert (Hend : gameEnd (stateAfter leftPile) = true) by (vm_compute; reflexivity).
  destruct (ended_game_actions 20 (stateAfter leftPile) Hend) as (Htick & _ & _).
  apply Htick. vm_compute. reflexivity.
Defined.

(** ** The list of removed cubes (C2) *)

Lemma flat_map_copy_cells (g : Grid) :
  flat_map (fun row => map (fun cell : option Cube => cell) row) g = List.concat g.
Proof.
  induction g as [| row rest IH]; [reflexivity |].
  cbn [flat_map List.concat]. rewrite map_id, IH. reflexivity.
Qed.

(** C2, as stated, fails.  The game [beforeClear] followed by one Tick
    clears row 19 and lists its ten cubes in [clearBlocks]; the [Move] that
    comes next removes no cube, leaves the grid as it is, and returns the
    same ten cubes in [clearBlocks]. *)
Lemma clearBlocks_kept_by_Move :
  runActions 20 initialState (beforeClear ++ [Tick 7400])
  = Ok (stateAfter (beforeClear ++ [Tick 7400]))
  /\ exists s',
       reduceState 20 (stateAfter (beforeClear ++ [Tick 7400])) (Move 1) = Ok s'
       /\ grid s' = grid (stateAfter (beforeClear ++ [Tick 7400]))
       /\ List.length (clearBlocks s') = 10%nat.
Proof.
  split; [vm_compute; reflexivity |].
  exists (withActiveBlock (stateAfter (beforeClear ++ [Tick 7400]))
            (map (Move.updateCubeX 1)
               (activeBlock (stateAfter (beforeClear ++ [Tick 7400]))))).
  split; [vm_compute; reflexivity |].
  split; vm_compute; reflexivity.
Qed.

Lemma getRemovedCubes_nil (g : Grid) : getRemovedCubes g [] = [].
Proof.
  unfold getRemovedCubes. cbv zeta.
  induction g as [| row rest IH]; [reflexivity |].
  cbn [flat_map].
  assert (Hrow : filter (fun cell : option Cube =>
                           match cell with
                           | Some cube => includes [] (grid_row cube)
                           | None => false
                           end) row = []).
  { induction row as [| [cube |] cells IHrow]; [reflexivity | exact IHrow | exact IHrow]. }
  rewrite Hrow. exact IH.
Qed.

(** C2, amended: [clearBlocks] is never emptied.  Every transition returns
    the [clearBlocks] it received followed by the cubes it removes.  For a
    Tick that locks the active block these are the cubes that the grid with
    the block committed holds in the rows that [getDeletingRows] returns
    (none when no touched row is full); for a Restart of an ended game, the
    cubes of the grid and of the active block; and nothing for any other
    transition. *)
Theorem clearBlocks_accumulates (fuel : nat) (s s' : State) (a : Action) :
  reduceState fuel s a = Ok s' ->
  exists removed,
    clearBlocks s' = clearBlocks s ++ removed
    /\ match a with
       | Tick elapsed =>
           let updatedGrid := setBlockInArray (grid s) (activeBlock s) in
           (locksBlock elapsed s ->
            exists rows,
              getDeletingRows updatedGrid (getRecentlyPlacedRows (activeBlock s))
              = Ok rows
              /\ removed = getRemovedCubes updatedGrid rows
              /\ (rows = [] -> removed = []))
           /\ (~ locksBlock elapsed s -> removed = [])
       | Restart =>
           removed = if gameEnd s then gridCubes (grid s) ++ activeBlock s else []
       | GenerateBlock _ | Move _ | Rotate _ | Drop => removed = []
       end.
Proof.
  intros Hstep.
  destruct a as [index | elapsed | direction | | direction |].
  - unfold reduceState in Hstep. cbn [negb orb applyAction] in Hstep.
    injection Hstep as Hs'. subst s'.
    exists []. split; [cbn [GenerateBlock.apply clearBlocks]; now rewrite app_nil_r | reflexivity].
  - unfold reduceState, Tick.getElapsed in Hstep. cbn [negb orb] in Hstep.
    cbv zeta. unfold locksBlock.
    destruct (Z.eqb_spec (Z.rem elapsed (speedMultiplier s)) 0) as [Hbeat | Hoff].
    + cbn [applyAction] in Hstep. unfold Tick.apply in Hstep.
      destruct (checkBlockCollision _ (activeBlock s)) as [collides | |] eqn:Hcollides;
        cbn [bind] in Hstep; try discriminate Hstep.
      destruct (gameEnd s) eqn:Hend.
      * injection Hstep as Hs'. subst s'.
        exists []. split; [now rewrite app_nil_r |].
        split; [intros (Hon & _); discriminate Hon | reflexivity].
      * destruct collides.
        -- unfold Tick.handleCollisions in Hstep.
           destruct (createBlock _ _) as [newBlock | |]; cbn [bind] in Hstep;
             try discriminate Hstep.
           destruct (checkBlockCollision _ newBlock) as [overlap | |]; cbn [bind] in Hstep;
             try discriminate Hstep.
           destruct (getDeletingRows _ _) as [rows | |] eqn:Hrows; cbn [bind] in Hstep;
             try discriminate Hstep.
           destruct rows as [| row rest].
           ++ cbn [List.length Z.of_nat Z.gtb Z.compare] in Hstep.
              destruct (isColumnFilled _) as [filled | |]; cbn [bind] in Hstep;
                try discriminate Hstep.
              injection Hstep as Hs'. subst s'.
              exists []. split; [cbn [clearBlocks]; now rewrite app_nil_r |].
              split; [| reflexivity].
              intros _. exists []. split; [reflexivity |].
              split; [now rewrite getRemovedCubes_nil | reflexivity].
           ++ assert (Hany : (Z.of_nat (List.length (row :: rest)) >? 0) = true)
                by (cbn [List.length]; apply Z.gtb_lt; lia).
              rewrite Hany in Hstep.
              destruct (isColumnFilled _) as [filled | |]; cbn [bind] in Hstep;
                try discriminate Hstep.
              injection Hstep as Hs'. subst s'.
              exists (getRemovedCubes (setBlockInArray (grid s) (activeBlock s))
                        (row :: rest)).
              split; [reflexivity |]. split.
              ** intros _. exists (row :: rest). split; [reflexivity |].
                 split; [reflexivity | discriminate].
              ** intros Hnot. exfalso. apply Hnot. repeat split; assumption.
        -- destruct (isColumnFilled _) as [filled | |]; cbn [bind] in Hstep;
             try discriminate Hstep.
           injection Hstep as Hs'. subst s'.
           exists []. split; [cbn [clearBlocks]; now rewrite app_nil_r |].
           split; [intros (_ & _ & Hlock); discriminate Hlock | reflexivity].
    + injection Hstep as Hs'. subst s'.
      exists []. split; [now rewrite app_nil_r |].
      split; [intros (_ & Hbeat & _); contradiction | reflexivity].
  - apply (steering_only_block fuel (Move direction) s s' eq_refl) in Hstep.
    exists []. split; [rewrite Hstep; cbn [withActiveBlock clearBlocks]; now rewrite app_nil_r | reflexivity].
  - unfold reduceState in Hstep. cbn [negb orb applyAction] in Hstep.
    unfold Restart.apply in Hstep.
    destruct (gameEnd s).
    + step_bind Hstep. injection Hstep as Hs'. subst s'.
      cbn [clearBlocks]. rewrite flat_map_copy_cells.
      eexists. split; reflexivity.
    + injection Hstep as Hs'. subst s'.
      exists []. split; [now rewrite app_nil_r | reflexivity].
  - apply (steering_only_block fuel (Rotate direction) s s' eq_refl) in Hstep.
    exists []. split; [rewrite Hstep; cbn [withActiveBlock clearBlocks]; now rewrite app_nil_r | reflexivity].
  - apply (steering_only_block fuel Drop s s' eq_refl) in Hstep.
    exists []. split; [rewrite Hstep; cbn [withActiveBlock clearBlocks]; now rewrite app_nil_r | reflexivity].
Qed.

Lemma clearBlocks_accumulates_witness :
  exists removed,
    clearBlocks (stateAfter (beforeClear ++ [Tick 7400]))
    = clearBlocks (stateAfter beforeClear) ++ removed
    /\ List.length removed = 10%nat.
Proof.
  assert (Hstep : reduceState 20 (stateAfter beforeClear) (Tick 7400)
                  = Ok (stateAfter (beforeClear ++ [Tick 7400])))
    by (vm_compute; reflexivity).
  destruct (clearBlocks_accumulates 20 _ _ _ Hstep) as (removed & Hclear & _).
  exists removed. split; [exact Hclear |].
  apply (f_equal (@List.length Cube)) in Hclear.
  rewrite length_app in Hclear. vm_compute in Hclear.
  exact (eq_sym Hclear).
Defined.

(** ** Scoring of a line clear (C3) *)

Lemma inSpawnArea_cell_total (g : Grid) (block : Block) :
  Z.of_nat (List.length g) = GRID_RANGE.NUM_OF_ROWS ->
  forallb inSpawnArea block = true ->
  exists b, checkBlockCollision [checkCurrentCell g] block = Ok b.
Proof.
  intros Hlen Harea. apply checkBlockCollision_total.
  intros cube Hcube. cbn [checkCollisions].
  rewrite forallb_forall in Harea. specialize (Harea cube Hcube).
  unfold inSpawnArea in Harea. rewrite !andb_true_iff in Harea.
  destruct Harea as [[[Hr0 Hr1] _] _].
  apply Z.leb_le in Hr0. apply Z.leb_le in Hr1.
  destruct (cellNotNull_total g (grid_row cube) (grid_col cube)) as [b Hb].
  { rewrite Hlen. change GRID_RANGE.NUM_OF_ROWS with 20. lia. }
  unfold checkCurrentCell. rewrite Hb. cbn [bind]. destruct b; eexists; reflexivity.
Qed.

Lemma touched_rows_in_grid (g : Grid) (block : Block) :
  Z.of_nat (List.length g) = GRID_RANGE.NUM_OF_ROWS ->
  forallb inGrid block = true ->
  forall row, In row (getRecentlyPlacedRows block) -> 0 <= row < Z.of_nat (List.length g).
Proof.
  intros Hlen Hin row Hrow. unfold getRecentlyPlacedRows in Hrow.
  apply removeDuplicates_In in Hrow. apply in_map_iff in Hrow.
  destruct Hrow as (cube & Hcube & Hblock). subst row.
  rewrite forallb_forall in Hin. specialize (Hin cube Hblock).
  unfold inGrid in Hin. rewrite !andb_true_iff in Hin.
  destruct Hin as [[[Hr0 Hr1] _] _].
  apply Z.leb_le in Hr0. apply Z.leb_le in Hr1. lia.
Qed.

(** C3: when the active block locks (the game is on, the Tick passes the
    gate and the block collides) and [k >= 1] of the rows it touches are
    fully occupied once it is committed to the grid, the transition returns
    a state whose score is the old score plus [columnCount * k], with
    [columnCount = 10], and whose level is [floor(newScore / columnCount)]. *)
Theorem line_clear_scoring (fuel : nat) (elapsed : Z) (s : State) :
  gameEnd s = false ->
  Z.rem elapsed (speedMultiplier s) = 0 ->
  Z.of_nat (List.length (grid s)) = GRID_RANGE.NUM_OF_ROWS ->
  forallb inGrid (activeBlock s) = true ->
  In (shapePreview s) Tetrimino.TETRIMINO_TYPES ->
  checkBlockCollision
    [total checkCubeRowExceedsBoundaries; cantMoveDown (grid s)] (activeBlock s)
  = Ok true ->
  let committed := setBlockInArray (grid s) (activeBlock s) in
  let k := List.length (filter (rowFull committed) (getRecentlyPlacedRows (activeBlock s))) in
  (1 <= k)%nat ->
  GRID_RANGE.NUM_OF_COLUMNS = 10
  /\ exists s',
       reduceState fuel s (Tick elapsed) = Ok s'
       /\ score s' = score s + GRID_RANGE.NUM_OF_COLUMNS * Z.of_nat k
       /\ level s' = score s' / GRID_RANGE.NUM_OF_COLUMNS.
Proof.
  intros Hon Hbeat Hlen Hblock Hpreview Hlock committed k Hk.
  split; [reflexivity |].
  assert (Hlen' : Z.of_nat (List.length committed) = GRID_RANGE.NUM_OF_ROWS).
  { subst committed. rewrite setBlockInArray_length. exact Hlen. }
  destruct (createBlock_known (shapePreview s) (Tetrimino.TETRIMINO_SIZE + objCount s) Hpreview)
    as [newBlock HnewBlock].
  destruct (createBlock_spawn_area _ _ _ HnewBlock) as [Harea _].
  destruct (inSpawnArea_cell_total committed newBlock Hlen' Harea) as [overlap Hoverlap].
  assert (Hrows : getDeletingRows committed (getRecentlyPlacedRows (activeBlock s))
                  = Ok (filter (rowFull committed) (getRecentlyPlacedRows (activeBlock s)))).
  { apply getDeletingRows_in_range. intros row Hrow.
    subst committed. rewrite setBlockInArray_length.
    eapply touched_rows_in_grid; eassumption. }
  destruct (isColumnFilled_total committed) as [filled Hfilled].
  { rewrite Hlen'. reflexivity. }
  unfold reduceState, Tick.getElapsed. cbn [negb orb].
  rewrite Hbeat. cbn [Z.eqb applyAction].
  unfold Tick.apply. rewrite Hlock. cbn [bind]. rewrite Hon.
  unfold Tick.handleCollisions. fold committed.
  rewrite HnewBlock. cbn [bind]. rewrite Hoverlap. cbn [bind].
  rewrite Hrows. cbn [bind]. fold k.
  replace (Z.of_nat k >? 0) with true by (symmetry; apply Z.gtb_gt; lia).
  rewrite Hfilled. cbn [bind].
  eexists. split; [reflexivity |].
  split; reflexivity.
Qed.

Lemma line_clear_scoring_witness :
  exists s',
    reduceState 20 (stateAfter beforeClear) (Tick 7400) = Ok s'
    /\ score s' = 10
    /\ level s' = 1.
Proof.
  assert (Hthm := line_clear_scoring 20 7400 (stateAfter beforeClear)).
  cbv zeta in Hthm.
  destruct Hthm as (_ & s' & Hstep & Hscore & Hlevel).
  - vm_compute. reflexivity.
  - vm_compute. reflexivity.
  - vm_compute. reflexivity.
  - vm_compute. reflexivity.
  - vm_compute. tauto.
  - vm_compute. reflexivity.
  - vm_compute. lia.
  - exists s'. split; [exact Hstep |].
    assert (Hs : score s' = 10).
    { rewrite Hscore. vm_compute. reflexivity. }
    split; [exact Hs |]. rewrite Hlevel, Hs. reflexivity.
Defined.

(** ** Cells and cubes of a grid *)

Lemma nthZ_of_nat {A : Type} (a : list A) (n : nat) :
  nthZ a (Z.of_nat n) = nth_error a n.
Proof.
  unfold nthZ. destruct (Z.ltb_spec (Z.of_nat n) 0) as [Hneg | _]; [lia |].
  now rewrite Nat2Z.id.
Qed.

Lemma nthZ_nth_error {A : Type} (a : list A) (i : Z) (v : A) :
  nthZ a i = Some v -> nth_error a (Z.to_nat i) = Some v /\ 0 <= i.
Proof.
  unfold nthZ. destruct (Z.ltb_spec i 0) as [Hneg | Hpos]; [discriminate |].
  intros H. split; [exact H | exact Hpos].
Qed.

Lemma filterNotNull_app (l1 l2 : list (option Cube)) :
  filterNotNull (l1 ++ l2) = filterNotNull l1 ++ filterNotNull l2.
Proof.
  induction l1 as [| [q |] rest IH]; cbn [filterNotNull app]; [reflexivity | | exact IH].
  now rewrite IH.
Qed.

Lemma filterNotNull_In (cells : list (option Cube)) (q : Cube) :
  In q (filterNotNull cells) <-> In (Some q) cells.
Proof.
  induction cells as [| [q' |] rest IH]; cbn [filterNotNull In].
  - reflexivity.
  - rewrite IH. split; intros [H | H]; auto; left; congruence.
  - rewrite IH. split; [now right | intros [H | H]; [discriminate | exact H]].
Qed.

Lemma gridCubes_app (g1 g2 : Grid) :
  gridCubes (g1 ++ g2) = gridCubes g1 ++ gridCubes g2.
Proof.
  unfold gridCubes. now rewrite concat_app, filterNotNull_app.
Qed.

Lemma cellAt_Some (g : Grid) (row col : Z) (q : Cube) :
  cellAt g row col = Some q <->
  exists cells, nthZ g row = Some cells /\ nthZ cells col = Some (Some q).
Proof.
  unfold cellAt. split.
  - destruct (nthZ g row) as [cells |]; [| discriminate].
    destruct (nthZ cells col) as [cell |] eqn:Hcell; [| discriminate].
    intros H. subst cell. exists cells. split; [reflexivity | exact Hcell].
  - intros (cells & Hrow & Hcol). now rewrite Hrow, Hcol.
Qed.

Lemma gridCubes_In (g : Grid) (q : Cube) :
  In q (gridCubes g) <-> exists row col, cellAt g row col = Some q.
Proof.
  unfold gridCubes. rewrite filterNotNull_In, in_concat. split.
  - intros (cells & Hcells & Hq).
    apply In_nth_error in Hcells. destruct Hcells as [i Hi].
    apply In_nth_error in Hq. destruct Hq as [j Hj].
    exists (Z.of_nat i), (Z.of_nat j). apply cellAt_Some.
    exists cells. now rewrite !nthZ_of_nat.
  - intros (row & col & Hcell). apply cellAt_Some in Hcell.
    destruct Hcell as (cells & Hrow & Hcol).
    exists cells. split; eapply nthZ_In; eassumption.
Qed.

Lemma nth_error_mapi_from {A B : Type} (f : A -> Z -> B) (a : list A) (start : Z) (n : nat) :
  nth_error (mapi_from start f a) n
  = option_map (fun v => f v (start + Z.of_nat n)) (nth_error a n).
Proof.
  revert start n. induction a as [| v rest IH]; intros start n.
  - destruct n; reflexivity.
  - destruct n as [| n]; cbn [mapi_from nth_error option_map].
    + now rewrite Z.add_0_r.
    + rewrite IH. destruct (nth_error rest n); cbn [option_map]; [| reflexivity].
      do 2 f_equal. lia.
Qed.

Lemma nthZ_mapi {A B : Type} (f : A -> Z -> B) (a : list A) (i : Z) (v : A) :
  nthZ a i = Some v -> nthZ (mapi f a) i = Some (f v i).
Proof.
  intros H. destruct (nthZ_nth_error a i v H) as [Hnth Hpos].
  unfold nthZ, mapi. destruct (Z.ltb_spec i 0) as [Hneg | _]; [lia |].
  rewrite nth_error_mapi_from, Hnth. cbn [option_map]. do 2 f_equal. lia.
Qed.

Lemma cubesInPlace_spec (g : Grid) : cubesInPlace g = true -> InPlace g.
Proof.
  unfold cubesInPlace. intros Hall row col q Hcell.
  rewrite forallb_forall in Hall.
  apply cellAt_Some in Hcell. destruct Hcell as (cells & Hrow & Hcol).
  assert (Hhere : isCubeHere row col q = true).
  { apply Hall. apply in_concat.
    eexists. split.
    - eapply nthZ_In. apply nthZ_mapi. exact Hrow.
    - eapply nthZ_In.
      apply (nthZ_mapi (fun cell colIndex =>
               match cell with
               | Some cube => isCubeHere row colIndex cube
               | None => true
               end) cells col (Some q) Hcol). }
  unfold isCubeHere in Hhere. apply andb_true_iff in Hhere.
  destruct Hhere as [Hr Hc]. apply Z.eqb_eq in Hr. apply Z.eqb_eq in Hc. now split.
Qed.

Lemma hasGridShape_spec (g : Grid) :
  hasGridShape g = true ->
  Z.of_nat (List.length g) = GRID_RANGE.NUM_OF_ROWS
  /\ forall cells, In cells g -> Z.of_nat (List.length cells) = GRID_RANGE.NUM_OF_COLUMNS.
Proof.
  unfold hasGridShape. intros H. apply andb_true_iff in H. destruct H as [Hrows Hcols].
  apply Z.eqb_eq in Hrows. split; [exact Hrows |].
  intros cells Hcells. rewrite forallb_forall in Hcols.
  apply Z.eqb_eq. apply Hcols. exact Hcells.
Qed.

Lemma cellAt_Some_range (g : Grid) (row col : Z) (q : Cube) :
  hasGridShape g = true ->
  cellAt g row col = Some q ->
  0 <= row < GRID_RANGE.NUM_OF_ROWS /\ 0 <= col < GRID_RANGE.NUM_OF_COLUMNS.
Proof.
  intros Hshape Hcell. apply hasGridShape_spec in Hshape. destruct Hshape as [Hrows Hcols].
  apply cellAt_Some in Hcell. destruct Hcell as (cells & Hrow & Hcol).
  rewrite <- Hrows, <- (Hcols cells (nthZ_In _ _ _ Hrow)).
  split; eapply nthZ_Some_range; eassumption.
Qed.

Lemma nthZ_map_indexes {B : Type} (F : Z -> B) (n i : Z) :
  0 <= i < n -> nthZ (map F (indexes n)) i = Some (F i).
Proof.
  intros Hi. unfold nthZ, indexes.
  destruct (Z.ltb_spec i 0) as [Hneg | _]; [lia |].
  rewrite map_map, nth_error_map, nth_error_seq.
  destruct (Nat.ltb_spec (Z.to_nat i) (Z.to_nat n)) as [_ | Hge]; [| lia].
  cbn [option_map Nat.add]. do 2 f_equal. lia.
Qed.

Lemma generate2DArray_shape (generateCell : Z -> Z -> option Cube) :
  hasGridShape (generate2DArray generateCell) = true.
Proof.
  reflexivity.
Qed.

Lemma cellAt_generate2DArray (generateCell : Z -> Z -> option Cube) (row col : Z) :
  0 <= row < GRID_RANGE.NUM_OF_ROWS ->
  0 <= col < GRID_RANGE.NUM_OF_COLUMNS ->
  cellAt (generate2DArray generateCell) row col = generateCell row col.
Proof.
  intros Hrow Hcol. unfold cellAt, generate2DArray.
  rewrite (nthZ_map_indexes _ _ row Hrow).
  rewrite (nthZ_map_indexes _ _ col Hcol). reflexivity.
Qed.

(** ** Row removal and the shift of the rows above (C6) *)

Lemma cubeAt_true (rowIndex colIndex : Z) (cube : Cube) :
  cubeAt rowIndex colIndex cube = true
  <-> grid_row cube = rowIndex /\ grid_col cube = colIndex.
Proof.
  unfold cubeAt. rewrite andb_true_iff, !Z.eqb_eq. intuition congruence.
Qed.

Lemma includes_In (rows : list Z) (row : Z) : includes rows row = true <-> In row rows.
Proof.
  unfold includes. rewrite existsb_exists. split.
  - intros (v & Hv & Heq). apply Z.eqb_eq in Heq. now subst v.
  - intros Hin. exists row. split; [exact Hin | apply Z.eqb_refl].
Qed.

Lemma mathMin_None (rows : list Z) : mathMin rows = None -> rows = [].
Proof.
  destruct rows as [| row rest]; [reflexivity |].
  cbn [mathMin]. destruct (mathMin rest); discriminate.
Qed.

Lemma mathMin_spec (rows : list Z) (least : Z) :
  mathMin rows = Some least -> In least rows /\ forall row, In row rows -> least <= row.
Proof.
  revert least. induction rows as [| row rest IH]; intros least Hmin; [discriminate |].
  cbn [mathMin] in Hmin. destruct (mathMin rest) as [least' |] eqn:Hrest.
  - injection Hmin as Hleast. destruct (IH least' eq_refl) as [Hin Hle].
    split.
    + destruct (Z.min_spec row least') as [[_ Hm] | [_ Hm]]; rewrite Hm in Hleast;
        subst least; [now left | now right].
    + intros r [Hr | Hr]; [subst r; lia | specialize (Hle r Hr); lia].
  - injection Hmin as Hleast. subst least. apply mathMin_None in Hrest. subst rest.
    split; [now left |]. intros r [Hr | []]. subst r. lia.
Qed.

Lemma NoDup_range_length (rows : list Z) (lo hi : Z) :
  lo <= hi ->
  NoDup rows ->
  (forall row, In row rows -> lo <= row < hi) ->
  Z.of_nat (List.length rows) <= hi - lo.
Proof.
  intros Hlohi Hnodup Hrange.
  assert (Hincl : incl rows (map (fun i => lo + Z.of_nat i) (seq 0 (Z.to_nat (hi - lo))))).
  { intros row Hrow. specialize (Hrange row Hrow). apply in_map_iff.
    exists (Z.to_nat (row - lo)). split; [lia |]. apply in_seq. lia. }
  apply (NoDup_incl_length Hnodup) in Hincl.
  rewrite length_map, length_seq in Hincl. lia.
Qed.

Lemma find_app_first {A : Type} (p : A -> bool) (l1 l2 : list A) :
  find p (l1 ++ l2) = match find p l1 with
                      | Some v => Some v
                      | None => find p l2
                      end.
Proof.
  induction l1 as [| v rest IH]; [reflexivity |].
  cbn [app find]. destruct (p v); [reflexivity | exact IH].
Qed.

Lemma find_cubeAt_moved (amount rowIndex colIndex : Z) (cubes : list Cube) :
  find (cubeAt rowIndex colIndex) (map (moveCube amount) cubes)
  = option_map (moveCube amount) (find (cubeAt (rowIndex - amount) colIndex) cubes).
Proof.
  induction cubes as [| q rest IH]; [reflexivity |].
  cbn [map find].
  replace (cubeAt rowIndex colIndex (moveCube amount q))
    with (cubeAt (rowIndex - amount) colIndex q).
  - destruct (cubeAt (rowIndex - amount) colIndex q); [reflexivity | exact IH].
  - unfold cubeAt, moveCube. cbn [grid_row grid_col]. f_equal.
    apply eq_true_iff_eq. rewrite !Z.eqb_eq. lia.
Qed.

Lemma filter_all {A : Type} (p : A -> bool) (l : list A) :
  (forall v, In v l -> p v = true) -> filter p l = l.
Proof.
  induction l as [| v rest IH]; intros Hp; [reflexivity |].
  cbn [filter]. rewrite (Hp v (or_introl eq_refl)).
  f_equal. apply IH. intros w Hw. apply Hp. now right.
Qed.

Lemma map_fixed {A : Type} (f : A -> A) (l : list A) :
  (forall v, In v l -> f v = v) -> map f l = l.
Proof.
  induction l as [| v rest IH]; intros Hf; [reflexivity |].
  cbn [map]. rewrite (Hf v (or_introl eq_refl)).
  f_equal. apply IH. intros w Hw. apply Hf. now right.
Qed.

Lemma filterNotNull_filter (keep : Cube -> bool) (cells : list (option Cube)) :
  filterNotNull
    (filter (fun cell => match cell with
                         | Some cube => keep cube
                         | None => false
                         end) cells)
  = filter keep (filterNotNull cells).
Proof.
  induction cells as [| [q |] rest IH]; cbn [filter filterNotNull]; [reflexivity | | exact IH].
  destruct (keep q); cbn [filterNotNull]; now rewrite IH.
Qed.

Lemma kept_cubes_of_grid (keep : Cube -> bool) (g : Grid) :
  filterNotNull
    (flat_map (fun row =>
       filter (fun cell => match cell with
                           | Some cube => keep cube
                           | None => false
                           end) row) g)
  = filter keep (gridCubes g).
Proof.
  unfold gridCubes. induction g as [| row rest IH]; [reflexivity |].
  cbn [flat_map List.concat].
  rewrite !filterNotNull_app, filter_app, filterNotNull_filter, IH. reflexivity.
Qed.

Lemma cellAt_firstn (g : Grid) (n : nat) (row col : Z) (q : Cube) :
  cellAt (firstn n g) row col = Some q ->
  row < Z.of_nat n /\ cellAt g row col = Some q.
Proof.
  intros Hcell. apply cellAt_Some in Hcell. destruct Hcell as (cells & Hrow & Hcol).
  destruct (nthZ_nth_error _ _ _ Hrow) as [Hnth Hpos].
  rewrite nth_error_firstn in Hnth.
  destruct (Nat.ltb_spec (Z.to_nat row) n) as [Hlt | Hge]; [| discriminate].
  split; [lia |]. apply cellAt_Some. exists cells. split; [| exact Hcol].
  unfold nthZ. destruct (Z.ltb_spec row 0); [lia | exact Hnth].
Qed.

Lemma cellAt_skipn (g : Grid) (n : nat) (row col : Z) (q : Cube) :
  cellAt (skipn n g) row col = Some q ->
  0 <= row /\ cellAt g (Z.of_nat n + row) col = Some q.
Proof.
  intros Hcell. apply cellAt_Some in Hcell. destruct Hcell as (cells & Hrow & Hcol).
  destruct (nthZ_nth_error _ _ _ Hrow) as [Hnth Hpos].
  rewrite nth_error_skipn in Hnth.
  split; [exact Hpos |]. apply cellAt_Some. exists cells. split; [| exact Hcol].
  unfold nthZ. destruct (Z.ltb_spec (Z.of_nat n + row) 0); [lia |].
  replace (Z.to_nat (Z.of_nat n + row)) with (n + Z.to_nat row)%nat by lia.
  exact Hnth.
Qed.

Section RemoveRows.

Variable g : Grid.
Variable rows : list Z.
Variable least : Z.

Hypothesis Hshape : hasGridShape g = true.
Hypothesis Hplace : InPlace g.
Hypothesis Hleast : mathMin rows = Some least.
Hypothesis Hrange : forall row, In row rows -> 0 <= row < GRID_RANGE.NUM_OF_ROWS.
Hypothesis Hnodup : NoDup rows.

Let count : Z := Z.of_nat (List.length rows).

(** The cubes above the first deleted row, and the cubes from it on. *)
Let above : list Cube := gridCubes (firstn (Z.to_nat least) g).
Let below : list Cube := gridCubes (skipn (Z.to_nat least) g).

Let kept (cube : Cube) : bool := negb (includes rows (grid_row cube)).

Lemma least_in_range : 0 <= least < GRID_RANGE.NUM_OF_ROWS.
Proof.
  apply Hrange. apply (mathMin_spec rows least Hleast).
Qed.

Lemma count_bounds : 1 <= count <= GRID_RANGE.NUM_OF_ROWS - least.
Proof.
  destruct (mathMin_spec rows least Hleast) as [Hin Hle].
  pose proof least_in_range as Hl.
  split.
  - subst count. destruct rows; [contradiction | cbn [List.length]; lia].
  - apply NoDup_range_length; [lia | exact Hnodup |].
    intros row Hrow. specialize (Hle row Hrow). specialize (Hrange row Hrow). lia.
Qed.

Lemma cubes_split : gridCubes g = above ++ below.
Proof.
  subst above below. rewrite <- gridCubes_app, firstn_skipn. reflexivity.
Qed.

Lemma above_rows (q : Cube) : In q above -> grid_row q < least.
Proof.
  pose proof least_in_range as Hl.
  intros Hq. apply gridCubes_In in Hq. destruct Hq as (row & col & Hcell).
  apply cellAt_firstn in Hcell. destruct Hcell as [Hlt Hcell].
  destruct (Hplace row col q Hcell) as [Hrow _]. lia.
Qed.

Lemma below_rows (q : Cube) : In q below -> least <= grid_row q.
Proof.
  pose proof least_in_range as Hl.
  intros Hq. apply gridCubes_In in Hq. destruct Hq as (row & col & Hcell).
  apply cellAt_skipn in Hcell. destruct Hcell as [Hpos Hcell].
  destruct (Hplace _ col q Hcell) as [Hrow _]. lia.
Qed.

Lemma above_kept (q : Cube) : In q above -> kept q = true.
Proof.
  intros Hq. apply above_rows in Hq. subst kept. cbv beta.
  apply negb_true_iff. destruct (includes rows (grid_row q)) eqn:Hinc; [| reflexivity].
  apply includes_In in Hinc.
  destruct (mathMin_spec rows least Hleast) as [_ Hle]. specialize (Hle _ Hinc). lia.
Qed.

(** The list [leftOverCubes] of the source: the shifted cubes of the rows
    above come first. *)
Lemma removeRowsAndShiftDown_cells :
  removeRowsAndShiftDown g rows
  = generate2DArray (fun rowIndex colIndex =>
      find (cubeAt rowIndex colIndex)
        (map (moveCube count) above ++ filter kept below)).
Proof.
  unfold removeRowsAndShiftDown. cbv zeta.
  pose proof (kept_cubes_of_grid kept g) as Hkept. unfold kept in Hkept.
  rewrite Hkept. fold kept. clear Hkept.
  rewrite cubes_split, filter_app, map_app.
  rewrite (filter_all kept above above_kept).
  rewrite Hleast.
  replace (map _ above) with (map (moveCube count) above).
  - replace (map _ (filter kept below)) with (filter kept below); [reflexivity |].
    symmetry. apply map_fixed. intros q Hq.
    apply filter_In in Hq. destruct Hq as [Hq _]. apply below_rows in Hq.
    cbn [ltMin]. destruct (Z.ltb_spec (grid_row q) least); [lia | reflexivity].
  - apply map_ext_in. intros q Hq. apply above_rows in Hq.
    cbn [ltMin]. destruct (Z.ltb_spec (grid_row q) least); [reflexivity | lia].
Qed.

Lemma cell_of_found (cubes : list Cube) (row col : Z) (q : Cube) :
  incl cubes (gridCubes g) ->
  find (cubeAt row col) cubes = Some q ->
  In q cubes /\ cellAt g row col = Some q.
Proof.
  intros Hincl Hfind. apply find_some in Hfind. destruct Hfind as [Hin Hat].
  split; [exact Hin |].
  apply cubeAt_true in Hat. destruct Hat as [Hrow Hcol].
  apply Hincl in Hin. apply gridCubes_In in Hin. destruct Hin as (row' & col' & Hcell).
  destruct (Hplace _ _ _ Hcell) as [Hrow' Hcol']. congruence.
Qed.

Lemma found_of_cell (cubes : list Cube) (row col : Z) (q : Cube) :
  incl cubes (gridCubes g) ->
  In q cubes ->
  cellAt g row col = Some q ->
  find (cubeAt row col) cubes = Some q.
Proof.
  intros Hincl Hin Hcell.
  destruct (Hplace _ _ _ Hcell) as [Hrow Hcol].
  destruct (find (cubeAt row col) cubes) as [q' |] eqn:Hfind.
  - destruct (cell_of_found cubes row col q' Hincl Hfind) as [_ Hcell']. congruence.
  - apply (find_none _ _ Hfind) in Hin.
    assert (Hat : cubeAt row col q = true) by (apply cubeAt_true; now split).
    congruence.
Qed.

Lemma above_incl : incl above (gridCubes g).
Proof.
  rewrite cubes_split. apply incl_appl, incl_refl.
Qed.

Lemma kept_below_incl : incl (filter kept below) (gridCubes g).
Proof.
  rewrite cubes_split. apply incl_appr. intros q Hq.
  apply filter_In in Hq. tauto.
Qed.

Lemma cell_above (row col : Z) (q : Cube) :
  cellAt g row col = Some q -> row < least -> In q above.
Proof.
  intros Hcell Hrow.
  assert (Hin : In q (gridCubes g)) by (apply gridCubes_In; now exists row, col).
  rewrite cubes_split in Hin. apply in_app_or in Hin. destruct Hin as [Hin | Hin]; [exact Hin |].
  apply below_rows in Hin. destruct (Hplace _ _ _ Hcell) as [Hr _]. lia.
Qed.

Lemma cell_below (row col : Z) (q : Cube) :
  cellAt g row col = Some q -> least <= row -> In q below.
Proof.
  intros Hcell Hrow.
  assert (Hin : In q (gridCubes g)) by (apply gridCubes_In; now exists row, col).
  rewrite cubes_split in Hin. apply in_app_or in Hin. destruct Hin as [Hin | Hin]; [| exact Hin].
  apply above_rows in Hin. destruct (Hplace _ _ _ Hcell) as [Hr _]. lia.
Qed.

(** The content of every cell of the rebuilt grid. *)
Lemma rebuilt_cell (row col : Z) :
  0 <= row < GRID_RANGE.NUM_OF_ROWS ->
  0 <= col < GRID_RANGE.NUM_OF_COLUMNS ->
  cellAt (removeRowsAndShiftDown g rows) row col
  = match find (cubeAt (row - count) col) above with
    | Some q => Some (moveCube count q)
    | None => find (cubeAt row col) (filter kept below)
    end.
Proof.
  intros Hrow Hcol.
  rewrite removeRowsAndShiftDown_cells, cellAt_generate2DArray by assumption.
  rewrite find_app_first, find_cubeAt_moved.
  destruct (find (cubeAt (row - count) col) above); reflexivity.
Qed.

Lemma rebuilt_from_survivors (row col : Z) (q : Cube) :
  cellAt (removeRowsAndShiftDown g rows) row col = Some q ->
  (exists q0, cellAt g (row - count) col = Some q0
              /\ row - count < least /\ q = moveCube count q0)
  \/ (cellAt g row col = Some q /\ least <= row /\ ~ In row rows).
Proof.
  intros Hcell.
  destruct (cellAt_Some_range _ _ _ _ (generate2DArray_shape _) Hcell) as [Hrow Hcol].
  rewrite rebuilt_cell in Hcell by assumption.
  destruct (find (cubeAt (row - count) col) above) as [q0 |] eqn:Hfind.
  - left. injection Hcell as Hq. exists q0.
    destruct (cell_of_found _ _ _ _ above_incl Hfind) as [Hin Hcell0].
    split; [exact Hcell0 |]. split; [| now symmetry].
    apply above_rows in Hin. destruct (Hplace _ _ _ Hcell0) as [Hr _]. lia.
  - right.
    destruct (cell_of_found _ _ _ _ kept_below_incl Hcell) as [Hin Hcell0].
    split; [exact Hcell0 |].
    apply filter_In in Hin. destruct Hin as [Hbelow Hkept].
    destruct (Hplace _ _ _ Hcell0) as [Hr _].
    apply below_rows in Hbelow. split; [lia |].
    subst kept. cbv beta in Hkept. apply negb_true_iff in Hkept.
    intros Hin. apply includes_In in Hin. congruence.
Qed.

Lemma shifted_cube_appears (row col : Z) (q : Cube) :
  cellAt g row col = Some q ->
  row < least ->
  cellAt (removeRowsAndShiftDown g rows) (row + count) col = Some (moveCube count q).
Proof.
  intros Hcell Hrow.
  destruct (cellAt_Some_range _ _ _ _ Hshape Hcell) as [Hr Hc].
  pose proof count_bounds as Hcount.
  rewrite rebuilt_cell by (try assumption; lia).
  replace (row + count - count) with row by lia.
  rewrite (found_of_cell above row col q above_incl (cell_above _ _ _ Hcell Hrow) Hcell).
  reflexivity.
Qed.

Lemma unshifted_cube_stays (row col : Z) (q : Cube) :
  cellAt g row col = Some q ->
  least <= row ->
  ~ In row rows ->
  cellAt g (row - count) col = None \/ least <= row - count ->
  cellAt (removeRowsAndShiftDown g rows) row col = Some q.
Proof.
  intros Hcell Hrow Hnotin Hfree.
  destruct (cellAt_Some_range _ _ _ _ Hshape Hcell) as [Hr Hc].
  rewrite rebuilt_cell by assumption.
  destruct (find (cubeAt (row - count) col) above) as [q0 |] eqn:Hfind.
  - exfalso.
    destruct (cell_of_found _ _ _ _ above_incl Hfind) as [Hin Hcell0].
    apply above_rows in Hin. destruct (Hplace _ _ _ Hcell0) as [Hr0 _].
    destruct Hfree as [Hnone | Hge]; [congruence | lia].
  - apply found_of_cell; [exact kept_below_incl | | exact Hcell].
    apply filter_In. split; [eapply cell_below; eassumption |].
    destruct (Hplace _ _ _ Hcell) as [Hrq _].
    subst kept. cbv beta. apply negb_true_iff.
    destruct (includes rows (grid_row q)) eqn:Hinc; [| reflexivity].
    apply includes_In in Hinc. rewrite Hrq in Hinc. contradiction.
Qed.

End RemoveRows.

(** C6, as stated, fails when the deleted rows are not consecutive.  In
    [gappedGrid] rows 17 and 19 are deleted; the cube at (18, 0) survives,
    lies below the first deleted row and should keep its place, and the cube
    at (16, 0) moves down two rows onto the same cell.  The rebuilt grid
    holds the cube from row 16 there and the cube of row 18 nowhere. *)
Lemma gap_between_deleted_rows_loses_a_cube :
  hasGridShape gappedGrid = true
  /\ cubesInPlace gappedGrid = true
  /\ mathMin [17; 19] = Some 17
  /\ cellAt gappedGrid 18 0 = Some (createCube 18 0 18 false)
  /\ cellAt gappedGrid 16 0 = Some (createCube 16 0 16 false)
  /\ map (fun q => (idCount (id q), position q))
       (gridCubes (removeRowsAndShiftDown gappedGrid [17; 19]))
     = [(16, (18, 0))].
Proof.
  repeat split; vm_compute; reflexivity.
Qed.

(** C6, amended: for a grid of the fixed dimensions whose cubes record the
    cell that holds them, and a non-empty duplicate-free list [rows] of rows
    of the grid with minimum [least], [removeRowsAndShiftDown] returns a
    full rowCount x columnCount grid in which
    - every cube comes from a surviving cube: it is a cube of a row above
      [least] moved down by [|rows|], or a cube of a row that is not deleted
      and not above [least], at its own cell (so no cube of a deleted row
      is left);
    - every cube of a row above [least] is in the cell [|rows|] rows further
      down, with its row and pixel y recomputed and its column and pixel x
      unchanged;
    - every other surviving cube is in its original cell, unchanged,
      provided no shifted cube lands on that cell, which cannot happen when
      the deleted rows are consecutive (then [least <= row - |rows|]). *)
Theorem removeRowsAndShiftDown_rebuilds (g : Grid) (rows : list Z) (least : Z) :
  hasGridShape g = true ->
  cubesInPlace g = true ->
  NoDup rows ->
  (forall row, In row rows -> 0 <= row < GRID_RANGE.NUM_OF_ROWS) ->
  mathMin rows = Some least ->
  let count := Z.of_nat (List.length rows) in
  let rebuilt := removeRowsAndShiftDown g rows in
  hasGridShape rebuilt = true
  /\ (forall row col q,
        cellAt rebuilt row col = Some q ->
        (exists q0, cellAt g (row - count) col = Some q0
                    /\ row - count < least /\ q = moveCube count q0)
        \/ (cellAt g row col = Some q /\ least <= row /\ ~ In row rows))
  /\ (forall row col q,
        cellAt g row col = Some q ->
        row < least ->
        cellAt rebuilt (row + count) col = Some (moveCube count q)
        /\ position (moveCube count q) = (row + count, col)
        /\ y (moveCube count q) = calculateYcoord (row + count)
        /\ x (moveCube count q) = x q)
  /\ (forall row col q,
        cellAt g row col = Some q ->
        least <= row ->
        ~ In row rows ->
        cellAt g (row - count) col = None \/ least <= row - count ->
        cellAt rebuilt row col = Some q).
Proof.
  intros Hshape Hplace Hnodup Hrange Hleast count rebuilt.
  apply cubesInPlace_spec in Hplace.
  split; [apply generate2DArray_shape |].
  split; [| split].
  - intros row col q Hcell.
    exact (rebuilt_from_survivors g rows least Hshape Hplace Hleast Hrange row col q Hcell).
  - intros row col q Hcell Hrow.
    split.
    + exact (shifted_cube_appears g rows least Hshape Hplace Hleast Hrange Hnodup
               row col q Hcell Hrow).
    + destruct (Hplace row col q Hcell) as [Hr Hc].
      unfold position, moveCube. cbn [grid_row grid_col y x].
      rewrite Hr, Hc. repeat split; reflexivity.
  - intros row col q Hcell Hrow Hnotin Hfree.
    exact (unshifted_cube_stays g rows least Hshape Hplace Hleast Hrange
             row col q Hcell Hrow Hnotin Hfree).
Qed.

Lemma removeRowsAndShiftDown_rebuilds_witness :
  cellAt (removeRowsAndShiftDown gappedGrid [19]) 19 0
  = Some (moveCube 1 (createCube 18 0 18 false)).
Proof.
  assert (Hshape : hasGridShape gappedGrid = true) by (vm_compute; reflexivity).
  assert (Hplace : cubesInPlace gappedGrid = true) by (vm_compute; reflexivity).
  assert (Hnodup : NoDup [19]).
  { constructor; [intros [] | constructor]. }
  assert (Hrange : forall row, In row [19] -> 0 <= row < GRID_RANGE.NUM_OF_ROWS).
  { intros row [Hrow | []]. subst row. vm_compute. split; [discriminate | reflexivity]. }
  assert (Hleast : mathMin [19] = Some 19) by reflexivity.
  destruct (removeRowsAndShiftDown_rebuilds gappedGrid [19] 19
              Hshape Hplace Hnodup Hrange Hleast) as (_ & _ & Hshift & _).
  assert (Hcell : cellAt gappedGrid 18 0 = Some (createCube 18 0 18 false))
    by (vm_compute; reflexivity).
  assert (Hrow : 18 < 19) by lia.
  exact (proj1 (Hshift 18 0 (createCube 18 0 18 false) Hcell Hrow)).
Defined.

(** ** Drop (C4) *)

Lemma filterM_kept_none {A : Type} (p : A -> result bool) (a kept : list A) :
  filterM p a = Ok kept -> kept = [] -> forall v, In v a -> p v = Ok false.
Proof.
  revert kept. induction a as [| w rest IH]; intros kept H Hnil v Hv; [contradiction |].
  cbn [filterM] in H. step_bind H. step_bind H.
  injection H as H. subst kept.
  destruct a; [discriminate |].
  destruct Hv as [Hv | Hv]; [subst w; exact E | eapply IH; eauto].
Qed.

Lemma checkBlockCollision_false (conditions : list (Cube -> result bool)) (block : Block) :
  checkBlockCollision conditions block = Ok false ->
  forall cube, In cube block -> checkCollisions conditions cube = Ok false.
Proof.
  unfold checkBlockCollision. intros H. step_bind H. injection H as H.
  eapply filterM_kept_none; [exact E |].
  destruct a; [reflexivity | discriminate].
Qed.

Lemma fallConditions_false (g : Grid) (cube : Cube) :
  checkCollisions [total checkCubeRowExceedsBoundaries; cantMoveDown g] cube = Ok false ->
  0 <= grid_row cube < GRID_RANGE.NUM_OF_ROWS - 1.
Proof.
  cbn [checkCollisions total bind].
  destruct (checkCubeRowExceedsBoundaries cube) eqn:Hexceeds; [discriminate |].
  intros _. unfold checkCubeRowExceedsBoundaries in Hexceeds.
  apply orb_false_iff in Hexceeds. destruct Hexceeds as [Hhi Hlo].
  rewrite Z.geb_leb in Hhi. apply Z.leb_gt in Hhi. apply Z.ltb_ge in Hlo. lia.
Qed.

Lemma not_Ok (f : Block -> result bool) (block : Block) (b : bool) :
  not f block = Ok b -> f block = Ok (negb b).
Proof.
  unfold not. destruct (f block) as [b' | |]; cbn [bind]; try discriminate.
  intros H. injection H as H. subst b. now rewrite negb_involutive.
Qed.

(** With [n + 1] units of fuel [Drop.apply] returns when the first cube of
    the block is at most [n] rows above row 18. *)
Lemma Drop_returns_within (n : nat) (s : State) (cube : Cube) (rest : Block) :
  activeBlock s = cube :: rest ->
  Z.of_nat (List.length (grid s)) = GRID_RANGE.NUM_OF_ROWS ->
  GRID_RANGE.NUM_OF_ROWS - 2 - grid_row cube <= Z.of_nat n ->
  exists s', Drop.apply (S n) s = Ok s'.
Proof.
  revert s cube rest. induction n as [| n IH]; intros s cube rest Hblock Hlen Hrow.
  - cbn [Drop.apply]. unfold not.
    destruct (fallCollision_total (grid s)
                (activeBlock (withActiveBlock s (map (moveCube 1) (activeBlock s)))) Hlen)
      as [b Hb].
    rewrite Hb. cbn [bind].
    destruct b; cbn [negb]; [now exists s |].
    exfalso.
    assert (Hcube : 0 <= grid_row (moveCube 1 cube) < GRID_RANGE.NUM_OF_ROWS - 1).
    { apply (fallConditions_false (grid s)).
      apply (checkBlockCollision_false _ _ Hb).
      rewrite withActiveBlock_activeBlock, Hblock. now left. }
    cbn [moveCube grid_row] in Hcube. change GRID_RANGE.NUM_OF_ROWS with 20 in *. lia.
  - cbn [Drop.apply]. unfold not.
    destruct (fallCollision_total (grid s)
                (activeBlock (withActiveBlock s (map (moveCube 1) (activeBlock s)))) Hlen)
      as [b Hb].
    rewrite Hb. cbn [bind].
    destruct b; cbn [negb]; [now exists s |].
    apply (IH _ (moveCube 1 cube) (map (moveCube 1) rest)).
    + rewrite withActiveBlock_activeBlock, Hblock. reflexivity.
    + exact Hlen.
    + cbn [moveCube grid_row]. lia.
Qed.

(** [Drop.apply] terminates: for a non-empty active block whose first cube
    is in a row [>= 0], on a grid of 20 rows, 19 calls suffice. *)
Lemma Drop_terminates (s : State) (cube : Cube) (rest : Block) :
  activeBlock s = cube :: rest ->
  Z.of_nat (List.length (grid s)) = GRID_RANGE.NUM_OF_ROWS ->
  0 <= grid_row cube ->
  exists s', Drop.apply 19 s = Ok s'.
Proof.
  intros Hblock Hlen Hrow.
  apply (Drop_returns_within 18 s cube rest Hblock Hlen).
  change GRID_RANGE.NUM_OF_ROWS with 20. lia.
Qed.

(** What the loop of [Drop.apply] ensures about its result: the grid is the
    same, and the block moved down once more trips one of the two conditions
    (a cube would be in row 19 or beyond, or would have an occupied cell
    below it). *)
Lemma Drop_result_blocked (fuel : nat) (s s' : State) :
  Drop.apply fuel s = Ok s' ->
  grid s' = grid s
  /\ checkBlockCollision
       [total checkCubeRowExceedsBoundaries; cantMoveDown (grid s')]
       (map (moveCube 1) (activeBlock s'))
     = Ok true.
Proof.
  revert s. induction fuel as [| fuel IH]; intros s H; [discriminate |].
  cbn [Drop.apply] in H. step_bind H. apply not_Ok in E.
  destruct a; cbn [negb] in E.
  - apply IH in H. exact H.
  - injection H as H. subst s'. split; [reflexivity |].
    rewrite withActiveBlock_activeBlock in E. exact E.
Qed.

(** C4 fails on the program.  After the first block ("O") has locked in
    rows 18-19 of columns 4-5, [Drop] leaves the "T" block with its lowest
    cubes in row 16: the cells (17, 4), (17, 5) and (17, 6) below them are
    empty, and the next Tick moves the block one row further down without
    locking it. *)
Theorem Drop_stops_one_row_short :
  runActions 20 initialState firstLock = Ok (stateAfter firstLock)
  /\ map position (activeBlock (stateAfter firstLock)) = [(0, 5); (1, 4); (1, 5); (1, 6)]
  /\ exists dropped,
       reduceState 20 (stateAfter firstLock) Drop = Ok dropped
       /\ map position (activeBlock dropped) = [(15, 5); (16, 4); (16, 5); (16, 6)]
       /\ map position (gridCubes (grid dropped)) = [(18, 4); (18, 5); (19, 4); (19, 5)]
       /\ exists next,
            reduceState 20 dropped (Tick 1900) = Ok next
            /\ map position (activeBlock next) = [(16, 5); (17, 4); (17, 5); (17, 6)]
            /\ grid next = grid dropped.
Proof.
  split; [vm_compute; reflexivity |].
  split; [vm_compute; reflexivity |].
  exists (withActiveBlock (stateAfter firstLock)
            (map (moveCube 15) (activeBlock (stateAfter firstLock)))).
  split; [vm_compute; reflexivity |].
  split; [vm_compute; reflexivity |].
  split; [vm_compute; reflexivity |].
  exists (withActiveBlock (stateAfter firstLock)
            (map (moveCube 16) (activeBlock (stateAfter firstLock)))).
  split; [vm_compute; reflexivity |].
  split; vm_compute; reflexivity.
Qed.

(** The same loop lets a block through a placed cube.  In the game
    [overhang] the "L" block rests with its cube (16, 6) on the placed cube
    (17, 6), under which (18, 6) is empty; [Drop] takes the block two rows
    down, across the occupied cell. *)
Lemma Drop_passes_through_a_placed_cube :
  runActions 20 initialState overhang = Ok (stateAfter overhang)
  /\ map position (activeBlock (stateAfter overhang)) = [(15, 8); (16, 6); (16, 7); (16, 8)]
  /\ isNotNullOrUndefined (cellAt (grid (stateAfter overhang)) 17 6) = true
  /\ exists dropped,
       reduceState 20 (stateAfter overhang) Drop = Ok dropped
       /\ grid dropped = grid (stateAfter overhang)
       /\ map position (activeBlock dropped) = [(17, 8); (18, 6); (18, 7); (18, 8)].
Proof.
  split; [vm_compute; reflexivity |].
  split; [vm_compute; reflexivity |].
  split; [vm_compute; reflexivity |].
  exists (withActiveBlock (stateAfter overhang)
            (map (moveCube 2) (activeBlock (stateAfter overhang)))).
  split; [vm_compute; reflexivity |].
  split; vm_compute; reflexivity.
Qed.

(** ** The active block stays inside the grid; grid accesses (C10) *)

Lemma inGrid_iff (cube : Cube) :
  inGrid cube = true
  <-> (0 <= grid_row cube <= GRID_RANGE.NUM_OF_ROWS - 1)
      /\ (0 <= grid_col cube <= GRID_RANGE.NUM_OF_COLUMNS - 1).
Proof.
  unfold inGrid. rewrite !andb_true_iff, !Z.leb_le. tauto.
Qed.

Lemma spawned_block_inGrid (tetriminoType : string) (cubeCount : Z) (block : Block) :
  createBlock tetriminoType cubeCount = Ok block -> forallb inGrid block = true.
Proof.
  intros Hblock. apply createBlock_spawn_area in Hblock. destruct Hblock as [Harea _].
  rewrite forallb_forall in *. intros cube Hcube. specialize (Harea cube Hcube).
  unfold inSpawnArea in Harea. rewrite !andb_true_iff, !Z.leb_le in Harea.
  apply inGrid_iff. change GRID_RANGE.NUM_OF_ROWS with 20.
  change GRID_RANGE.NUM_OF_COLUMNS with 10. lia.
Qed.

Lemma fallen_block_inGrid (g : Grid) (block : Block) :
  forallb inGrid block = true ->
  checkBlockCollision [total checkCubeRowExceedsBoundaries; cantMoveDown g] block = Ok false ->
  forallb inGrid (map (moveCube 1) block) = true.
Proof.
  intros Hin Hfree. rewrite forallb_forall in *. intros moved Hmoved.
  apply in_map_iff in Hmoved. destruct Hmoved as (cube & Hmoved & Hcube). subst moved.
  pose proof (fallConditions_false g cube (checkBlockCollision_false _ _ Hfree cube Hcube))
    as Hrow.
  specialize (Hin cube Hcube). apply inGrid_iff in Hin. apply inGrid_iff.
  cbn [moveCube grid_row grid_col]. lia.
Qed.

Lemma handleBlockClear_activeBlock (state : State) (rows : list Z) :
  activeBlock (Tick.handleBlockClear state rows) = activeBlock state.
Proof.
  reflexivity.
Qed.

Lemma Tick_keeps_inGrid (elapsed : Z) (s s' : State) :
  forallb inGrid (activeBlock s) = true ->
  Tick.apply elapsed s = Ok s' ->
  forallb inGrid (activeBlock s') = true.
Proof.
  intros Hin H. unfold Tick.apply in H. step_bind H.
  destruct (gameEnd s); [injection H as H; subst s'; exact Hin |].
  destruct a.
  - unfold Tick.handleCollisions in H. step_bind H. step_bind H. step_bind H.
    apply spawned_block_inGrid in E0.
    destruct (Z.of_nat (List.length a1) >? 0); step_bind H; injection H as H; subst s';
      rewrite ?handleBlockClear_activeBlock; cbn [activeBlock];
      destruct (negb a0); assumption.
  - step_bind H. injection H as H. subst s'. cbn [activeBlock].
    eapply fallen_block_inGrid; eassumption.
Qed.

Lemma Move_keeps_inGrid (direction : Z) (s s' : State) :
  direction = 1 \/ direction = -1 ->
  forallb inGrid (activeBlock s) = true ->
  Move.apply direction s = Ok s' ->
  forallb inGrid (activeBlock s') = true.
Proof.
  intros Hdir Hin H. unfold Move.apply in H. step_bind H.
  injection H as H. subst s'. rewrite withActiveBlock_activeBlock.
  destruct a; [exact Hin |].
  rewrite forallb_forall in *. intros moved Hmoved.
  apply in_map_iff in Hmoved. destruct Hmoved as (cube & Hmoved & Hcube). subst moved.
  pose proof (checkBlockCollision_false _ _ E cube Hcube) as Hfree.
  specialize (Hin cube Hcube). apply inGrid_iff in Hin. apply inGrid_iff.
  cbn [checkCollisions] in Hfree.
  unfold Move.updateCubeX. cbn [grid_row grid_col].
  destruct Hdir as [Hdir | Hdir]; subst direction; cbn [Z.gtb Z.compare] in Hfree.
  - unfold cantMoveRight in Hfree.
    destruct (Z.geb_spec (grid_col cube) (GRID_RANGE.NUM_OF_COLUMNS - 1)) as [Hge | Hlt];
      [discriminate Hfree | lia].
  - unfold cantMoveLeft in Hfree.
    destruct (Z.leb_spec (grid_col cube) 0) as [Hle | Hgt];
      [discriminate Hfree | lia].
Qed.

Lemma rotation_check_false (g : Grid) (cube : Cube) :
  checkCollisions
    [checkCurrentCell g; total checkCubeRowExceedsBoundaries;
     total checkCubeColExceedsBoundaries] cube = Ok false ->
  inGrid cube = true.
Proof.
  cbn [checkCollisions]. unfold total. intros H. step_bind H.
  destruct a; [discriminate H |]. cbn [bind] in H.
  destruct (checkCubeRowExceedsBoundaries cube) eqn:Hrow;
    cbn [bind] in H; [discriminate H |].
  destruct (checkCubeColExceedsBoundaries cube) eqn:Hcol;
    cbn [bind] in H; [discriminate H |].
  unfold checkCubeRowExceedsBoundaries in Hrow. unfold checkCubeColExceedsBoundaries in Hcol.
  apply orb_false_iff in Hrow. apply orb_false_iff in Hcol.
  destruct Hrow as [Hr1 Hr2]. destruct Hcol as [Hc1 Hc2].
  rewrite Z.geb_leb in Hr1. apply Z.leb_gt in Hr1. apply Z.ltb_ge in Hr2.
  apply Z.ltb_ge in Hc1. rewrite Z.gtb_ltb in Hc2. apply Z.ltb_ge in Hc2.
  apply inGrid_iff. lia.
Qed.

Lemma Rotate_keeps_inGrid (direction : Direction) (s s' : State) :
  forallb inGrid (activeBlock s) = true ->
  Rotate.apply direction s = Ok s' ->
  forallb inGrid (activeBlock s') = true.
Proof.
  intros Hin H. unfold Rotate.apply in H.
  destruct (find _ (activeBlock s)) as [pivot |];
    [| injection H as H; subst s'; exact Hin].
  step_bind H. injection H as H. subst s'. rewrite withActiveBlock_activeBlock.
  destruct a; [| exact Hin].
  unfold Rotate.canRotate in E. apply not_Ok in E. cbn [negb] in E.
  rewrite forallb_forall. intros cube Hcube.
  apply (rotation_check_false (grid s)).
  exact (checkBlockCollision_false _ _ E cube Hcube).
Qed.

Lemma dropped_block_inGrid (g : Grid) (block : Block) :
  forallb inGrid block = true ->
  checkBlockCollision [total checkCubeRowExceedsBoundaries; cantMoveDown g]
    (map (moveCube 1) block) = Ok false ->
  forallb inGrid (map (moveCube 1) block) = true.
Proof.
  intros Hin Hfree. rewrite forallb_forall in *. intros moved Hmoved.
  pose proof (fallConditions_false g moved (checkBlockCollision_false _ _ Hfree moved Hmoved))
    as Hrow.
  apply in_map_iff in Hmoved. destruct Hmoved as (cube & Hmoved & Hcube). subst moved.
  specialize (Hin cube Hcube). apply inGrid_iff in Hin. apply inGrid_iff.
  cbn [moveCube grid_row grid_col] in *. lia.
Qed.

Lemma Drop_keeps_inGrid (fuel : nat) (s s' : State) :
  forallb inGrid (activeBlock s) = true ->
  Drop.apply fuel s = Ok s' ->
  forallb inGrid (activeBlock s') = true.
Proof.
  revert s. induction fuel as [| fuel IH]; intros s Hin H; [discriminate |].
  cbn [Drop.apply] in H. step_bind H. apply not_Ok in E.
  destruct a; cbn [negb] in E.
  - apply IH in H; [exact H |].
    rewrite withActiveBlock_activeBlock in *.
    eapply dropped_block_inGrid; eassumption.
  - injection H as H. subst s'. exact Hin.
Qed.

Lemma Restart_keeps_inGrid (s s' : State) :
  forallb inGrid (activeBlock s) = true ->
  Restart.apply s = Ok s' ->
  forallb inGrid (activeBlock s') = true.
Proof.
  intros Hin H. unfold Restart.apply in H.
  destruct (gameEnd s); [| injection H as H; subst s'; exact Hin].
  step_bind H. injection H as H. subst s'. cbn [activeBlock].
  eapply spawned_block_inGrid; eassumption.
Qed.

Lemma step_keeps_inGrid (fuel : nat) (s s' : State) (a : Action) :
  emitted a = true ->
  forallb inGrid (activeBlock s) = true ->
  reduceState fuel s a = Ok s' ->
  forallb inGrid (activeBlock s') = true.
Proof.
  intros Hemitted Hin H. unfold reduceState in H.
  destruct a as [index | elapsed | direction | | direction |]; cbn [negb orb applyAction] in H.
  - injection H as H. subst s'. exact Hin.
  - destruct (Z.rem _ _ =? 0).
    + eapply Tick_keeps_inGrid; eassumption.
    + injection H as H. subst s'. exact Hin.
  - cbn [emitted] in Hemitted. apply orb_true_iff in Hemitted.
    rewrite !Z.eqb_eq in Hemitted.
    eapply Move_keeps_inGrid; eassumption.
  - eapply Restart_keeps_inGrid; eassumption.
  - eapply Rotate_keeps_inGrid; eassumption.
  - eapply Drop_keeps_inGrid; eassumption.
Qed.

(** ** The invariant of the reachable states *)

Lemma nthZ_mapi_eq {A B : Type} (f : A -> Z -> B) (a : list A) (i : Z) :
  nthZ (mapi f a) i = option_map (fun v => f v i) (nthZ a i).
Proof.
  destruct (nthZ a i) as [v |] eqn:Hnth.
  - apply nthZ_mapi. exact Hnth.
  - cbn [option_map]. unfold nthZ, mapi in *.
    destruct (Z.ltb_spec i 0) as [Hneg | Hpos]; [reflexivity |].
    rewrite nth_error_mapi_from, Hnth. reflexivity.
Qed.

Lemma cellAt_setBlockInArray (g : Grid) (block : Block) (row col : Z) (q : Cube) :
  cellAt (setBlockInArray g block) row col = Some q ->
  (In q block /\ isCubeHere row col q = true) \/ cellAt g row col = Some q.
Proof.
  unfold cellAt, setBlockInArray. rewrite nthZ_mapi_eq.
  destruct (nthZ g row) as [cells |]; cbn [option_map]; [| discriminate].
  rewrite nthZ_mapi_eq.
  destruct (nthZ cells col) as [cell |]; cbn [option_map]; [| discriminate].
  destruct (find (isCubeHere row col) block) as [found |] eqn:Hfind.
  - intros H. injection H as H. subst found. left. apply (find_some _ _ Hfind).
  - intros H. right. exact H.
Qed.

Lemma hasGridShape_intro (g : Grid) :
  Z.of_nat (List.length g) = GRID_RANGE.NUM_OF_ROWS ->
  (forall cells, In cells g -> Z.of_nat (List.length cells) = GRID_RANGE.NUM_OF_COLUMNS) ->
  hasGridShape g = true.
Proof.
  intros Hrows Hcols. unfold hasGridShape. apply andb_true_iff. split.
  - apply Z.eqb_eq. exact Hrows.
  - apply forallb_forall. intros cells Hcells. apply Z.eqb_eq. apply Hcols. exact Hcells.
Qed.

Lemma setBlockInArray_shape (g : Grid) (block : Block) :
  hasGridShape g = true -> hasGridShape (setBlockInArray g block) = true.
Proof.
  intros Hshape. apply hasGridShape_spec in Hshape. destruct Hshape as [Hrows Hcols].
  apply hasGridShape_intro.
  - rewrite setBlockInArray_length. exact Hrows.
  - intros cells Hcells. unfold setBlockInArray, mapi in Hcells.
    apply mapi_from_In in Hcells. destruct Hcells as (old & rowIndex & Hold & Hcells).
    subst cells. unfold mapi. rewrite mapi_from_length. apply Hcols. exact Hold.
Qed.

Lemma setBlockInArray_InPlace (g : Grid) (block : Block) :
  InPlace g -> InPlace (setBlockInArray g block).
Proof.
  intros Hplace row col q Hcell.
  apply cellAt_setBlockInArray in Hcell. destruct Hcell as [[_ Hhere] | Hcell].
  - unfold isCubeHere in Hhere. apply andb_true_iff in Hhere.
    rewrite !Z.eqb_eq in Hhere. exact Hhere.
  - apply Hplace. exact Hcell.
Qed.

Lemma generate2DArray_InPlace (cubes : list Cube) :
  InPlace (generate2DArray (fun rowIndex colIndex =>
             find (fun cube => (grid_row cube =? rowIndex) && (colIndex =? grid_col cube))
               cubes)).
Proof.
  intros row col q Hcell.
  destruct (cellAt_Some_range _ _ _ _ (generate2DArray_shape _) Hcell) as [Hrow Hcol].
  rewrite cellAt_generate2DArray in Hcell by assumption.
  apply find_some in Hcell. destruct Hcell as [_ Hat].
  apply andb_true_iff in Hat. rewrite !Z.eqb_eq in Hat.
  destruct Hat as [Hr Hc]. split; congruence.
Qed.

Lemma removeRowsAndShiftDown_InPlace (g : Grid) (rows : list Z) :
  InPlace (removeRowsAndShiftDown g rows).
Proof.
  unfold removeRowsAndShiftDown. cbv zeta. apply generate2DArray_InPlace.
Qed.

Lemma emptyGrid_InPlace : InPlace (generate2DArray (fun _ _ => None)).
Proof.
  intros row col q Hcell.
  destruct (cellAt_Some_range _ _ _ _ (generate2DArray_shape _) Hcell) as [Hrow Hcol].
  rewrite cellAt_generate2DArray in Hcell by assumption. discriminate Hcell.
Qed.

Lemma staged_type_known (index : Z) :
  In (if GenerateBlock.checkIndex index
      then GenerateBlock.typeAt index
      else GenerateBlock.typeAt Tetrimino.DEFAULT_CHOICE)
     Tetrimino.TETRIMINO_TYPES.
Proof.
  destruct (GenerateBlock.checkIndex index) eqn:Hcheck.
  - unfold GenerateBlock.checkIndex in Hcheck. apply andb_true_iff in Hcheck.
    destruct Hcheck as [Hlo Hhi]. apply Z.geb_le in Hlo. apply Z.ltb_lt in Hhi.
    unfold GenerateBlock.typeAt.
    destruct (nthZ_in_range Tetrimino.TETRIMINO_TYPES index) as [t Ht]; [lia |].
    rewrite Ht. eapply nthZ_In. exact Ht.
  - vm_compute. tauto.
Qed.

Lemma steering_keeps_length (fuel : nat) (a : Action) (s s' : State) :
  steersBlock a = true ->
  reduceState fuel s a = Ok s' ->
  List.length (activeBlock s') = List.length (activeBlock s).
Proof.
  destruct a as [index | elapsed | direction | | direction |]; try discriminate;
    intros _ H; unfold reduceState in H; cbn [negb orb applyAction] in H.
  - unfold Move.apply in H. step_bind H. injection H as H. subst s'.
    rewrite withActiveBlock_activeBlock. destruct a; [reflexivity | apply length_map].
  - unfold Rotate.apply in H.
    destruct (find _ (activeBlock s)) as [pivot |];
      [| injection H as H; subst s'; reflexivity].
    step_bind H. injection H as H. subst s'.
    rewrite withActiveBlock_activeBlock. destruct a; [apply length_map | reflexivity].
  - revert s H. induction fuel as [| fuel IH]; intros s H; [discriminate |].
    cbn [Drop.apply] in H. step_bind H. destruct a.
    + apply IH in H. rewrite withActiveBlock_activeBlock, length_map in H. exact H.
    + injection H as H. subst s'. reflexivity.
Qed.

Lemma nonempty_of_length {A : Type} (l l' : list A) :
  List.length l' = List.length l -> l <> [] -> l' <> [].
Proof.
  intros Hlen Hl Hl'. subst l'. destruct l; [now apply Hl | discriminate].
Qed.

Lemma handleCollisions_keeps_invariant (s s' : State) :
  Invariant s -> Tick.handleCollisions s = Ok s' -> Invariant s'.
Proof.
  intros [Hshape Hplace Hblock Hnonempty Hpreview Hrandom] H.
  unfold Tick.handleCollisions in H. step_bind H. step_bind H. step_bind H.
  pose proof (spawned_block_inGrid _ _ _ E) as Hnew.
  destruct (createBlock_spawn_area _ _ _ E) as [_ Hnew_nonempty].
  destruct (Z.of_nat (List.length a1) >? 0); step_bind H; injection H as H; subst s'.
  - constructor; cbn [Tick.handleBlockClear grid activeBlock shapePreview randomTetriminoType].
    + apply generate2DArray_shape.
    + apply removeRowsAndShiftDown_InPlace.
    + destruct (negb a0); assumption.
    + destruct (negb a0); assumption.
    + exact Hrandom.
    + exact Hrandom.
  - constructor; cbn [grid activeBlock shapePreview randomTetriminoType].
    + apply setBlockInArray_shape. exact Hshape.
    + apply setBlockInArray_InPlace. exact Hplace.
    + destruct (negb a0); assumption.
    + destruct (negb a0); assumption.
    + exact Hrandom.
    + exact Hrandom.
Qed.

Lemma step_keeps_invariant (fuel : nat) (s s' : State) (a : Action) :
  emitted a = true ->
  Invariant s ->
  reduceState fuel s a = Ok s' ->
  Invariant s'.
Proof.
  intros Hemitted Hinv Hstep.
  assert (Hin' : forallb inGrid (activeBlock s') = true).
  { eapply step_keeps_inGrid; [exact Hemitted | apply Hinv | exact Hstep]. }
  destruct (steersBlock a) eqn:Hsteer.
  { pose proof (steering_keeps_length fuel a s s' Hsteer Hstep) as Hlen.
    apply (steering_only_block fuel a s s' Hsteer) in Hstep.
    destruct Hinv as [Hshape Hplace Hblock Hnonempty Hpreview Hrandom].
    rewrite Hstep. constructor; cbn [withActiveBlock grid activeBlock shapePreview
                                       randomTetriminoType]; try assumption.
    eapply nonempty_of_length; eassumption. }
  destruct a as [index | elapsed | direction | | direction |]; try discriminate Hsteer;
    unfold reduceState in Hstep; cbn [negb orb applyAction] in Hstep.
  - injection Hstep as Hs'. subst s'.
    destruct Hinv as [Hshape Hplace Hblock Hnonempty Hpreview Hrandom].
    constructor; cbn [GenerateBlock.apply grid activeBlock shapePreview
                        randomTetriminoType]; try assumption.
    apply staged_type_known.
  - destruct (Z.rem _ _ =? 0); [| injection Hstep as Hs'; subst s'; exact Hinv].
    unfold Tick.apply in Hstep. step_bind Hstep.
    destruct (gameEnd s); [injection Hstep as Hs'; subst s'; exact Hinv |].
    destruct a; [eapply handleCollisions_keeps_invariant; eassumption |].
    step_bind Hstep. injection Hstep as Hs'. subst s'.
    cbn [activeBlock] in Hin'.
    destruct Hinv as [Hshape Hplace Hblock Hnonempty Hpreview Hrandom].
    constructor; cbn [grid activeBlock shapePreview randomTetriminoType]; try assumption.
    eapply nonempty_of_length; [apply length_map | exact Hnonempty].
  - unfold Restart.apply in Hstep.
    destruct (gameEnd s); [| injection Hstep as Hs'; subst s'; exact Hinv].
    step_bind Hstep. injection Hstep as Hs'. subst s'.
    destruct Hinv as [Hshape Hplace Hblock Hnonempty Hpreview Hrandom].
    constructor; cbn [grid activeBlock shapePreview randomTetriminoType].
    + apply generate2DArray_shape.
    + apply emptyGrid_InPlace.
    + eapply spawned_block_inGrid; eassumption.
    + apply (createBlock_spawn_area _ _ _ E).
    + exact Hrandom.
    + vm_compute. tauto.
Qed.

Lemma initialState_invariant : Invariant initialState.
Proof.
  constructor.
  - reflexivity.
  - apply emptyGrid_InPlace.
  - reflexivity.
  - discriminate.
  - vm_compute. tauto.
  - vm_compute. tauto.
Qed.

Lemma reachable_invariant (s : State) : reachable s -> Invariant s.
Proof.
  intros (fuel & actions & Hemitted & Hrun).
  pose proof initialState_invariant as Hstart.
  revert Hemitted Hrun Hstart. generalize initialState as start.
  induction actions as [| a rest IH]; intros start Hemitted Hrun Hstart.
  - injection Hrun as Hrun. subst s. exact Hstart.
  - cbn [forallb] in Hemitted. apply andb_true_iff in Hemitted.
    destruct Hemitted as [Ha Hrest].
    cbn [runActions] in Hrun. step_bind Hrun.
    apply (IH a0 Hrest Hrun).
    eapply step_keeps_invariant; eassumption.
Qed.

(** In a reachable state every action but [Rotate] returns a state. *)

Lemma Tick_returns (elapsed : Z) (s : State) :
  Invariant s -> exists s', Tick.apply elapsed s = Ok s'.
Proof.
  intros [Hshape Hplace Hblock Hnonempty Hpreview Hrandom].
  destruct (hasGridShape_spec _ Hshape) as [Hlen _].
  unfold Tick.apply.
  destruct (fallCollision_total (grid s) (activeBlock s) Hlen) as [collides Hcollides].
  rewrite Hcollides. cbn [bind].
  destruct (gameEnd s); [now exists s |].
  destruct collides.
  - unfold Tick.handleCollisions.
    set (committed := setBlockInArray (grid s) (activeBlock s)).
    assert (Hlen' : Z.of_nat (List.length committed) = GRID_RANGE.NUM_OF_ROWS).
    { subst committed. rewrite setBlockInArray_length. exact Hlen. }
    destruct (createBlock_known (shapePreview s) (Tetrimino.TETRIMINO_SIZE + objCount s)
                Hpreview) as [newBlock HnewBlock].
    rewrite HnewBlock. cbn [bind].
    destruct (createBlock_spawn_area _ _ _ HnewBlock) as [Harea _].
    destruct (inSpawnArea_cell_total committed newBlock Hlen' Harea) as [overlap Hoverlap].
    rewrite Hoverlap. cbn [bind].
    rewrite (getDeletingRows_in_range committed).
    + cbn [bind].
      destruct (isColumnFilled_total committed) as [filled Hfilled];
        [rewrite Hlen'; reflexivity |].
      rewrite Hfilled. cbn [bind].
      destruct (Z.of_nat _ >? 0); eexists; reflexivity.
    + intros row Hrow. subst committed. rewrite setBlockInArray_length.
      eapply touched_rows_in_grid; eassumption.
  - destruct (isColumnFilled_total (grid s)) as [filled Hfilled];
      [rewrite Hlen; reflexivity |].
    rewrite Hfilled. cbn [bind]. eexists; reflexivity.
Qed.

Lemma Move_returns (direction : Z) (s : State) :
  Invariant s -> exists s', Move.apply direction s = Ok s'.
Proof.
  intros [Hshape Hplace Hblock Hnonempty Hpreview Hrandom].
  destruct (hasGridShape_spec _ Hshape) as [Hlen _].
  unfold Move.apply.
  match goal with
  | |- context [checkBlockCollision ?conditions ?block] =>
      destruct (checkBlockCollision_total conditions block) as [blocked Hblocked]
  end.
  - intros cube Hcube. cbn [checkCollisions].
    rewrite forallb_forall in Hblock. specialize (Hblock cube Hcube).
    apply inGrid_iff in Hblock.
    assert (Hcell : forall col, exists b, cellNotNull (grid s) (grid_row cube) col = Ok b).
    { intros col. apply cellNotNull_total. rewrite Hlen. lia. }
    destruct (direction >? 0).
    + unfold cantMoveRight. destruct (grid_col cube >=? _).
      * cbn [bind]. eexists; reflexivity.
      * destruct (Hcell (grid_col cube + 1)) as [b Hb]. rewrite Hb. cbn [bind].
        destruct b; eexists; reflexivity.
    + unfold cantMoveLeft. destruct (grid_col cube <=? 0).
      * cbn [bind]. eexists; reflexivity.
      * destruct (Hcell (grid_col cube - 1)) as [b Hb]. rewrite Hb. cbn [bind].
        destruct b; eexists; reflexivity.
  - rewrite Hblocked. cbn [bind]. eexists; reflexivity.
Qed.

Lemma Drop_returns (fuel : nat) (s : State) :
  (19 <= fuel)%nat -> Invariant s -> exists s', Drop.apply fuel s = Ok s'.
Proof.
  intros Hfuel [Hshape Hplace Hblock Hnonempty Hpreview Hrandom].
  destruct (hasGridShape_spec _ Hshape) as [Hlen _].
  destruct (activeBlock s) as [| cube rest] eqn:Hactive; [contradiction |].
  cbn [forallb] in Hblock. apply andb_true_iff in Hblock. destruct Hblock as [Hcube _].
  apply inGrid_iff in Hcube.
  destruct fuel as [| n]; [lia |].
  apply (Drop_returns_within n s cube rest Hactive Hlen).
  change GRID_RANGE.NUM_OF_ROWS with 20. lia.
Qed.

Lemma Restart_returns (s : State) :
  Invariant s -> exists s', Restart.apply s = Ok s'.
Proof.
  intros [Hshape Hplace Hblock Hnonempty Hpreview Hrandom].
  unfold Restart.apply. destruct (gameEnd s); [| now exists s].
  destruct (createBlock_known (randomTetriminoType s)
              (objCount s + Tetrimino.TETRIMINO_SIZE) Hrandom) as [newBlock HnewBlock].
  rewrite HnewBlock. cbn [bind]. eexists; reflexivity.
Qed.

Lemma reachable_action_returns (fuel : nat) (s : State) (a : Action) :
  reachable s ->
  (19 <= fuel)%nat ->
  (forall direction, a <> Rotate direction) ->
  exists s', reduceState fuel s a = Ok s'.
Proof.
  intros Hreach Hfuel Hrotate. apply reachable_invariant in Hreach.
  unfold reduceState.
  destruct a as [index | elapsed | direction | | direction |]; cbn [negb orb applyAction].
  - eexists; reflexivity.
  - destruct (Z.rem _ _ =? 0); [apply Tick_returns; exact Hreach | now exists s].
  - apply Move_returns; exact Hreach.
  - apply Restart_returns; exact Hreach.
  - exfalso. apply (Hrotate direction). reflexivity.
  - apply Drop_returns; assumption.
Qed.

(** C10 fails on the program.  The state [stateAfter spawnI] is reachable
    and its active block, the "I" block at its spawn position, is inside the
    grid.  [Rotate] turns its first cube to row -1 and tests
    [checkCurrentCell] on it before the boundary predicates: the read of
    [grid[-1][5]] is outside the grid and throws. *)
Theorem Rotate_reads_outside_the_grid :
  reachable (stateAfter spawnI)
  /\ map position (activeBlock (stateAfter spawnI)) = [(0, 4); (0, 5); (0, 6); (0, 7)]
  /\ (exists pivot,
        find (fun cube => Bool.eqb (center cube) true) (activeBlock (stateAfter spawnI))
        = Some pivot
        /\ map position
             (map (Rotate.rotateCube clockwise pivot) (activeBlock (stateAfter spawnI)))
           = [(-1, 5); (0, 5); (1, 5); (2, 5)])
  /\ nthZ (grid (stateAfter spawnI)) (-1) = None
  /\ reduceState 20 (stateAfter spawnI) (Rotate clockwise) = TypeError
  /\ reduceState 20 (stateAfter spawnI) (Rotate anticlockwise) = TypeError.
Proof.
  split.
  { exists 20%nat, spawnI. split; vm_compute; reflexivity. }
  split; [vm_compute; reflexivity |].
  split.
  { eexists. split; [vm_compute; reflexivity | vm_compute; reflexivity]. }
  split; [reflexivity |].
  split; vm_compute; reflexivity.
Qed.

(* ------------------------------------------------------------------ *)
(** * Further properties of the code *)

(** ** The block factory *)

(** What every block made by [createBlock] looks like. *)
Lemma createBlock_facts (tetriminoType : string) (cubeCount : Z) (block : Block) :
  createBlock tetriminoType cubeCount = Ok block ->
  Z.of_nat (List.length block) = Tetrimino.TETRIMINO_SIZE
  /\ forallb inSpawnArea block = true
  /\ NoDup (map position block)
  /\ forallb pixelsMatch block = true
  /\ map idPrefix block = map (fun cube => (cubeCount, grid_row cube, grid_col cube)) block
  /\ List.length (filter center block)
     = if String.eqb tetriminoType "O" then 0%nat else 1%nat.
Proof.
  unfold createBlock, GenerateBlock.tetriminoLayouts.
  repeat (match goal with
          | |- context [if String.eqb ?a ?b then _ else _] =>
              destruct (String.eqb_spec a b) as [-> | _]
          end;
          [intros Hblock; injection Hblock as Hblock; subst block;
           repeat (split; [first [reflexivity
                                 | cbv [map position createCube grid_row grid_col];
                                   repeat (constructor;
                                           [cbn [In]; intuition congruence |]);
                                   constructor] |]);
           reflexivity |]).
  discriminate.
Qed.

(** X1.  [createBlock] of any shape it knows returns four cubes, all with
    the given spawn counter in their id, in rows 0-1 and columns 4-7, at
    pairwise different cells, with pixel positions computed from the cell;
    no cube is the rotation centre for "O" and exactly one is for every
    other shape. *)
Theorem createBlock_four_cubes (tetriminoType : string) (cubeCount : Z) (block : Block) :
  createBlock tetriminoType cubeCount = Ok block ->
  Z.of_nat (List.length block) = Tetrimino.TETRIMINO_SIZE
  /\ forallb inSpawnArea block = true
  /\ NoDup (map position block)
  /\ forallb pixelsMatch block = true
  /\ map idPrefix block = map (fun cube => (cubeCount, grid_row cube, grid_col cube)) block
  /\ List.length (filter center block)
     = if String.eqb tetriminoType "O" then 0%nat else 1%nat.
Proof.
  apply createBlock_facts.
Qed.

Lemma createBlock_four_cubes_witness :
  exists block,
    createBlock "S" 8 = Ok block
    /\ map position block = [(0, 5); (0, 6); (1, 4); (1, 5)]
    /\ List.length (filter center block) = 1%nat.
Proof.
  destruct (createBlock "S" 8) as [block | |] eqn:Hblock;
    try (vm_compute in Hblock; discriminate Hblock).
  exists block. split; [reflexivity |].
  pose proof (createBlock_four_cubes "S" 8 block Hblock) as (_ & _ & _ & _ & _ & Hcentre).
  vm_compute in Hblock. injection Hblock as Hblock. subst block.
  split; [reflexivity | exact Hcentre].
Defined.

(** X2.  [createBlock] returns a block exactly for the seven shapes of
    [TETRIMINO_TYPES]; for any other key the lookup in the layout table is
    [undefined] and the call throws. *)
Theorem createBlock_throws_iff_unknown (tetriminoType : string) (cubeCount : Z) :
  (createBlock tetriminoType cubeCount = TypeError
   <-> ~ In tetriminoType Tetrimino.TETRIMINO_TYPES)
  /\ (In tetriminoType Tetrimino.TETRIMINO_TYPES
      -> exists block, createBlock tetriminoType cubeCount = Ok block).
Proof.
  split; [| apply createBlock_known].
  unfold createBlock, GenerateBlock.tetriminoLayouts, Tetrimino.TETRIMINO_TYPES.
  cbn [In].
  repeat (match goal with
          | |- context [if String.eqb ?a ?b then _ else _] =>
              destruct (String.eqb_spec a b) as [-> | ?]
          end;
          [split; [discriminate | intros Hnot; exfalso; apply Hnot; tauto] |]).
  split; [intros _ | reflexivity].
  intros Hin. repeat (destruct Hin as [Hin | Hin]; [congruence |]). exact Hin.
Qed.

(** ** Duplicate removal and the collision aggregator *)

Lemma indexOf_from_notin (i : Z) (prefix rest : list Z) (item : Z) :
  ~ In item prefix ->
  indexOf_from i (prefix ++ item :: rest) item = i + Z.of_nat (List.length prefix).
Proof.
  revert i. induction prefix as [| v prefix IH]; intros i Hnotin.
  - cbn [app indexOf_from List.length]. rewrite Z.eqb_refl. cbn. lia.
  - cbn [app indexOf_from List.length].
    destruct (Z.eqb_spec v item) as [Heq | Hneq].
    + exfalso. apply Hnotin. now left.
    + rewrite IH by (intros Hin; apply Hnotin; now right). lia.
Qed.

Lemma indexOf_from_in (i : Z) (prefix rest : list Z) (item : Z) :
  In item prefix ->
  indexOf_from i (prefix ++ rest) item < i + Z.of_nat (List.length prefix).
Proof.
  revert i. induction prefix as [| v prefix IH]; intros i Hin; [contradiction |].
  cbn [app indexOf_from List.length].
  destruct (Z.eqb_spec v item) as [Heq | Hneq]; [lia |].
  destruct Hin as [Hin | Hin]; [contradiction |].
  specialize (IH (i + 1) Hin). lia.
Qed.

Lemma includes_snoc (prefix : list Z) (item v : Z) :
  includes (prefix ++ [item]) v = includes prefix v || (v =? item).
Proof.
  unfold includes. rewrite existsb_app. cbn [existsb].
  now rewrite orb_false_r, (Z.eqb_sym item v).
Qed.

Lemma filter_not_in_snoc (prefix : list Z) (item : Z) (items : list Z) :
  filter (fun v => negb (includes prefix v)) (filter (fun v => negb (v =? item)) items)
  = filter (fun v => negb (includes (prefix ++ [item]) v)) items.
Proof.
  induction items as [| v items IH]; [reflexivity |].
  cbn [filter]. rewrite includes_snoc.
  destruct (v =? item); cbn [negb filter].
  - rewrite orb_true_r. cbn [negb]. exact IH.
  - rewrite orb_false_r. destruct (includes prefix v); cbn [negb]; now rewrite IH.
Qed.

Lemma removeDuplicates_suffix (prefix rest : list Z) :
  map fst
    (filter (fun '(item, index) => indexOf (prefix ++ rest) item =? index)
       (mapi_from (Z.of_nat (List.length prefix)) (fun item index => (item, index)) rest))
  = filter (fun v => negb (includes prefix v)) (firstOccurrences rest).
Proof.
  revert prefix. induction rest as [| item rest IH]; intros prefix; [reflexivity |].
  cbn [mapi_from filter firstOccurrences].
  specialize (IH (prefix ++ [item])).
  rewrite <- app_assoc in IH. cbn [app] in IH.
  rewrite length_app in IH. cbn [List.length] in IH.
  replace (Z.of_nat (List.length prefix + 1)) with (Z.of_nat (List.length prefix) + 1) in IH
    by lia.
  rewrite filter_not_in_snoc.
  destruct (includes prefix item) eqn:Hinc; cbn [negb].
  - apply includes_In in Hinc.
    pose proof (indexOf_from_in 0 prefix (item :: rest) item Hinc) as Hlt.
    unfold indexOf.
    destruct (Z.eqb_spec (indexOf_from 0 (prefix ++ item :: rest) item)
                (Z.of_nat (List.length prefix))) as [Heq | _]; [lia |].
    exact IH.
  - assert (Hnotin : ~ In item prefix).
    { intros Hin. apply includes_In in Hin. congruence. }
    unfold indexOf at 1. rewrite (indexOf_from_notin 0 prefix rest item Hnotin).
    rewrite Z.add_0_l, Z.eqb_refl. cbn [map fst]. f_equal. exact IH.
Qed.

Lemma firstOccurrences_In (items : list Z) (v : Z) :
  In v (firstOccurrences items) <-> In v items.
Proof.
  induction items as [| item rest IH]; [reflexivity |].
  cbn [firstOccurrences In]. rewrite filter_In, IH, negb_true_iff, Z.eqb_neq.
  destruct (Z.eq_dec item v) as [Heq | Hneq]; [tauto |].
  split; [tauto |]. intros [H | H]; [tauto | right; split; [exact H | congruence]].
Qed.

Lemma firstOccurrences_NoDup (items : list Z) : NoDup (firstOccurrences items).
Proof.
  induction items as [| item rest IH]; [constructor |].
  cbn [firstOccurrences]. constructor.
  - rewrite filter_In, negb_true_iff, Z.eqb_neq. tauto.
  - apply NoDup_filter. exact IH.
Qed.

Lemma removeDuplicates_firstOccurrences (items : list Z) :
  removeDuplicates items = firstOccurrences items.
Proof.
  pose proof (removeDuplicates_suffix [] items) as Hsuffix.
  cbn [app List.length Z.of_nat includes existsb negb] in Hsuffix.
  unfold removeDuplicates, mapi. etransitivity; [exact Hsuffix |].
  apply filter_all. reflexivity.
Qed.

(** X3.  [removeDuplicates] keeps the first occurrence of every number, in
    order: the result has no duplicates and the same members as the input.
    So [getRecentlyPlacedRows] lists each row touched by the block once. *)
Theorem removeDuplicates_spec (items : list Z) (block : Block) :
  removeDuplicates items = firstOccurrences items
  /\ NoDup (removeDuplicates items)
  /\ (forall v, In v (removeDuplicates items) <-> In v items)
  /\ NoDup (getRecentlyPlacedRows block)
  /\ (forall row, In row (getRecentlyPlacedRows block)
                  <-> exists cube, In cube block /\ grid_row cube = row).
Proof.
  split; [apply removeDuplicates_firstOccurrences |].
  split; [rewrite removeDuplicates_firstOccurrences; apply firstOccurrences_NoDup |].
  split; [intros v; rewrite removeDuplicates_firstOccurrences; apply firstOccurrences_In |].
  unfold getRecentlyPlacedRows. rewrite removeDuplicates_firstOccurrences.
  split; [apply firstOccurrences_NoDup |].
  intros row. rewrite firstOccurrences_In, in_map_iff.
  split; intros (cube & H1 & H2); exists cube; tauto.
Qed.

Lemma checkCollisions_total_conditions (predicates : list (Cube -> bool)) (cube : Cube) :
  checkCollisions (map total predicates) cube
  = Ok (existsb (fun p => p cube) predicates).
Proof.
  induction predicates as [| p rest IH]; [reflexivity |].
  cbn [map checkCollisions existsb]. unfold total at 1. cbn [bind].
  destruct (p cube); [reflexivity | exact IH].
Qed.

Lemma length_filter_positive {A : Type} (q : A -> bool) (l : list A) :
  (Z.of_nat (List.length (filter q l)) >? 0) = existsb q l.
Proof.
  induction l as [| v rest IH]; [reflexivity |].
  cbn [filter existsb]. destruct (q v); cbn [orb]; [| exact IH].
  cbn [List.length]. apply Z.gtb_gt. lia.
Qed.

(** X4.  For conditions that cannot throw, a block collides exactly when
    some cube satisfies some condition (a logical OR across cubes and across
    conditions); in particular the empty block and the empty list of
    conditions never collide. *)
Theorem checkBlockCollision_is_any (predicates : list (Cube -> bool)) (block : Block) :
  checkBlockCollision (map total predicates) block
  = Ok (existsb (fun cube => existsb (fun p => p cube) predicates) block)
  /\ checkBlockCollision (map total predicates) [] = Ok false
  /\ checkBlockCollision [] block = Ok false.
Proof.
  assert (Hany : forall ps b,
             checkBlockCollision (map total ps) b
             = Ok (existsb (fun cube => existsb (fun p => p cube) ps) b)).
  { intros ps b. unfold checkBlockCollision.
    rewrite (filterM_pure _ (fun cube => existsb (fun p => p cube) ps)).
    - cbn [bind]. now rewrite length_filter_positive.
    - intros cube _. apply checkCollisions_total_conditions. }
  split; [apply Hany |]. split; [reflexivity |].
  change (@nil (Cube -> result bool)) with (map total []).
  rewrite (Hany [] block). f_equal.
  induction block as [| cube rest IH]; [reflexivity | exact IH].
Qed.

(** ** Committing a block, full rows and removed cubes *)

Lemma cellAt_setBlockInArray_exact (g : Grid) (block : Block) (row col : Z) :
  cellAt (setBlockInArray g block) row col
  = match nthZ g row with
    | Some cells =>
        match nthZ cells col with
        | Some cell =>
            match find (isCubeHere row col) block with
            | Some q => Some q
            | None => cell
            end
        | None => None
        end
    | None => None
    end.
Proof.
  unfold cellAt, setBlockInArray. rewrite nthZ_mapi_eq.
  destruct (nthZ g row) as [cells |]; cbn [option_map]; [| reflexivity].
  rewrite nthZ_mapi_eq.
  destruct (nthZ cells col) as [cell |]; reflexivity.
Qed.

Lemma cell_in_shaped_grid (g : Grid) (row col : Z) :
  hasGridShape g = true ->
  0 <= row < GRID_RANGE.NUM_OF_ROWS ->
  0 <= col < GRID_RANGE.NUM_OF_COLUMNS ->
  exists cells cell, nthZ g row = Some cells /\ nthZ cells col = Some cell.
Proof.
  intros Hshape Hrow Hcol. apply hasGridShape_spec in Hshape. destruct Hshape as [Hrows Hcols].
  destruct (nthZ_in_range g row) as [cells Hcells]; [lia |].
  destruct (nthZ_in_range cells col) as [cell Hcell].
  { rewrite (Hcols cells (nthZ_In _ _ _ Hcells)). exact Hcol. }
  now exists cells, cell.
Qed.

Lemma NoDup_map_injective {A B : Type} (f : A -> B) (l : list A) (a b : A) :
  NoDup (map f l) -> In a l -> In b l -> f a = f b -> a = b.
Proof.
  induction l as [| v rest IH]; intros Hnodup Ha Hb Heq; [contradiction |].
  cbn [map] in Hnodup. inversion Hnodup as [| ? ? Hnotin Hrest]; subst.
  destruct Ha as [Ha | Ha]; destruct Hb as [Hb | Hb]; subst.
  - reflexivity.
  - exfalso. apply Hnotin. rewrite Heq. now apply in_map.
  - exfalso. apply Hnotin. rewrite <- Heq. now apply in_map.
  - now apply IH.
Qed.

(** X5.  [setBlockInArray] keeps the dimensions of the grid; a cell inside
    the grid holds the first cube of the block that records that cell, and
    otherwise what it held before.  So when the cubes of the block are at
    different cells, every cube inside the grid is in its own cell, and a
    cell at which the block has no cube is unchanged; cubes outside the grid
    are left out. *)
Theorem setBlockInArray_cells (g : Grid) (block : Block) :
  hasGridShape g = true ->
  hasGridShape (setBlockInArray g block) = true
  /\ (forall row col,
        0 <= row < GRID_RANGE.NUM_OF_ROWS ->
        0 <= col < GRID_RANGE.NUM_OF_COLUMNS ->
        cellAt (setBlockInArray g block) row col
        = match find (isCubeHere row col) block with
          | Some q => Some q
          | None => cellAt g row col
          end)
  /\ (NoDup (map position block) ->
      forall q, In q block -> inGrid q = true ->
                cellAt (setBlockInArray g block) (grid_row q) (grid_col q) = Some q)
  /\ (forall row col,
        (forall q, In q block -> position q <> (row, col)) ->
        cellAt (setBlockInArray g block) row col = cellAt g row col).
Proof.
  intros Hshape.
  assert (Hcell : forall row col,
             0 <= row < GRID_RANGE.NUM_OF_ROWS ->
             0 <= col < GRID_RANGE.NUM_OF_COLUMNS ->
             cellAt (setBlockInArray g block) row col
             = match find (isCubeHere row col) block with
               | Some q => Some q
               | None => cellAt g row col
               end).
  { intros row col Hrow Hcol. rewrite cellAt_setBlockInArray_exact. unfold cellAt.
    destruct (cell_in_shaped_grid g row col Hshape Hrow Hcol) as (cells & cell & Hcells & Hc).
    rewrite Hcells, Hc. reflexivity. }
  split; [apply setBlockInArray_shape; exact Hshape |].
  split; [exact Hcell |]. split.
  - intros Hnodup q Hq Hin. apply inGrid_iff in Hin.
    rewrite Hcell by lia.
    destruct (find (isCubeHere (grid_row q) (grid_col q)) block) as [q' |] eqn:Hfind.
    + apply find_some in Hfind. destruct Hfind as [Hq' Hhere].
      unfold isCubeHere in Hhere. apply andb_true_iff in Hhere.
      rewrite !Z.eqb_eq in Hhere. destruct Hhere as [Hr Hc].
      f_equal. apply (NoDup_map_injective position block q' q Hnodup Hq' Hq).
      unfold position. now rewrite Hr, Hc.
    + apply (find_none _ _ Hfind) in Hq. unfold isCubeHere in Hq.
      rewrite !Z.eqb_refl in Hq. discriminate Hq.
  - intros row col Hnone. rewrite cellAt_setBlockInArray_exact. unfold cellAt.
    destruct (nthZ g row) as [cells |]; [| reflexivity].
    destruct (nthZ cells col) as [cell |]; [| reflexivity].
    destruct (find (isCubeHere row col) block) as [q |] eqn:Hfind; [| reflexivity].
    apply find_some in Hfind. destruct Hfind as [Hq Hhere].
    exfalso. apply (Hnone q Hq).
    unfold isCubeHere in Hhere. apply andb_true_iff in Hhere.
    rewrite !Z.eqb_eq in Hhere. destruct Hhere as [Hr Hc].
    unfold position. now rewrite Hr, Hc.
Qed.

Lemma setBlockInArray_cells_witness :
  map position (gridCubes (setBlockInArray (grid initialState) (activeBlock initialState)))
  = [(0, 4); (0, 5); (1, 4); (1, 5)]
  /\ hasGridShape (setBlockInArray (grid initialState) (activeBlock initialState)) = true.
Proof.
  assert (Hshape : hasGridShape (grid initialState) = true) by (vm_compute; reflexivity).
  destruct (setBlockInArray_cells (grid initialState) (activeBlock initialState) Hshape)
    as (Hkept & _).
  split; [vm_compute; reflexivity | exact Hkept].
Defined.

Lemma filterM_throws {A : Type} (p : A -> result bool) (a : list A) :
  (forall v, In v a -> p v <> OutOfFuel) ->
  (filterM p a = TypeError <-> exists v, In v a /\ p v = TypeError).
Proof.
  induction a as [| v rest IH]; intros Hfuel.
  - cbn [filterM]. split; [discriminate | intros (v & [] & _)].
  - assert (IH' := IH (fun w Hw => Hfuel w (or_intror Hw))).
    cbn [filterM]. destruct (p v) as [b | |] eqn:Hv; cbn [bind].
    + destruct (filterM p rest) as [kept | |]; cbn [bind].
      * split; [discriminate |]. intros (w & [Hw | Hw] & Hthrow); [congruence |].
        assert (Hsome : exists w, In w rest /\ p w = TypeError) by (exists w; tauto).
        apply IH' in Hsome. discriminate Hsome.
      * split; [intros _ | reflexivity].
        destruct (proj1 IH' eq_refl) as (w & Hw & Hthrow). exists w. split; [now right | exact Hthrow].
      * split; [discriminate |]. intros (w & [Hw | Hw] & Hthrow); [congruence |].
        assert (Hsome : exists w, In w rest /\ p w = TypeError) by (exists w; tauto).
        apply IH' in Hsome. discriminate Hsome.
    + split; [intros _ | reflexivity]. exists v. split; [now left | exact Hv].
    + exfalso. apply (Hfuel v (or_introl eq_refl)). exact Hv.
Qed.

(** X6.  [getDeletingRows] returns, in order, the candidate rows that have
    no empty cell, when every candidate is a row of the grid; it throws
    exactly when some candidate is not a row of the grid. *)
Theorem getDeletingRows_spec (g : Grid) (rows : list Z) :
  ((forall row, In row rows -> 0 <= row < Z.of_nat (List.length g)) ->
   getDeletingRows g rows = Ok (filter (rowFull g) rows))
  /\ (getDeletingRows g rows = TypeError
      <-> exists row, In row rows /\ ~ (0 <= row < Z.of_nat (List.length g))).
Proof.
  split; [apply getDeletingRows_in_range |].
  unfold getDeletingRows. rewrite filterM_throws.
  - split; intros (row & Hrow & H); exists row; (split; [exact Hrow |]).
    + intros Hrange. destruct (nthZ_in_range g row Hrange) as [cells Hcells].
      rewrite Hcells in H. discriminate H.
    + destruct (nthZ g row) as [cells |] eqn:Hcells; [| reflexivity].
      exfalso. apply H. eapply nthZ_Some_range. exact Hcells.
  - intros row _. destruct (nthZ g row); discriminate.
Qed.

Lemma getDeletingRows_spec_witness :
  getDeletingRows gappedGrid [16; 17; 18; 19] = Ok [17; 19].
Proof.
  destruct (getDeletingRows_spec gappedGrid [16; 17; 18; 19]) as [Hrows _].
  rewrite Hrows; [vm_compute; reflexivity |].
  intros row Hrow. cbn [In] in Hrow.
  change (Z.of_nat (List.length gappedGrid)) with 20.
  repeat (destruct Hrow as [Hrow | Hrow]; [subst row; lia |]). contradiction.
Defined.

Lemma getRemovedCubes_filter (g : Grid) (rows : list Z) :
  getRemovedCubes g rows = filter (fun q => includes rows (grid_row q)) (gridCubes g).
Proof.
  unfold getRemovedCubes. cbv zeta.
  apply (kept_cubes_of_grid (fun q => includes rows (grid_row q)) g).
Qed.

Lemma filter_none {A : Type} (p : A -> bool) (l : list A) :
  (forall v, In v l -> p v = false) -> filter p l = [].
Proof.
  induction l as [| v rest IH]; intros Hp; [reflexivity |].
  cbn [filter]. rewrite (Hp v (or_introl eq_refl)). apply IH.
  intros w Hw. apply Hp. now right.
Qed.

Lemma filterNotNull_full (cells : list (option Cube)) :
  forallb isNotNullOrUndefined cells = true ->
  List.length (filterNotNull cells) = List.length cells.
Proof.
  induction cells as [| [q |] rest IH]; cbn [forallb filterNotNull List.length isNotNullOrUndefined andb];
    [reflexivity | | discriminate].
  intros Hrest. now rewrite IH.
Qed.

(** The cubes of the rows [start], [start + 1], ... that are in [rows]. *)
Lemma removed_count_from (g : Grid) (rows : list Z) (width start : nat) :
  (forall k cells q,
     nth_error g k = Some cells -> In (Some q) cells ->
     grid_row q = Z.of_nat (start + k)) ->
  (forall k cells,
     nth_error g k = Some cells -> includes rows (Z.of_nat (start + k)) = true ->
     List.length (filterNotNull cells) = width) ->
  List.length (filter (fun q => includes rows (grid_row q)) (gridCubes g))
  = (width * List.length (filter (fun k => includes rows (Z.of_nat k))
                            (seq start (List.length g))))%nat.
Proof.
  revert start. induction g as [| cells rest IH]; intros start Hrow Hfull.
  - cbn. lia.
  - change (gridCubes (cells :: rest)) with (gridCubes ([cells] ++ rest)).
    rewrite gridCubes_app, filter_app, length_app.
    rewrite (IH (S start)).
    + cbn [List.length seq filter].
      assert (Hhead : forall q, In q (gridCubes [cells]) -> grid_row q = Z.of_nat start).
      { intros q Hq. unfold gridCubes in Hq. cbn [List.concat] in Hq.
        rewrite app_nil_r in Hq. apply filterNotNull_In in Hq.
        rewrite (Hrow 0%nat cells q eq_refl Hq). f_equal. lia. }
      destruct (includes rows (Z.of_nat start)) eqn:Hinc.
      * rewrite filter_all by (intros q Hq; now rewrite (Hhead q Hq)).
        unfold gridCubes. cbn [List.concat]. rewrite app_nil_r.
        rewrite (Hfull 0%nat cells eq_refl) by (now rewrite Nat.add_0_r).
        cbn [List.length]. lia.
      * rewrite filter_none by (intros q Hq; now rewrite (Hhead q Hq)).
        cbn [List.length]. lia.
    + intros k cells' q Hnth Hq. rewrite (Hrow (S k) cells' q Hnth Hq). f_equal. lia.
    + intros k cells' Hnth Hinc. apply (Hfull (S k) cells' Hnth).
      now replace (start + S k)%nat with (S start + k)%nat by lia.
Qed.

Lemma NoDup_map_of_injective {A B : Type} (f : A -> B) (l : list A) :
  (forall a b, f a = f b -> a = b) -> NoDup l -> NoDup (map f l).
Proof.
  intros Hinj Hnodup. induction Hnodup as [| v rest Hnotin Hrest IH]; [constructor |].
  cbn [map]. constructor; [| exact IH].
  intros Hin. apply in_map_iff in Hin. destruct Hin as (w & Hfw & Hw).
  apply Hinj in Hfw. subst w. contradiction.
Qed.

Lemma rows_counted (rows : list Z) (height : nat) :
  NoDup rows ->
  (forall row, In row rows -> 0 <= row < Z.of_nat height) ->
  List.length (filter (fun k => includes rows (Z.of_nat k)) (seq 0 height))
  = List.length rows.
Proof.
  intros Hnodup Hrange.
  set (hit := filter (fun k => includes rows (Z.of_nat k)) (seq 0 height)).
  assert (Hhit : NoDup (map Z.of_nat hit)).
  { apply NoDup_map_of_injective; [intros a b; apply Nat2Z.inj |].
    apply NoDup_filter, seq_NoDup. }
  rewrite <- (length_map Z.of_nat hit).
  apply Nat.le_antisymm.
  - apply NoDup_incl_length; [exact Hhit |].
    intros row Hrow. apply in_map_iff in Hrow. destruct Hrow as (k & Hk & Hin).
    subst row. apply filter_In in Hin. apply includes_In. tauto.
  - apply NoDup_incl_length; [exact Hnodup |].
    intros row Hrow. apply in_map_iff. exists (Z.to_nat row).
    specialize (Hrange row Hrow). split; [lia |].
    apply filter_In. split; [apply in_seq; lia |].
    rewrite Z2Nat.id by lia. now apply includes_In.
Qed.

(** X7.  [getRemovedCubes] returns the cubes of the grid whose recorded row
    is one of the given rows.  On a grid of the fixed dimensions whose cubes
    record their cell, for distinct full rows it returns columnCount cubes
    per row: as many cubes as the points the line clear scores. *)
Theorem getRemovedCubes_spec (g : Grid) (rows : list Z) :
  (forall q, In q (getRemovedCubes g rows)
             <-> In q (gridCubes g) /\ In (grid_row q) rows)
  /\ (hasGridShape g = true ->
      cubesInPlace g = true ->
      NoDup rows ->
      (forall row, In row rows -> rowFull g row = true) ->
      Z.of_nat (List.length (getRemovedCubes g rows))
      = GRID_RANGE.NUM_OF_COLUMNS * Z.of_nat (List.length rows)).
Proof.
  rewrite getRemovedCubes_filter. split.
  - intros q. rewrite filter_In, includes_In. reflexivity.
  - intros Hshape Hplace Hnodup Hfull.
    apply cubesInPlace_spec in Hplace.
    destruct (hasGridShape_spec g Hshape) as [Hrows Hcols].
    rewrite (removed_count_from g rows 10 0).
    + rewrite rows_counted; [change GRID_RANGE.NUM_OF_COLUMNS with 10; lia | exact Hnodup |].
      intros row Hrow. specialize (Hfull row Hrow). unfold rowFull in Hfull.
      destruct (nthZ g row) as [cells |] eqn:Hcells; [| discriminate].
      eapply nthZ_Some_range. exact Hcells.
    + intros k cells q Hnth Hq. cbn [Nat.add].
      apply In_nth_error in Hq. destruct Hq as [j Hj].
      apply (Hplace (Z.of_nat k) (Z.of_nat j) q).
      apply cellAt_Some. exists cells. now rewrite !nthZ_of_nat.
    + intros k cells Hnth Hinc. cbn [Nat.add] in Hinc.
      apply includes_In in Hinc. specialize (Hfull _ Hinc).
      unfold rowFull in Hfull. rewrite nthZ_of_nat, Hnth in Hfull.
      rewrite (filterNotNull_full cells Hfull).
      specialize (Hcols cells (nth_error_In _ _ Hnth)).
      change GRID_RANGE.NUM_OF_COLUMNS with 10 in Hcols. lia.
Qed.

Lemma getRemovedCubes_spec_witness :
  Z.of_nat (List.length (getRemovedCubes gappedGrid [17; 19])) = 20.
Proof.
  destruct (getRemovedCubes_spec gappedGrid [17; 19]) as [_ Hcount].
  rewrite Hcount; [reflexivity | vm_compute; reflexivity | vm_compute; reflexivity | |].
  - constructor; [cbn [In]; intuition discriminate |].
    constructor; [intros [] | constructor].
  - intros row Hrow. cbn [In] in Hrow.
    repeat (destruct Hrow as [Hrow | Hrow]; [subst row; vm_compute; reflexivity |]).
    contradiction.
Defined.

(** ** The shapes of a transition *)

Lemma cellNotNull_false_iff (g : Grid) (row col : Z) :
  cellNotNull g row col = Ok false <-> cellFree g row col = true.
Proof.
  unfold cellNotNull, cellFree.
  destruct (nthZ g row) as [cells |]; [| split; discriminate].
  destruct (nthZ cells col) as [[q |] |]; split; (reflexivity || discriminate).
Qed.

Lemma cellFree_cellAt (g : Grid) (row col : Z) :
  cellFree g row col = true -> cellAt g row col = None.
Proof.
  unfold cellFree, cellAt.
  destruct (nthZ g row) as [cells |]; [| reflexivity].
  destruct (nthZ cells col) as [[q |] |]; (reflexivity || discriminate).
Qed.

(** The three ways in which [Tick.apply] returns. *)
Lemma Tick_cases (elapsed : Z) (s s' : State) :
  Tick.apply elapsed s = Ok s' ->
  (gameEnd s = true /\ s' = s)
  \/ (gameEnd s = false
      /\ checkBlockCollision
           [total checkCubeRowExceedsBoundaries; cantMoveDown (grid s)] (activeBlock s)
         = Ok false
      /\ exists filled,
           isColumnFilled (grid s) = Ok filled /\ s' = fallenState s filled)
  \/ (gameEnd s = false
      /\ checkBlockCollision
           [total checkCubeRowExceedsBoundaries; cantMoveDown (grid s)] (activeBlock s)
         = Ok true
      /\ exists newBlock overlap rows filled,
           createBlock (shapePreview s) (Tetrimino.TETRIMINO_SIZE + objCount s) = Ok newBlock
           /\ checkBlockCollision
                [checkCurrentCell (setBlockInArray (grid s) (activeBlock s))] newBlock
              = Ok overlap
           /\ getDeletingRows (setBlockInArray (grid s) (activeBlock s))
                (getRecentlyPlacedRows (activeBlock s)) = Ok rows
           /\ isColumnFilled (setBlockInArray (grid s) (activeBlock s)) = Ok filled
           /\ s' = if Z.of_nat (List.length rows) >? 0
                   then Tick.handleBlockClear
                          (lockedState s newBlock overlap filled (shapePreview s)) rows
                   else lockedState s newBlock overlap filled (randomTetriminoType s)).
Proof.
  intros H. unfold Tick.apply in H. step_bind H.
  destruct (gameEnd s); [injection H as H; left; now split |].
  destruct a.
  - right. right. split; [reflexivity |]. split; [reflexivity |].
    unfold Tick.handleCollisions in H. step_bind H. step_bind H. step_bind H.
    exists a, a0, a1.
    destruct (Z.of_nat (List.length a1) >? 0); step_bind H; injection H as H;
      exists a2; repeat split; now symmetry.
  - right. left. split; [reflexivity |]. split; [reflexivity |].
    step_bind H. injection H as H. exists a. split; [reflexivity | now symmetry].
Qed.

(** The two ways in which [Restart.apply] returns. *)
Lemma Restart_cases (s s' : State) :
  Restart.apply s = Ok s' ->
  (gameEnd s = false /\ s' = s)
  \/ (gameEnd s = true
      /\ exists newBlock,
           createBlock (randomTetriminoType s) (objCount s + Tetrimino.TETRIMINO_SIZE)
           = Ok newBlock
           /\ s' = restartedState s newBlock).
Proof.
  intros H. unfold Restart.apply in H.
  destruct (gameEnd s); [| injection H as H; left; now split].
  right. split; [reflexivity |]. step_bind H. injection H as H.
  exists a. split; [reflexivity |]. subst s'. unfold restartedState.
  now rewrite flat_map_copy_cells.
Qed.

(** Induction over the reachable states, with the invariant at hand. *)
Lemma reachable_induction (P : State -> Prop) :
  P initialState ->
  (forall fuel s a s',
     emitted a = true -> Invariant s -> P s -> reduceState fuel s a = Ok s' -> P s') ->
  forall s, reachable s -> P s.
Proof.
  intros Hinit Hstep s (fuel & actions & Hemitted & Hrun).
  assert (Hstart : Invariant initialState /\ P initialState)
    by (split; [apply initialState_invariant | exact Hinit]).
  revert Hemitted Hrun Hstart. generalize initialState as start.
  induction actions as [| a rest IH]; intros start Hemitted Hrun [Hinv HP].
  - injection Hrun as Hrun. now subst s.
  - cbn [forallb] in Hemitted. apply andb_true_iff in Hemitted.
    destruct Hemitted as [Ha Hrest].
    cbn [runActions] in Hrun. step_bind Hrun.
    apply (IH a0 Hrest Hrun). split.
    + eapply step_keeps_invariant; eassumption.
    + eapply Hstep; eassumption.
Qed.

Lemma moveCube_keeps_pixels (amount : Z) (q : Cube) :
  pixelsMatch q = true -> pixelsMatch (moveCube amount q) = true.
Proof.
  unfold pixelsMatch, moveCube. cbn [x y grid_row grid_col].
  rewrite !andb_true_iff, !Z.eqb_eq. tauto.
Qed.

Lemma keepsCube_same : keepsCube (fun q => q).
Proof.
  split; intros q; auto.
Qed.

Lemma keepsCube_moveCube (amount : Z) : keepsCube (moveCube amount).
Proof.
  split; [reflexivity | apply moveCube_keeps_pixels].
Qed.

Lemma keepsCube_compose (f h : Cube -> Cube) :
  keepsCube f -> keepsCube h -> keepsCube (fun q => h (f q)).
Proof.
  intros [Hf1 Hf2] [Hh1 Hh2]. split; intros q.
  - now rewrite Hh1, Hf1.
  - intros Hq. apply Hh2, Hf2. exact Hq.
Qed.

Lemma Drop_maps_block (fuel : nat) (s s' : State) :
  Drop.apply fuel s = Ok s' ->
  exists f, keepsCube f /\ s' = withActiveBlock s (map f (activeBlock s)).
Proof.
  revert s. induction fuel as [| fuel IH]; intros s H; [discriminate |].
  cbn [Drop.apply] in H. step_bind H. destruct a.
  - apply IH in H. destruct H as (f & Hf & Hs').
    exists (fun q => f (moveCube 1 q)). split.
    + apply keepsCube_compose; [apply keepsCube_moveCube | exact Hf].
    + rewrite Hs', withActiveBlock_twice, withActiveBlock_activeBlock, map_map. reflexivity.
  - injection H as H. subst s'. exists (fun q => q). split; [apply keepsCube_same |].
    now rewrite map_id, withActiveBlock_same.
Qed.

Lemma steering_maps_block (fuel : nat) (a : Action) (s s' : State) :
  steersBlock a = true ->
  reduceState fuel s a = Ok s' ->
  exists f, keepsCube f /\ s' = withActiveBlock s (map f (activeBlock s)).
Proof.
  assert (Hsame : exists f, keepsCube f /\ withActiveBlock s (activeBlock s)
                                          = withActiveBlock s (map f (activeBlock s))).
  { exists (fun q => q). split; [apply keepsCube_same | now rewrite map_id]. }
  destruct a as [index | elapsed | direction | | direction |]; try discriminate;
    intros _ H; unfold reduceState in H; cbn [negb orb applyAction] in H.
  - unfold Move.apply in H. step_bind H. injection H as H. subst s'.
    destruct a; [exact Hsame |].
    exists (Move.updateCubeX direction). split; [| reflexivity].
    split; [reflexivity |]. intros q. unfold pixelsMatch, Move.updateCubeX.
    cbn [x y grid_row grid_col]. rewrite !andb_true_iff, !Z.eqb_eq. tauto.
  - unfold Rotate.apply in H.
    destruct (find _ (activeBlock s)) as [pivot |];
      [| injection H as H; subst s'; exact Hsame].
    step_bind H. injection H as H. subst s'.
    destruct a; [| exact Hsame].
    exists (Rotate.rotateCube direction pivot). split; [| reflexivity].
    split; [reflexivity |]. intros q _. unfold pixelsMatch, Rotate.rotateCube.
    cbn [x y grid_row grid_col]. now rewrite !Z.eqb_refl.
  - apply Drop_maps_block in H. exact H.
Qed.

(** Every transition is one of: the state as it was, a change of the staged
    shape, a move of the cubes of the active block, a fall, a lock (with or
    without a line clear), or a restart. *)
Lemma step_cases (fuel : nat) (s s' : State) (a : Action) :
  reduceState fuel s a = Ok s' ->
  s' = s
  \/ (exists index, s' = GenerateBlock.apply index s)
  \/ (exists f, keepsCube f /\ s' = withActiveBlock s (map f (activeBlock s)))
  \/ (exists filled, gameEnd s = false /\ s' = fallenState s filled)
  \/ (exists newBlock overlap filled rows,
        gameEnd s = false
        /\ createBlock (shapePreview s) (Tetrimino.TETRIMINO_SIZE + objCount s) = Ok newBlock
        /\ getDeletingRows (setBlockInArray (grid s) (activeBlock s))
             (getRecentlyPlacedRows (activeBlock s)) = Ok rows
        /\ s' = if Z.of_nat (List.length rows) >? 0
                then Tick.handleBlockClear
                       (lockedState s newBlock overlap filled (shapePreview s)) rows
                else lockedState s newBlock overlap filled (randomTetriminoType s))
  \/ (exists newBlock,
        a = Restart
        /\ gameEnd s = true
        /\ createBlock (randomTetriminoType s) (objCount s + Tetrimino.TETRIMINO_SIZE)
           = Ok newBlock
        /\ s' = restartedState s newBlock).
Proof.
  intros Hstep.
  destruct (steersBlock a) eqn:Hsteer.
  { right. right. left. eapply steering_maps_block; eassumption. }
  destruct a as [index | elapsed | direction | | direction |]; try discriminate Hsteer;
    unfold reduceState in Hstep; cbn [negb orb applyAction] in Hstep.
  - injection Hstep as Hs'. right. left. exists index. now symmetry.
  - destruct (Z.rem _ _ =? 0); [| injection Hstep as Hs'; left; now symmetry].
    apply Tick_cases in Hstep.
    destruct Hstep as [[_ Hs'] | [(Hon & _ & filled & _ & Hs')
                                 | (Hon & _ & newBlock & overlap & rows & filled
                                    & Hnew & _ & Hrows & _ & Hs')]].
    + now left.
    + right. right. right. left. exists filled. now split.
    + right. right. right. right. left. exists newBlock, overlap, filled, rows.
      repeat split; assumption.
  - apply Restart_cases in Hstep.
    destruct Hstep as [[_ Hs'] | (Hend & newBlock & Hnew & Hs')]; [now left |].
    right. right. right. right. right. exists newBlock. repeat split; assumption.
Qed.

(** ** Where the actions put the active block *)

Lemma fallConditions_free (g : Grid) (cube : Cube) :
  checkCollisions [total checkCubeRowExceedsBoundaries; cantMoveDown g] cube = Ok false ->
  0 <= grid_row cube < GRID_RANGE.NUM_OF_ROWS - 1
  /\ cellFree g (grid_row cube + 1) (grid_col cube) = true.
Proof.
  intros H. split; [eapply fallConditions_false; exact H |].
  cbn [checkCollisions] in H. unfold total in H. cbn [bind] in H.
  destruct (checkCubeRowExceedsBoundaries cube); [discriminate H |].
  step_bind H. destruct a; [discriminate H |].
  apply cellNotNull_false_iff. exact E.
Qed.

(** X8.  Gravity: while the game is on, a Tick that passes the gate and
    finds no collision moves every cube of the active block down by exactly
    one row, onto an existing empty cell of the grid, with its pixel y
    recomputed; the columns, the grid, the score and every other field but
    [gameEnd] stay, and [gameEnd] becomes whether row 0 is occupied. *)
Theorem Tick_moves_block_down (fuel : nat) (elapsed : Z) (s : State) :
  gameEnd s = false ->
  Z.rem elapsed (speedMultiplier s) = 0 ->
  Z.of_nat (List.length (grid s)) = GRID_RANGE.NUM_OF_ROWS ->
  checkBlockCollision
    [total checkCubeRowExceedsBoundaries; cantMoveDown (grid s)] (activeBlock s)
  = Ok false ->
  exists s',
    reduceState fuel s (Tick elapsed) = Ok s'
    /\ s' = fallenState s (gameEnd s')
    /\ isColumnFilled (grid s) = Ok (gameEnd s')
    /\ map position (activeBlock s')
       = map (fun q => (grid_row q + 1, grid_col q)) (activeBlock s)
    /\ map y (activeBlock s')
       = map (fun q => calculateYcoord (grid_row q + 1)) (activeBlock s)
    /\ forallb (onFreeCell (grid s)) (activeBlock s') = true.
Proof.
  intros Hon Hbeat Hlen Hfree.
  destruct (isColumnFilled_total (grid s)) as [filled Hfilled];
    [rewrite Hlen; reflexivity |].
  exists (fallenState s filled).
  split.
  { unfold reduceState, Tick.getElapsed. cbn [negb orb]. rewrite Hbeat.
    cbn [Z.eqb applyAction]. unfold Tick.apply.
    rewrite Hfree. cbn [bind]. rewrite Hon, Hfilled. reflexivity. }
  cbn [fallenState gameEnd activeBlock].
  split; [reflexivity |]. split; [exact Hfilled |].
  split; [now rewrite map_map |]. split; [now rewrite map_map |].
  apply forallb_forall. intros moved Hmoved.
  apply in_map_iff in Hmoved. destruct Hmoved as (cube & Hmoved & Hcube). subst moved.
  unfold onFreeCell. cbn [moveCube grid_row grid_col].
  apply (fallConditions_free (grid s)).
  exact (checkBlockCollision_false _ _ Hfree cube Hcube).
Qed.

Lemma Tick_moves_block_down_witness :
  exists s',
    reduceState 20 initialState (Tick 0) = Ok s'
    /\ map position (activeBlock s') = [(1, 4); (1, 5); (2, 4); (2, 5)].
Proof.
  destruct (Tick_moves_block_down 20 0 initialState) as (s' & Hstep & _ & _ & Hpos & _).
  - reflexivity.
  - reflexivity.
  - reflexivity.
  - vm_compute. reflexivity.
  - exists s'. split; [exact Hstep |]. rewrite Hpos. vm_compute. reflexivity.
Defined.

Lemma cellNotNull_Ok (g : Grid) (row col : Z) (b : bool) :
  cellNotNull g row col = Ok b -> b = negb (cellFree g row col).
Proof.
  unfold cellNotNull, cellFree.
  destruct (nthZ g row) as [cells |]; [| discriminate].
  destruct (nthZ cells col) as [[q |] |]; intros H; injection H as H; now subst b.
Qed.

Lemma filterM_Ok {A : Type} (p : A -> result bool) (q : A -> bool) (a kept : list A) :
  (forall v b, In v a -> p v = Ok b -> b = q v) ->
  filterM p a = Ok kept -> kept = filter q a.
Proof.
  revert kept. induction a as [| v rest IH]; intros kept Hp H.
  - injection H as H. now subst kept.
  - cbn [filterM] in H.
    destruct (p v) as [keep | |] eqn:Hv; cbn [bind] in H; try discriminate H.
    destruct (filterM p rest) as [kept' | |] eqn:Hrest; cbn [bind] in H;
      try discriminate H.
    injection H as H. subst kept. cbn [filter].
    rewrite <- (Hp v keep (or_introl eq_refl) Hv).
    rewrite (IH kept' (fun w b Hw => Hp w b (or_intror Hw)) eq_refl). reflexivity.
Qed.

(** When the collision test of a block returns, it returns whether some
    cube satisfies the reading [q] of the conditions. *)
Lemma checkBlockCollision_Ok (conditions : list (Cube -> result bool))
  (q : Cube -> bool) (block : Block) (collides : bool) :
  (forall cube b, In cube block -> checkCollisions conditions cube = Ok b -> b = q cube) ->
  checkBlockCollision conditions block = Ok collides ->
  collides = existsb q block.
Proof.
  intros Hq H. unfold checkBlockCollision in H.
  destruct (filterM _ block) as [kept | |] eqn:Hkept; cbn [bind] in H; try discriminate H.
  injection H as H. subst collides.
  rewrite (filterM_Ok _ q block kept Hq Hkept). apply length_filter_positive.
Qed.

Lemma side_check_Ok (g : Grid) (direction : Z) (cube : Cube) (b : bool) :
  direction = 1 \/ direction = -1 ->
  checkCollisions
    [fun cube => if direction >? 0 then cantMoveRight g cube else cantMoveLeft g cube]
    cube = Ok b ->
  b = sideBlocked g direction cube.
Proof.
  intros Hdir H. cbn [checkCollisions] in H. unfold sideBlocked.
  destruct Hdir as [Hdir | Hdir]; subst direction; cbn [Z.gtb Z.compare] in *.
  - unfold cantMoveRight in H.
    destruct (grid_col cube >=? GRID_RANGE.NUM_OF_COLUMNS - 1); cbn [bind orb] in *.
    + injection H as H. now symmetry.
    + destruct (cellNotNull g (grid_row cube) (grid_col cube + 1)) as [holds | |] eqn:Hcell;
        cbn [bind] in H; try discriminate H.
      apply cellNotNull_Ok in Hcell. rewrite <- Hcell.
      destruct holds; injection H as H; now symmetry.
  - unfold cantMoveLeft in H.
    change (grid_col cube + -1) with (grid_col cube - 1).
    destruct (grid_col cube <=? 0); cbn [bind orb] in *.
    + injection H as H. now symmetry.
    + destruct (cellNotNull g (grid_row cube) (grid_col cube - 1)) as [holds | |] eqn:Hcell;
        cbn [bind] in H; try discriminate H.
      apply cellNotNull_Ok in Hcell. rewrite <- Hcell.
      destruct holds; injection H as H; now symmetry.
Qed.

(** X9.  [Move] by one column leaves the state as it is exactly when some
    cube of the active block is blocked on that side (it is in the last
    column, or the cell next to it is not an existing empty cell);
    otherwise it shifts every cube of the active block by [direction]
    within its row, onto an existing empty cell of the grid.  Nothing but
    the active block changes. *)
Theorem Move_lands_on_free_cells (fuel : nat) (direction : Z) (s s' : State) :
  direction = 1 \/ direction = -1 ->
  reduceState fuel s (Move direction) = Ok s' ->
  (existsb (sideBlocked (grid s) direction) (activeBlock s) = true -> s' = s)
  /\ (existsb (sideBlocked (grid s) direction) (activeBlock s) = false ->
      s' = withActiveBlock s (map (Move.updateCubeX direction) (activeBlock s))
      /\ map position (activeBlock s')
         = map (fun q => (grid_row q, grid_col q + direction)) (activeBlock s)
      /\ forallb (onFreeCell (grid s)) (activeBlock s') = true).
Proof.
  intros Hdir H. unfold reduceState in H. cbn [negb orb applyAction] in H.
  unfold Move.apply in H.
  destruct (checkBlockCollision _ (activeBlock s)) as [blocked | |] eqn:Hblocked;
    cbn [bind] in H; try discriminate H.
  injection H as H. subst s'.
  assert (Hany : blocked = existsb (sideBlocked (grid s) direction) (activeBlock s)).
  { apply (checkBlockCollision_Ok _ _ _ _ (fun cube b _ => side_check_Ok _ _ cube b Hdir)
             Hblocked). }
  rewrite <- Hany. split.
  - intros Htrue. subst blocked. rewrite Htrue. apply withActiveBlock_same.
  - intros Hfalse. rewrite Hfalse. split; [reflexivity |].
    rewrite withActiveBlock_activeBlock.
    split; [now rewrite map_map |].
    apply forallb_forall. intros moved Hmoved.
    apply in_map_iff in Hmoved. destruct Hmoved as (cube & Hmoved & Hcube). subst moved.
    unfold onFreeCell, Move.updateCubeX. cbn [grid_row grid_col].
    rewrite Hany in Hfalse.
    assert (Hcube' : sideBlocked (grid s) direction cube = false).
    { destruct (sideBlocked (grid s) direction cube) eqn:Hside; [| reflexivity].
      assert (Hex : existsb (sideBlocked (grid s) direction) (activeBlock s) = true)
        by (apply existsb_exists; now exists cube).
      congruence. }
    unfold sideBlocked in Hcube'. apply orb_false_iff in Hcube'.
    destruct Hcube' as [_ Hfree]. now apply negb_false_iff in Hfree.
Qed.

Lemma Move_lands_on_free_cells_witness :
  exists s',
    reduceState 20 initialState (Move 1) = Ok s'
    /\ map position (activeBlock s') = [(0, 5); (0, 6); (1, 5); (1, 6)].
Proof.
  destruct (reduceState 20 initialState (Move 1)) as [s' | |] eqn:Hstep;
    try (vm_compute in Hstep; discriminate Hstep).
  exists s'. split; [reflexivity |].
  destruct (Move_lands_on_free_cells 20 1 initialState s' (or_introl eq_refl) Hstep)
    as [_ Hmoved].
  destruct Hmoved as (_ & Hpos & _); [vm_compute; reflexivity |].
  rewrite Hpos. vm_compute. reflexivity.
Defined.

Lemma rotation_check_free (g : Grid) (cube : Cube) :
  checkCollisions
    [checkCurrentCell g; total checkCubeRowExceedsBoundaries;
     total checkCubeColExceedsBoundaries] cube = Ok false ->
  onFreeCell g cube = true
  /\ 0 <= grid_row cube < GRID_RANGE.NUM_OF_ROWS - 1
  /\ 0 <= grid_col cube <= GRID_RANGE.NUM_OF_COLUMNS - 1.
Proof.
  intros H. pose proof (rotation_check_false g cube H) as Hin. apply inGrid_iff in Hin.
  cbn [checkCollisions] in H. unfold total in H. step_bind H.
  destruct a; [discriminate H |]. cbn [bind] in H.
  destruct (checkCubeRowExceedsBoundaries cube) eqn:Hrow; [discriminate H |].
  split; [apply cellNotNull_false_iff; exact E |].
  unfold checkCubeRowExceedsBoundaries in Hrow. apply orb_false_iff in Hrow.
  destruct Hrow as [Hhi _]. rewrite Z.geb_leb in Hhi. apply Z.leb_gt in Hhi. lia.
Qed.

Lemma rotation_check_Ok (g : Grid) (cube : Cube) (b : bool) :
  checkCollisions
    [checkCurrentCell g; total checkCubeRowExceedsBoundaries;
     total checkCubeColExceedsBoundaries] cube = Ok b ->
  b = rotationBlocked g cube.
Proof.
  cbn [checkCollisions]. unfold total, checkCurrentCell, rotationBlocked, onFreeCell.
  intros H.
  destruct (cellNotNull g (grid_row cube) (grid_col cube)) as [holds | |] eqn:Hcell;
    cbn [bind] in H; try discriminate H.
  apply cellNotNull_Ok in Hcell. rewrite <- Hcell.
  destruct holds; cbn [orb]; [injection H as H; now symmetry |].
  destruct (checkCubeRowExceedsBoundaries cube); cbn [orb];
    [injection H as H; now symmetry |].
  destruct (checkCubeColExceedsBoundaries cube); injection H as H; now symmetry.
Qed.

(** X10.  Whenever [Rotate] returns: without a cube marked centre (as in
    the "O" block) the state is as it was.  With a centre cube, the state is
    as it was exactly when some turned cube is refused (its cell is not an
    existing empty cell, or its row or column exceeds the boundaries);
    otherwise the active block is replaced by the block with every cube
    turned about the centre cube.  Then every cube of the new block is on an
    existing empty cell of the grid, in rows 0-18 and columns 0-9, the
    centre cube has kept its cell, and the ids and centre marks are those of
    the old cubes, in order. *)
Theorem Rotate_result (fuel : nat) (direction : Direction) (s s' : State) :
  reduceState fuel s (Rotate direction) = Ok s' ->
  (find (fun cube => Bool.eqb (center cube) true) (activeBlock s) = None -> s' = s)
  /\ (forall pivot,
        find (fun cube => Bool.eqb (center cube) true) (activeBlock s) = Some pivot ->
        let rotated := map (Rotate.rotateCube direction pivot) (activeBlock s) in
        (existsb (rotationBlocked (grid s)) rotated = true -> s' = s)
        /\ (existsb (rotationBlocked (grid s)) rotated = false ->
            s' = withActiveBlock s rotated
            /\ position (Rotate.rotateCube direction pivot pivot) = position pivot
            /\ map id (activeBlock s') = map id (activeBlock s)
            /\ map center (activeBlock s') = map center (activeBlock s)
            /\ forallb (onFreeCell (grid s)) (activeBlock s') = true
            /\ forallb (fun q => (0 <=? grid_row q) && (grid_row q <=? 18)
                                 && (0 <=? grid_col q) && (grid_col q <=? 9))
                 (activeBlock s') = true)).
Proof.
  intros H. unfold reduceState in H. cbn [negb orb applyAction] in H.
  unfold Rotate.apply in H.
  destruct (find _ (activeBlock s)) as [pivot |] eqn:Hpivot.
  - split; [discriminate |].
    intros pivot' Hpivot'. injection Hpivot' as Hpivot'. subst pivot'. cbv zeta.
    step_bind H. injection H as H. subst s'.
    unfold Rotate.canRotate in E. apply not_Ok in E.
    pose proof (checkBlockCollision_Ok _ _ _ _
                  (fun cube b _ => rotation_check_Ok (grid s) cube b) E) as Hany.
    rewrite <- Hany. split.
    + intros Hrefused. apply negb_true_iff in Hrefused. subst a.
      apply withActiveBlock_same.
    + intros Haccepted. apply negb_false_iff in Haccepted. subst a.
      split; [reflexivity |].
      rewrite withActiveBlock_activeBlock.
      split.
      { unfold position, Rotate.rotateCube. destruct direction; cbn [grid_row grid_col];
          f_equal; lia. }
      split; [now rewrite map_map |]. split; [now rewrite map_map |].
      cbn [negb] in E.
      split; apply forallb_forall; intros q Hq;
        destruct (rotation_check_free (grid s) q (checkBlockCollision_false _ _ E q Hq))
          as (Hfree & Hrow & Hcol).
      * exact Hfree.
      * change GRID_RANGE.NUM_OF_ROWS with 20 in Hrow.
        change GRID_RANGE.NUM_OF_COLUMNS with 10 in Hcol.
        rewrite !andb_true_iff, !Z.leb_le. lia.
  - injection H as H. subst s'.
    split; [intros _; apply withActiveBlock_same | discriminate].
Qed.

Lemma Rotate_result_witness :
  exists s',
    reduceState 20 (stateAfter firstLock) (Rotate clockwise) = Ok s'
    /\ map position (activeBlock s') = [(1, 6); (0, 5); (1, 5); (2, 5)]
    /\ forallb (onFreeCell (grid (stateAfter firstLock))) (activeBlock s') = true.
Proof.
  destruct (reduceState 20 (stateAfter firstLock) (Rotate clockwise)) as [s' | |] eqn:Hstep;
    try (vm_compute in Hstep; discriminate Hstep).
  exists s'.
  destruct (Rotate_result 20 clockwise (stateAfter firstLock) s' Hstep) as [_ Hturn].
  destruct (find (fun cube => Bool.eqb (center cube) true)
              (activeBlock (stateAfter firstLock))) as [pivot |] eqn:Hpivot;
    [| vm_compute in Hpivot; discriminate Hpivot].
  destruct (Hturn pivot eq_refl) as [_ Haccepted].
  destruct Haccepted as (_ & _ & _ & _ & Hfree & _).
  - vm_compute in Hpivot. injection Hpivot as Hpivot. subst pivot.
    vm_compute. reflexivity.
  - split; [reflexivity |]. split; [| exact Hfree].
    vm_compute in Hstep. injection Hstep as Hs'. subst s'. vm_compute. reflexivity.
Defined.

Lemma rotation_check_throws (g : Grid) (cube : Cube) :
  (checkCollisions
     [checkCurrentCell g; total checkCubeRowExceedsBoundaries;
      total checkCubeColExceedsBoundaries] cube = TypeError
   <-> ~ (0 <= grid_row cube < Z.of_nat (List.length g)))
  /\ checkCollisions
       [checkCurrentCell g; total checkCubeRowExceedsBoundaries;
        total checkCubeColExceedsBoundaries] cube <> OutOfFuel.
Proof.
  cbn [checkCollisions]. unfold total, checkCurrentCell, cellNotNull.
  destruct (nthZ g (grid_row cube)) as [cells |] eqn:Hcells.
  - pose proof (nthZ_Some_range _ _ _ Hcells) as Hrange.
    destruct (nthZ cells (grid_col cube)) as [[q |] |]; cbn [bind];
      try (split; [split; [discriminate | tauto] | discriminate]).
    destruct (checkCubeRowExceedsBoundaries cube); cbn [bind];
      [split; [split; [discriminate | tauto] | discriminate] |].
    destruct (checkCubeColExceedsBoundaries cube);
      split; try discriminate; split; (discriminate || tauto).
  - cbn [bind]. split; [| discriminate]. split; [intros _ | reflexivity].
    intros Hrange. destruct (nthZ_in_range g _ Hrange) as [cells Hsome]. congruence.
Qed.

(** X11.  [Rotate] throws exactly when the block has a centre cube and the
    rotation puts some cube in a row that is not a row of the grid: the
    occupancy test reads that row before the boundary tests are reached.  A
    rotated cube whose column alone is outside the grid does not make it
    throw. *)
Theorem Rotate_throws_iff (fuel : nat) (direction : Direction) (s : State) :
  reduceState fuel s (Rotate direction) = TypeError
  <-> exists pivot cube,
        find (fun q => Bool.eqb (center q) true) (activeBlock s) = Some pivot
        /\ In cube (activeBlock s)
        /\ ~ (0 <= grid_row (Rotate.rotateCube direction pivot cube)
              < Z.of_nat (List.length (grid s))).
Proof.
  unfold reduceState. cbn [negb orb applyAction]. unfold Rotate.apply.
  destruct (find _ (activeBlock s)) as [pivot |].
  - set (rotated := map (Rotate.rotateCube direction pivot) (activeBlock s)).
    assert (Hthrows :
              filterM (checkCollisions
                         [checkCurrentCell (grid s); total checkCubeRowExceedsBoundaries;
                          total checkCubeColExceedsBoundaries]) rotated = TypeError
              <-> exists q, In q rotated
                            /\ ~ (0 <= grid_row q < Z.of_nat (List.length (grid s)))).
    { rewrite filterM_throws by (intros q _; apply rotation_check_throws).
      split; intros (q & Hq & H); exists q; (split; [exact Hq |]);
        apply (proj1 (rotation_check_throws (grid s) q)); exact H. }
    unfold Rotate.canRotate, not, checkBlockCollision.
    destruct (filterM _ rotated) as [kept | |] eqn:Hfilter; cbn [bind].
    + split; [discriminate |]. intros (pivot' & cube & Hpivot & Hcube & Hrow).
      injection Hpivot as Hpivot. subst pivot'.
      assert (Hsome : exists q, In q rotated
                                /\ ~ (0 <= grid_row q < Z.of_nat (List.length (grid s)))).
      { eexists. split; [apply in_map; exact Hcube | exact Hrow]. }
      apply Hthrows in Hsome. discriminate Hsome.
    + split; [intros _ | reflexivity].
      destruct (proj1 Hthrows eq_refl) as (q & Hq & Hrow).
      apply in_map_iff in Hq. destruct Hq as (cube & Hq & Hcube). subst q.
      exists pivot, cube. repeat split; assumption.
    + split; [discriminate |]. intros (pivot' & cube & Hpivot & Hcube & Hrow).
      injection Hpivot as Hpivot. subst pivot'.
      assert (Hsome : exists q, In q rotated
                                /\ ~ (0 <= grid_row q < Z.of_nat (List.length (grid s)))).
      { eexists. split; [apply in_map; exact Hcube | exact Hrow]. }
      apply Hthrows in Hsome. discriminate Hsome.
  - split; [discriminate |]. intros (pivot & cube & Hpivot & _). discriminate Hpivot.
Qed.

Lemma moveCube_again (amount : Z) (q : Cube) :
  moveCube amount (moveCube 1 q) = moveCube (amount + 1) q.
Proof.
  unfold moveCube. cbn [id x y grid_row grid_col width height style center].
  replace (grid_row q + 1 + amount) with (grid_row q + (amount + 1)) by lia.
  reflexivity.
Qed.

Lemma Drop_shape (fuel : nat) (s s' : State) :
  Drop.apply fuel s = Ok s' ->
  s' = s
  \/ exists amount,
       1 <= amount
       /\ s' = withActiveBlock s (map (moveCube amount) (activeBlock s))
       /\ checkBlockCollision
            [total checkCubeRowExceedsBoundaries; cantMoveDown (grid s)] (activeBlock s')
          = Ok false.
Proof.
  revert s. induction fuel as [| fuel IH]; intros s H; [discriminate |].
  cbn [Drop.apply] in H. step_bind H. apply not_Ok in E.
  destruct a; cbn [negb] in E; [| injection H as H; now left].
  right. rewrite withActiveBlock_activeBlock in E.
  apply IH in H. destruct H as [Hs' | (amount & Hamount & Hs' & Hfree)].
  - exists 1. split; [lia |]. subst s'. split; [reflexivity | exact E].
  - exists (amount + 1). split; [lia |]. split; [| exact Hfree].
    rewrite Hs', withActiveBlock_twice, withActiveBlock_activeBlock, map_map.
    f_equal. apply map_ext. intros q. apply moveCube_again.
Qed.

(** X12.  [Drop] changes nothing but the active block, which it moves
    straight down by some number of rows (possibly none), pixel y
    recomputed.  When it moves the block, every cube ends in rows 0-18 with
    an existing empty cell directly below it, because the loop tests the
    position one row further down than the one it returns. *)
Theorem Drop_moves_straight_down (fuel : nat) (s s' : State) :
  reduceState fuel s Drop = Ok s' ->
  s' = s
  \/ exists amount,
       1 <= amount
       /\ s' = withActiveBlock s (map (moveCube amount) (activeBlock s))
       /\ map position (activeBlock s')
          = map (fun q => (grid_row q + amount, grid_col q)) (activeBlock s)
       /\ forallb (fun q => (0 <=? grid_row q) && (grid_row q <=? 18)
                            && cellFree (grid s) (grid_row q + 1) (grid_col q))
            (activeBlock s') = true.
Proof.
  intros H. unfold reduceState in H. cbn [negb orb applyAction] in H.
  apply Drop_shape in H. destruct H as [Hs' | (amount & Hamount & Hs' & Hfree)];
    [now left |].
  right. exists amount. split; [exact Hamount |]. split; [exact Hs' |].
  split; [rewrite Hs', withActiveBlock_activeBlock, map_map; reflexivity |].
  apply forallb_forall. intros q Hq.
  destruct (fallConditions_free (grid s) q (checkBlockCollision_false _ _ Hfree q Hq))
    as [Hrow Hcell].
  change GRID_RANGE.NUM_OF_ROWS with 20 in Hrow.
  rewrite Hcell, !andb_true_iff, !Z.leb_le. lia.
Qed.

Lemma Drop_moves_straight_down_witness :
  exists s',
    reduceState 20 initialState Drop = Ok s'
    /\ map position (activeBlock s') = [(17, 4); (17, 5); (18, 4); (18, 5)].
Proof.
  destruct (reduceState 20 initialState Drop) as [s' | |] eqn:Hstep;
    try (vm_compute in Hstep; discriminate Hstep).
  exists s'. split; [reflexivity |].
  destruct (Drop_moves_straight_down 20 initialState s' Hstep)
    as [Hsame | (amount & _ & _ & _ & _)].
  - subst s'. vm_compute in Hstep. discriminate Hstep.
  - vm_compute in Hstep. injection Hstep as Hs'. subst s'. vm_compute. reflexivity.
Defined.

(** X13.  Dropping twice is dropping once: from the state that [Drop]
    returns, a second [Drop] returns the same state at its first test. *)
Theorem Drop_twice (fuel fuel' : nat) (s s' : State) :
  reduceState fuel s Drop = Ok s' ->
  reduceState (S fuel') s' Drop = Ok s'.
Proof.
  intros H. unfold reduceState in *. cbn [negb orb applyAction] in *.
  apply Drop_result_blocked in H. destruct H as [_ Hblocked].
  cbn [Drop.apply]. unfold not. rewrite withActiveBlock_activeBlock, Hblocked.
  reflexivity.
Qed.

Lemma Drop_twice_witness :
  reduceState 1 (stateAfter (firstLock ++ [Drop])) Drop
  = Ok (stateAfter (firstLock ++ [Drop])).
Proof.
  apply (Drop_twice 20 0 (stateAfter firstLock)). vm_compute. reflexivity.
Defined.

(** X14.  On a state whose active block is empty [Drop] never returns: the
    empty block passes the collision test at every call, so the recursion
    does not end (no amount of fuel suffices). *)
Theorem Drop_on_empty_block_runs_forever (fuel : nat) (s : State) :
  activeBlock s = [] -> reduceState fuel s Drop = OutOfFuel.
Proof.
  unfold reduceState. cbn [negb orb applyAction].
  revert s. induction fuel as [| fuel IH]; intros s Hempty; [reflexivity |].
  cbn [Drop.apply]. rewrite withActiveBlock_activeBlock, Hempty. cbn.
  apply IH. reflexivity.
Qed.

Lemma Drop_on_empty_block_runs_forever_witness :
  reduceState 1000 (withActiveBlock initialState []) Drop = OutOfFuel.
Proof.
  apply Drop_on_empty_block_runs_forever. reflexivity.
Defined.

(** ** The lock of a block *)

Lemma checkCurrentCell_in_grid (g : Grid) (cube : Cube) :
  hasGridShape g = true ->
  inGrid cube = true ->
  checkCurrentCell g cube = Ok (onOccupiedCell g cube).
Proof.
  intros Hshape Hin. apply inGrid_iff in Hin.
  destruct (cell_in_shaped_grid g (grid_row cube) (grid_col cube) Hshape)
    as (cells & cell & Hcells & Hcell); [lia | lia |].
  unfold checkCurrentCell, cellNotNull, onOccupiedCell, cellAt.
  rewrite Hcells, Hcell. destruct cell; reflexivity.
Qed.

Lemma spawn_overlap_is_any (g : Grid) (block : Block) :
  hasGridShape g = true ->
  forallb inGrid block = true ->
  checkBlockCollision [checkCurrentCell g] block = Ok (existsb (onOccupiedCell g) block).
Proof.
  intros Hshape Hin. unfold checkBlockCollision.
  rewrite (filterM_pure _ (onOccupiedCell g)).
  - cbn [bind]. now rewrite length_filter_positive.
  - intros cube Hcube. cbn [checkCollisions].
    rewrite forallb_forall in Hin.
    rewrite (checkCurrentCell_in_grid g cube Hshape (Hin cube Hcube)). cbn [bind].
    destruct (onOccupiedCell g cube); reflexivity.
Qed.

(** X15.  The lock.  While the game is on, a Tick that passes the gate and
    finds the active block colliding commits the block to the grid and
    makes a new block from the preview shape with spawn counter
    [4 + objCount].  If a cell of the new block is occupied in the committed
    grid, the active block is not replaced and the game ends; otherwise the
    new block becomes active and the game ends only if row 0 of the
    committed grid is occupied.  Both are decided before any row is cleared.
    The preview becomes the staged shape and [objCount] grows by 4.  The new
    grid is the committed grid when no row that the block touches is full,
    and otherwise the committed grid with the full touched rows removed;
    the cubes of these rows are appended to [clearBlocks] and the score
    grows by 10 for each of them. *)
Theorem Tick_locks_block (fuel : nat) (elapsed : Z) (s : State) :
  gameEnd s = false ->
  Z.rem elapsed (speedMultiplier s) = 0 ->
  hasGridShape (grid s) = true ->
  forallb inGrid (activeBlock s) = true ->
  In (shapePreview s) Tetrimino.TETRIMINO_TYPES ->
  checkBlockCollision
    [total checkCubeRowExceedsBoundaries; cantMoveDown (grid s)] (activeBlock s)
  = Ok true ->
  let committed := setBlockInArray (grid s) (activeBlock s) in
  let rows := filter (rowFull committed) (getRecentlyPlacedRows (activeBlock s)) in
  exists s' newBlock filled,
    reduceState fuel s (Tick elapsed) = Ok s'
    /\ createBlock (shapePreview s) (Tetrimino.TETRIMINO_SIZE + objCount s) = Ok newBlock
    /\ isColumnFilled committed = Ok filled
    /\ activeBlock s'
       = (if existsb (onOccupiedCell committed) newBlock then activeBlock s else newBlock)
    /\ gameEnd s' = filled || existsb (onOccupiedCell committed) newBlock
    /\ shapePreview s' = randomTetriminoType s
    /\ randomTetriminoType s' = randomTetriminoType s
    /\ objCount s' = objCount s + 4
    /\ highScore s' = highScore s
    /\ grid s' = match rows with
                 | [] => committed
                 | _ :: _ => removeRowsAndShiftDown committed rows
                 end
    /\ clearBlocks s' = clearBlocks s ++ getRemovedCubes committed rows
    /\ score s' = score s + 10 * Z.of_nat (List.length rows).
Proof.
  intros Hon Hbeat Hshape Hblock Hpreview Hlock committed rows.
  destruct (hasGridShape_spec _ Hshape) as [Hlen _].
  assert (Hshape' : hasGridShape committed = true)
    by (apply setBlockInArray_shape; exact Hshape).
  destruct (hasGridShape_spec _ Hshape') as [Hlen' _].
  destruct (createBlock_known (shapePreview s) (Tetrimino.TETRIMINO_SIZE + objCount s) Hpreview)
    as [newBlock HnewBlock].
  pose proof (spawned_block_inGrid _ _ _ HnewBlock) as Hnew.
  destruct (createBlock_facts _ _ _ HnewBlock) as (Hfour & _).
  pose proof (spawn_overlap_is_any committed newBlock Hshape' Hnew) as Hoverlap.
  assert (Hrows : getDeletingRows committed (getRecentlyPlacedRows (activeBlock s))
                  = Ok rows).
  { apply getDeletingRows_in_range. intros row Hrow.
    unfold committed. rewrite setBlockInArray_length.
    exact (touched_rows_in_grid (grid s) (activeBlock s) Hlen Hblock row Hrow). }
  destruct (isColumnFilled_total committed) as [filled Hfilled];
    [rewrite Hlen'; reflexivity |].
  assert (Hfour' : Z.of_nat (List.length newBlock) = 4) by exact Hfour.
  assert (Hstep : reduceState fuel s (Tick elapsed) = Tick.handleCollisions s).
  { unfold reduceState, Tick.getElapsed. cbn [negb orb]. rewrite Hbeat.
    cbn [Z.eqb applyAction]. unfold Tick.apply. rewrite Hlock. cbn [bind].
    rewrite Hon. reflexivity. }
  rewrite Hstep. unfold Tick.handleCollisions. fold committed.
  rewrite HnewBlock. cbn [bind]. rewrite Hoverlap. cbn [bind].
  rewrite Hrows. cbn [bind]. rewrite Hfilled. rewrite Hfour'.
  clearbody rows. destruct rows as [| row rest].
  - cbn [List.length Z.of_nat Z.gtb Z.compare bind].
    eexists. exists newBlock, filled. split; [reflexivity |].
    split; [reflexivity |]. split; [reflexivity |].
    cbn [activeBlock gameEnd shapePreview randomTetriminoType objCount highScore grid
           clearBlocks score].
    rewrite getRemovedCubes_nil, app_nil_r, Z.mul_0_r, Z.add_0_r.
    destruct (existsb (onOccupiedCell committed) newBlock); repeat split; reflexivity.
  - assert (Hany : (Z.of_nat (List.length (row :: rest)) >? 0) = true)
      by (cbn [List.length]; apply Z.gtb_lt; lia).
    rewrite Hany. cbn [bind].
    eexists. exists newBlock, filled. split; [reflexivity |].
    split; [reflexivity |]. split; [reflexivity |].
    cbn [Tick.handleBlockClear activeBlock gameEnd shapePreview randomTetriminoType
           objCount highScore grid clearBlocks score].
    change GRID_RANGE.NUM_OF_COLUMNS with 10.
    destruct (existsb (onOccupiedCell committed) newBlock); repeat split; reflexivity.
Qed.

Lemma Tick_locks_block_witness :
  exists s',
    reduceState 20 (stateAfter (beats 0 18)) (Tick 1800) = Ok s'
    /\ map position (activeBlock s') = [(0, 5); (1, 4); (1, 5); (1, 6)]
    /\ objCount s' = 8.
Proof.
  destruct (Tick_locks_block 20 1800 (stateAfter (beats 0 18)))
    as (s' & newBlock & filled & Hstep & Hnew & _ & Hactive & _ & _ & _ & Hcount & _).
  - vm_compute. reflexivity.
  - vm_compute. reflexivity.
  - vm_compute. reflexivity.
  - vm_compute. reflexivity.
  - vm_compute. tauto.
  - vm_compute. reflexivity.
  - exists s'. split; [exact Hstep |]. split.
    + rewrite Hactive. vm_compute in Hnew. injection Hnew as Hnew. subst newBlock.
      vm_compute. reflexivity.
    + rewrite Hcount. vm_compute. reflexivity.
Defined.

(** ** Score, level and spawn counter along a game *)

Lemma lock_result_fields (s : State) (newBlock : Block) (overlap filled : bool)
  (rows : list Z) :
  let s' := if Z.of_nat (List.length rows) >? 0
            then Tick.handleBlockClear
                   (lockedState s newBlock overlap filled (shapePreview s)) rows
            else lockedState s newBlock overlap filled (randomTetriminoType s) in
  score s' = score s + 10 * Z.of_nat (List.length rows)
  /\ (level s' = level s /\ rows = [] \/ level s' = score s' / 10)
  /\ highScore s' = highScore s
  /\ objCount s' = objCount s + Z.of_nat (List.length newBlock)
  /\ gameEnd s' = filled || overlap.
Proof.
  cbv zeta. destruct (Z.of_nat (List.length rows) >? 0) eqn:Hany.
  - cbn [Tick.handleBlockClear lockedState score level highScore objCount gameEnd].
    change GRID_RANGE.NUM_OF_COLUMNS with 10. repeat split. now right.
  - cbn [lockedState score level highScore objCount gameEnd].
    assert (Hrows : rows = []).
    { destruct rows; [reflexivity |]. cbn [List.length] in Hany.
      rewrite Z.gtb_ltb in Hany. apply Z.ltb_ge in Hany. lia. }
    subst rows. cbn [List.length]. repeat split; try lia. now left.
Qed.

(** X16.  In every state that a game can reach the score is a non-negative
    multiple of 10, the level is the score divided by 10, the high score is
    a non-negative multiple of 10, and the modulus of the Tick gate,
    [speedMultiplier], lies between 10 and 100; it is never zero. *)
Theorem reachable_score_level (s : State) :
  reachable s ->
  0 <= score s
  /\ score s mod 10 = 0
  /\ level s = score s / 10
  /\ 0 <= highScore s
  /\ highScore s mod 10 = 0
  /\ Constants.MAX_SPEED <= speedMultiplier s <= Constants.INITIAL_SPEED.
Proof.
  intros Hreach.
  assert (Hscores : 0 <= score s /\ score s mod 10 = 0 /\ level s = score s / 10
                    /\ 0 <= highScore s /\ highScore s mod 10 = 0).
  { revert s Hreach. apply reachable_induction.
    - vm_compute. repeat split; congruence.
    - intros fuel s a s' _ _ (Hscore & Hten & Hlevel & Hhigh & Hhigh10) Hstep.
      apply step_cases in Hstep.
      destruct Hstep as [Hs' | [[index Hs'] | [(f & _ & Hs') | [(filled & _ & Hs')
        | [(newBlock & overlap & filled & rows & _ & _ & _ & Hs')
          | (newBlock & _ & _ & _ & Hs')]]]]].
      + subst s'. repeat split; assumption.
      + subst s'. cbn [GenerateBlock.apply score level highScore].
        repeat split; assumption.
      + subst s'. unfold withActiveBlock. cbn [score level highScore].
        repeat split; assumption.
      + subst s'. cbn [fallenState score level highScore]. repeat split; assumption.
      + pose proof (lock_result_fields s newBlock overlap filled rows) as Hfields.
        cbv zeta in Hfields. rewrite <- Hs' in Hfields.
        destruct Hfields as (Hscore' & Hlevel' & Hhigh' & _).
        rewrite Hhigh'.
        assert (Hten' : score s' mod 10 = 0).
        { rewrite Hscore'.
          replace (score s + 10 * Z.of_nat (List.length rows))
            with (score s + Z.of_nat (List.length rows) * 10) by lia.
          rewrite Z.mod_add by lia. exact Hten. }
        repeat split; try assumption; try lia.
        destruct Hlevel' as [[Hsame Hrows] | Hnew]; [| exact Hnew].
        subst rows. cbn [List.length] in Hscore'.
        rewrite Hsame, Hlevel. f_equal. lia.
      + subst s'. cbn [restartedState score level highScore].
        rewrite max_is_Zmax. repeat split; try reflexivity; try lia.
        apply Z.max_case; assumption. }
  destruct Hscores as (Hscore & Hten & Hlevel & Hhigh & Hhigh10).
  repeat split; try assumption.
  - unfold speedMultiplier. rewrite max_is_Zmax. lia.
  - unfold speedMultiplier. rewrite max_is_Zmax.
    assert (0 <= level s) by (rewrite Hlevel; apply Z.div_pos; lia).
    change Constants.INITIAL_SPEED with 100. change Constants.MAX_SPEED with 10. lia.
Qed.

Lemma reachable_score_level_witness :
  score (stateAfter (beforeClear ++ [Tick 7400])) = 10
  /\ level (stateAfter (beforeClear ++ [Tick 7400])) = 10 / 10
  /\ 10 <= speedMultiplier (stateAfter (beforeClear ++ [Tick 7400])) <= 100.
Proof.
  destruct (reachable_score_level (stateAfter (beforeClear ++ [Tick 7400])))
    as (_ & _ & Hlevel & _ & _ & Hspeed).
  - exists 20%nat, (beforeClear ++ [Tick 7400]). split; vm_compute; reflexivity.
  - split; [vm_compute; reflexivity |]. split; [| exact Hspeed].
    rewrite Hlevel. vm_compute. reflexivity.
Defined.

(** X17.  What one transition does to the counters.  The spawn counter
    [objCount] never decreases.  Unless the transition is the Restart of an
    ended game, the score does not decrease, the high score is unchanged and
    an ended game stays ended: the high score is updated by nothing but a
    Restart. *)
Theorem step_counters (fuel : nat) (s s' : State) (a : Action) :
  reduceState fuel s a = Ok s' ->
  objCount s <= objCount s'
  /\ (a <> Restart \/ gameEnd s = false ->
      score s <= score s'
      /\ highScore s' = highScore s
      /\ (gameEnd s = true -> gameEnd s' = true)).
Proof.
  intros Hstep. apply step_cases in Hstep.
  destruct Hstep as [Hs' | [[index Hs'] | [(f & _ & Hs') | [(filled & Hon & Hs')
    | [(newBlock & overlap & filled & rows & Hon & _ & _ & Hs')
      | (newBlock & Ha & Hend & _ & Hs')]]]]].
  - subst s'. split; [lia |]. intros _. repeat split; [lia | tauto].
  - subst s'. cbn [GenerateBlock.apply objCount score highScore gameEnd].
    split; [lia |]. intros _. repeat split; [lia | tauto].
  - subst s'. unfold withActiveBlock. cbn [objCount score highScore gameEnd].
    split; [lia |]. intros _. repeat split; [lia | tauto].
  - subst s'. cbn [fallenState objCount score highScore gameEnd].
    split; [lia |]. intros _. repeat split; [lia | congruence].
  - pose proof (lock_result_fields s newBlock overlap filled rows) as Hfields.
    cbv zeta in Hfields. rewrite <- Hs' in Hfields.
    destruct Hfields as (Hscore' & _ & Hhigh' & Hcount' & _).
    split; [lia |]. intros _. repeat split; [lia | exact Hhigh' | congruence].
  - subst s'. cbn [restartedState objCount].
    change Tetrimino.TETRIMINO_SIZE with 4. split; [lia |].
    intros [Hother | Hon]; [contradiction | congruence].
Qed.

Lemma step_counters_witness :
  objCount (stateAfter beforeClear) <= objCount (stateAfter (beforeClear ++ [Tick 7400]))
  /\ score (stateAfter beforeClear) <= score (stateAfter (beforeClear ++ [Tick 7400])).
Proof.
  destruct (step_counters 20 (stateAfter beforeClear)
              (stateAfter (beforeClear ++ [Tick 7400])) (Tick 7400))
    as (Hcount & Hrest).
  - vm_compute. reflexivity.
  - split; [exact Hcount |]. apply Hrest. left. discriminate.
Defined.

(** ** The cubes of a reachable state *)

Lemma cellAt_removeRowsAndShiftDown (g : Grid) (rows : list Z) (row col : Z) (q' : Cube) :
  cellAt (removeRowsAndShiftDown g rows) row col = Some q' ->
  exists q, In q (gridCubes g) /\ q' = shiftAbove rows q.
Proof.
  intros Hcell.
  destruct (cellAt_Some_range _ _ _ _ (generate2DArray_shape _) Hcell) as [Hrow Hcol].
  unfold removeRowsAndShiftDown in Hcell. cbv zeta in Hcell.
  rewrite cellAt_generate2DArray in Hcell by assumption.
  apply find_some in Hcell. destruct Hcell as [Hin _].
  apply in_map_iff in Hin. destruct Hin as (q & Hq' & Hq).
  exists q. split; [| now symmetry].
  rewrite (kept_cubes_of_grid (fun cube => negb (includes rows (grid_row cube)))) in Hq.
  apply filter_In in Hq. tauto.
Qed.

Lemma keepsCube_shiftAbove (rows : list Z) : keepsCube (shiftAbove rows).
Proof.
  split; intros q; unfold shiftAbove; destruct (ltMin _ _); try reflexivity; try tauto.
  apply moveCube_keeps_pixels.
Qed.

Lemma cellAt_emptyGrid (row col : Z) :
  cellAt (generate2DArray (fun _ _ => None)) row col = None.
Proof.
  destruct (cellAt (generate2DArray (fun _ _ => None)) row col) as [q |] eqn:Hcell;
    [| reflexivity].
  destruct (cellAt_Some_range _ _ _ _ (generate2DArray_shape _) Hcell) as [Hrow Hcol].
  rewrite cellAt_generate2DArray in Hcell by assumption. discriminate Hcell.
Qed.

(** The cubes of the grid after a lock, with or without cleared rows. *)
Lemma locked_grid_cubes (P : Cube -> Prop) (s s' : State) (newBlock : Block)
  (overlap filled : bool) (rows : list Z) :
  (forall f q, keepsCube f -> P q -> P (f q)) ->
  s' = (if Z.of_nat (List.length rows) >? 0
        then Tick.handleBlockClear
               (lockedState s newBlock overlap filled (shapePreview s)) rows
        else lockedState s newBlock overlap filled (randomTetriminoType s)) ->
  (forall q, In q (activeBlock s) -> P q) ->
  (forall q, In q (gridCubes (grid s)) -> P q) ->
  forall q, In q (gridCubes (grid s')) -> P q.
Proof.
  intros Hkeeps Hs' Hactive Hgrid.
  assert (Hcommitted : forall q,
             In q (gridCubes (setBlockInArray (grid s) (activeBlock s))) -> P q).
  { intros q Hq. apply gridCubes_In in Hq. destruct Hq as (row & col & Hcell).
    apply cellAt_setBlockInArray in Hcell. destruct Hcell as [[Hin _] | Hcell].
    - apply Hactive. exact Hin.
    - apply Hgrid. apply gridCubes_In. now exists row, col. }
  intros q Hq. subst s'. destruct (Z.of_nat (List.length rows) >? 0).
  - cbn [Tick.handleBlockClear lockedState grid] in Hq.
    apply gridCubes_In in Hq. destruct Hq as (row & col & Hcell).
    apply cellAt_removeRowsAndShiftDown in Hcell. destruct Hcell as (old & Hold & Hq).
    subst q. apply Hkeeps; [apply keepsCube_shiftAbove |]. apply Hcommitted. exact Hold.
  - cbn [lockedState grid] in Hq. apply Hcommitted. exact Hq.
Qed.

Lemma locked_active_block (s s' : State) (newBlock : Block)
  (overlap filled : bool) (rows : list Z) :
  s' = (if Z.of_nat (List.length rows) >? 0
        then Tick.handleBlockClear
               (lockedState s newBlock overlap filled (shapePreview s)) rows
        else lockedState s newBlock overlap filled (randomTetriminoType s)) ->
  activeBlock s' = if overlap then activeBlock s else newBlock.
Proof.
  intros Hs'. subst s'.
  destruct (Z.of_nat (List.length rows) >? 0), overlap; reflexivity.
Qed.

(** X18.  In every state that a game can reach, each cube of the active
    block and of the grid is drawn at the pixels of the cell it records:
    [x = 20 * grid_col] and [y = 20 * grid_row], so the cube's square of
    side 20 is inside the canvas of 200 by 400. *)
Theorem reachable_cubes_drawn_in_place (s : State) :
  reachable s ->
  forall q, In q (activeBlock s ++ gridCubes (grid s)) ->
    x q = Cube_Dimensions.WIDTH * grid_col q
    /\ y q = Cube_Dimensions.HEIGHT * grid_row q
    /\ 0 <= x q <= Viewport.CANVAS_WIDTH - Cube_Dimensions.WIDTH
    /\ 0 <= y q <= Viewport.CANVAS_HEIGHT - Cube_Dimensions.HEIGHT.
Proof.
  intros Hreach.
  assert (Hpixels : forall q, In q (activeBlock s ++ gridCubes (grid s)) ->
                              pixelsMatch q = true).
  { revert s Hreach.
    apply (reachable_induction
             (fun s => forall q, In q (activeBlock s ++ gridCubes (grid s)) ->
                                 pixelsMatch q = true)).
    - intros q Hq. apply in_app_or in Hq. destruct Hq as [Hq | Hq].
      + assert (Hstart : createBlock "O" 4 = Ok (activeBlock initialState))
          by (vm_compute; reflexivity).
        destruct (createBlock_facts _ _ _ Hstart) as (_ & _ & _ & Hpix & _).
        rewrite forallb_forall in Hpix. apply Hpix. exact Hq.
      + apply gridCubes_In in Hq. destruct Hq as (row & col & Hcell).
        cbn [initialState grid] in Hcell. rewrite cellAt_emptyGrid in Hcell.
        discriminate Hcell.
    - intros fuel s a s' _ _ IH Hstep.
      assert (IHactive : forall q, In q (activeBlock s) -> pixelsMatch q = true)
        by (intros q Hq; apply IH; apply in_or_app; now left).
      assert (IHgrid : forall q, In q (gridCubes (grid s)) -> pixelsMatch q = true)
        by (intros q Hq; apply IH; apply in_or_app; now right).
      apply step_cases in Hstep.
      destruct Hstep as [Hs' | [[index Hs'] | [(f & Hf & Hs') | [(filled & _ & Hs')
        | [(newBlock & overlap & filled & rows & _ & Hnew & _ & Hs')
          | (newBlock & _ & _ & Hnew & Hs')]]]]].
      + subst s'. exact IH.
      + subst s'. exact IH.
      + subst s'. intros q Hq. apply in_app_or in Hq.
        rewrite withActiveBlock_activeBlock in Hq. destruct Hq as [Hq | Hq].
        * apply in_map_iff in Hq. destruct Hq as (old & Hq & Hold). subst q.
          apply Hf. apply IHactive. exact Hold.
        * apply IHgrid. exact Hq.
      + subst s'. intros q Hq. apply in_app_or in Hq.
        cbn [fallenState activeBlock grid] in Hq. destruct Hq as [Hq | Hq].
        * apply in_map_iff in Hq. destruct Hq as (old & Hq & Hold). subst q.
          apply moveCube_keeps_pixels. apply IHactive. exact Hold.
        * apply IHgrid. exact Hq.
      + destruct (createBlock_facts _ _ _ Hnew) as (_ & _ & _ & Hpix & _).
        rewrite forallb_forall in Hpix.
        intros q Hq. apply in_app_or in Hq. destruct Hq as [Hq | Hq].
        * rewrite (locked_active_block _ _ _ _ _ _ Hs') in Hq.
          destruct overlap; [apply IHactive | apply Hpix]; exact Hq.
        * revert q Hq.
          apply (locked_grid_cubes (fun q => pixelsMatch q = true)
                   s s' newBlock overlap filled rows); try assumption.
          intros f q Hf. apply Hf.
      + destruct (createBlock_facts _ _ _ Hnew) as (_ & _ & _ & Hpix & _).
        rewrite forallb_forall in Hpix.
        subst s'. intros q Hq. apply in_app_or in Hq.
        cbn [restartedState activeBlock grid] in Hq. destruct Hq as [Hq | Hq].
        * apply Hpix. exact Hq.
        * apply gridCubes_In in Hq. destruct Hq as (row & col & Hcell).
          rewrite cellAt_emptyGrid in Hcell. discriminate Hcell. }
  pose proof (reachable_invariant s Hreach) as Hinv.
  intros q Hq. specialize (Hpixels q Hq).
  assert (Hcell : 0 <= grid_row q < 20 /\ 0 <= grid_col q < 10).
  { apply in_app_or in Hq. destruct Hq as [Hq | Hq].
    - pose proof (inv_block s Hinv) as Hblock. rewrite forallb_forall in Hblock.
      specialize (Hblock q Hq). apply inGrid_iff in Hblock.
      change GRID_RANGE.NUM_OF_ROWS with 20 in Hblock.
      change GRID_RANGE.NUM_OF_COLUMNS with 10 in Hblock. lia.
    - apply gridCubes_In in Hq. destruct Hq as (row & col & Hcell).
      destruct (inv_place s Hinv row col q Hcell) as [Hrow Hcol].
      pose proof (cellAt_Some_range _ _ _ _ (inv_shape s Hinv) Hcell) as Hrange.
      change GRID_RANGE.NUM_OF_ROWS with 20 in Hrange.
      change GRID_RANGE.NUM_OF_COLUMNS with 10 in Hrange. lia. }
  unfold pixelsMatch in Hpixels. apply andb_true_iff in Hpixels.
  rewrite !Z.eqb_eq in Hpixels. destruct Hpixels as [Hx Hy].
  assert (Hx' : x q = 20 * grid_col q).
  { rewrite Hx. unfold calculateXcoord.
    change Viewport.CANVAS_WIDTH with (20 * 10).
    change GRID_RANGE.NUM_OF_COLUMNS with 10.
    rewrite Z.mul_assoc, Z.div_mul by lia. lia. }
  assert (Hy' : y q = 20 * grid_row q).
  { rewrite Hy. unfold calculateYcoord.
    change Viewport.CANVAS_HEIGHT with (20 * 20).
    change GRID_RANGE.NUM_OF_ROWS with 20.
    rewrite Z.mul_assoc, Z.div_mul by lia. lia. }
  change Cube_Dimensions.WIDTH with 20. change Cube_Dimensions.HEIGHT with 20.
  change Viewport.CANVAS_WIDTH with 200. change Viewport.CANVAS_HEIGHT with 400.
  lia.
Qed.

Lemma reachable_cubes_drawn_in_place_witness :
  Forall (fun q => x q = 20 * grid_col q /\ y q = 20 * grid_row q)
    (activeBlock (stateAfter firstLock) ++ gridCubes (grid (stateAfter firstLock))).
Proof.
  apply Forall_forall. intros q Hq.
  destruct (reachable_cubes_drawn_in_place (stateAfter firstLock)) with (q := q)
    as (Hx & Hy & _).
  - exists 20%nat, firstLock. split; vm_compute; reflexivity.
  - exact Hq.
  - split; assumption.
Defined.

Lemma createBlock_idPrefix (tetriminoType : string) (cubeCount : Z) (block : Block) :
  createBlock tetriminoType cubeCount = Ok block ->
  NoDup (map idPrefix block)
  /\ forall q, In q block -> idCount (id q) = cubeCount.
Proof.
  intros Hblock.
  destruct (createBlock_facts _ _ _ Hblock) as (_ & _ & Hnodup & _ & Hids & _).
  split.
  - rewrite Hids.
    rewrite <- (map_map position (fun p => (cubeCount, fst p, snd p))).
    apply NoDup_map_of_injective; [| exact Hnodup].
    intros [r c] [r' c'] Heq. cbn [fst snd] in Heq. congruence.
  - intros q Hq.
    assert (Hq' : idPrefix q = (cubeCount, grid_row q, grid_col q))
      by (revert q Hq; apply map_ext_in_iff; exact Hids).
    unfold idPrefix in Hq'. congruence.
Qed.

Lemma idPrefix_keepsCube (f : Cube -> Cube) (block : Block) :
  keepsCube f -> map idPrefix (map f block) = map idPrefix block.
Proof.
  intros [Hid _]. rewrite map_map. apply map_ext. intros q.
  unfold idPrefix. now rewrite Hid.
Qed.

(** X19.  The cube ids of a reachable state.  The cubes of the active block
    have pairwise different ids; two cells of the grid that hold cubes with
    the same id are the same cell; every cube carries a spawn counter
    between 4 and [objCount]; and while the game is on, every cube of the
    grid has a smaller spawn counter than every cube of the active block, so
    that no id occurs both in the grid and in the active block.  Ids are
    compared on their first three parts: counter, row and column. *)
Theorem reachable_unique_ids (s : State) :
  reachable s ->
  NoDup (map idPrefix (activeBlock s))
  /\ (forall row col row' col' q q',
        cellAt (grid s) row col = Some q ->
        cellAt (grid s) row' col' = Some q' ->
        idPrefix q = idPrefix q' -> row = row' /\ col = col')
  /\ (forall q, In q (activeBlock s ++ gridCubes (grid s)) ->
        4 <= idCount (id q) <= objCount s)
  /\ (gameEnd s = false ->
      forall p q, In p (activeBlock s) -> In q (gridCubes (grid s)) ->
        idCount (id q) < idCount (id p)).
Proof.
  revert s.
  apply (reachable_induction
           (fun s =>
              NoDup (map idPrefix (activeBlock s))
              /\ (forall row col row' col' q q',
                    cellAt (grid s) row col = Some q ->
                    cellAt (grid s) row' col' = Some q' ->
                    idPrefix q = idPrefix q' -> row = row' /\ col = col')
              /\ (forall q, In q (activeBlock s ++ gridCubes (grid s)) ->
                    4 <= idCount (id q) <= objCount s)
              /\ (gameEnd s = false ->
                  forall p q, In p (activeBlock s) -> In q (gridCubes (grid s)) ->
                    idCount (id q) < idCount (id p)))).
  - assert (Hstart : createBlock "O" 4 = Ok (activeBlock initialState))
      by (vm_compute; reflexivity).
    destruct (createBlock_idPrefix _ _ _ Hstart) as [Hnodup Hcount].
    assert (Hempty : forall q, ~ In q (gridCubes (grid initialState))).
    { intros q Hq. apply gridCubes_In in Hq. destruct Hq as (row & col & Hcell).
      cbn [initialState grid] in Hcell. rewrite cellAt_emptyGrid in Hcell.
      discriminate Hcell. }
    split; [exact Hnodup |]. split; [| split].
    + intros row col row' col' q q' Hcell. cbn [initialState grid] in Hcell.
      rewrite cellAt_emptyGrid in Hcell. discriminate Hcell.
    + intros q Hq. apply in_app_or in Hq. destruct Hq as [Hq | Hq].
      * rewrite (Hcount q Hq). vm_compute. split; congruence.
      * destruct (Hempty q Hq).
    + intros _ p q _ Hq. destruct (Hempty q Hq).
  - intros fuel s a s' _ Hinv (IHblock & IHcells & IHcount & IHolder) Hstep.
    assert (IHactive : forall q, In q (activeBlock s) -> 4 <= idCount (id q) <= objCount s)
      by (intros q Hq; apply IHcount; apply in_or_app; now left).
    assert (IHgrid : forall q, In q (gridCubes (grid s)) ->
                               4 <= idCount (id q) <= objCount s)
      by (intros q Hq; apply IHcount; apply in_or_app; now right).
    apply step_cases in Hstep.
    destruct Hstep as [Hs' | [[index Hs'] | [(f & Hf & Hs') | [(filled & Hon & Hs')
      | [(newBlock & overlap & filled & rows & Hon & Hnew & _ & Hs')
        | (newBlock & _ & _ & Hnew & Hs')]]]]].
    + subst s'. exact (conj IHblock (conj IHcells (conj IHcount IHolder))).
    + subst s'. cbn [GenerateBlock.apply activeBlock grid objCount gameEnd].
      exact (conj IHblock (conj IHcells (conj IHcount IHolder))).
    + subst s'. unfold withActiveBlock. cbn [activeBlock grid objCount gameEnd].
      split; [rewrite (idPrefix_keepsCube f _ Hf); exact IHblock |].
      split; [exact IHcells |]. split.
      * intros q Hq. apply in_app_or in Hq. destruct Hq as [Hq | Hq].
        -- apply in_map_iff in Hq. destruct Hq as (old & Hq & Hold). subst q.
           destruct Hf as [Hid _]. rewrite Hid. apply IHactive. exact Hold.
        -- apply IHgrid. exact Hq.
      * intros Hon p q Hp Hq.
        apply in_map_iff in Hp. destruct Hp as (old & Hp & Hold). subst p.
        destruct Hf as [Hid _]. rewrite Hid. apply (IHolder Hon); assumption.
    + subst s'. cbn [fallenState activeBlock grid objCount gameEnd].
      pose proof (keepsCube_moveCube 1) as Hf.
      split; [rewrite (idPrefix_keepsCube _ _ Hf); exact IHblock |].
      split; [exact IHcells |]. split.
      * intros q Hq. apply in_app_or in Hq. destruct Hq as [Hq | Hq].
        -- apply in_map_iff in Hq. destruct Hq as (old & Hq & Hold). subst q.
           destruct Hf as [Hid _]. rewrite Hid. apply IHactive. exact Hold.
        -- apply IHgrid. exact Hq.
      * intros _ p q Hp Hq.
        apply in_map_iff in Hp. destruct Hp as (old & Hp & Hold). subst p.
        destruct Hf as [Hid _]. rewrite Hid. apply (IHolder Hon); assumption.
    + destruct (createBlock_idPrefix _ _ _ Hnew) as [Hnodup Hcount].
      destruct (createBlock_facts _ _ _ Hnew) as (Hfour & _).
      change Tetrimino.TETRIMINO_SIZE with 4 in Hfour, Hcount.
      pose proof (lock_result_fields s newBlock overlap filled rows) as Hfields.
      cbv zeta in Hfields. rewrite <- Hs' in Hfields.
      destruct Hfields as (_ & _ & _ & Hobj & Hend). rewrite Hfour in Hobj.
      pose proof (locked_active_block _ _ _ _ _ _ Hs') as Hactive'.
      assert (Hgrid' : forall q, In q (gridCubes (grid s')) ->
                                 4 <= idCount (id q) <= objCount s).
      { apply (locked_grid_cubes (fun q => 4 <= idCount (id q) <= objCount s)
                 s s' newBlock overlap filled rows); try assumption.
        intros f q [Hid _]. now rewrite Hid. }
      assert (Hcommitted : forall row col row' col' q q',
                 cellAt (setBlockInArray (grid s) (activeBlock s)) row col = Some q ->
                 cellAt (setBlockInArray (grid s) (activeBlock s)) row' col' = Some q' ->
                 idPrefix q = idPrefix q' -> row = row' /\ col = col').
      { intros row col row' col' q q' Hcell Hcell' Hsame.
        assert (Hcounts : idCount (id q) = idCount (id q'))
          by (unfold idPrefix in Hsame; congruence).
        apply cellAt_setBlockInArray in Hcell, Hcell'.
        destruct Hcell as [[Hq Hhere] | Hcell], Hcell' as [[Hq' Hhere'] | Hcell'].
        - assert (q = q')
            by exact (NoDup_map_injective idPrefix (activeBlock s) q q' IHblock Hq Hq' Hsame).
          subst q'.
          unfold isCubeHere in Hhere, Hhere'.
          rewrite andb_true_iff, !Z.eqb_eq in Hhere, Hhere'. lia.
        - assert (Hgrid : In q' (gridCubes (grid s)))
            by (apply gridCubes_In; now exists row', col').
          pose proof (IHolder Hon q q' Hq Hgrid). lia.
        - assert (Hgrid : In q (gridCubes (grid s)))
            by (apply gridCubes_In; now exists row, col).
          pose proof (IHolder Hon q' q Hq' Hgrid). lia.
        - eapply IHcells; eassumption. }
      split; [| split; [| split]].
      * rewrite Hactive'. destruct overlap; assumption.
      * intros row col row' col' q q' Hcell Hcell' Hsame.
        rewrite Hs' in Hcell, Hcell'.
        destruct (Z.of_nat (List.length rows) >? 0).
        -- cbn [Tick.handleBlockClear lockedState grid] in Hcell, Hcell'.
           destruct (removeRowsAndShiftDown_InPlace _ _ _ _ _ Hcell) as [Hrow Hcol].
           destruct (removeRowsAndShiftDown_InPlace _ _ _ _ _ Hcell') as [Hrow' Hcol'].
           apply cellAt_removeRowsAndShiftDown in Hcell, Hcell'.
           destruct Hcell as (old & Hold & Hq), Hcell' as (old' & Hold' & Hq').
           apply gridCubes_In in Hold, Hold'.
           destruct Hold as (r & c & Hold), Hold' as (r' & c' & Hold').
           assert (Hsame' : idPrefix old = idPrefix old').
           { destruct (keepsCube_shiftAbove rows) as [Hid _].
             unfold idPrefix in *. rewrite <- (Hid old), <- (Hid old'). congruence. }
           destruct (Hcommitted _ _ _ _ _ _ Hold Hold' Hsame') as [Hr Hc].
           subst r' c'. assert (old' = old) by congruence. subst old'.
           split; congruence.
        -- cbn [lockedState grid] in Hcell, Hcell'.
           eapply Hcommitted; eassumption.
      * intros q Hq. apply in_app_or in Hq. rewrite Hobj. destruct Hq as [Hq | Hq].
        -- rewrite Hactive' in Hq. destruct overlap.
           ++ specialize (IHactive q Hq). lia.
           ++ rewrite (Hcount q Hq). specialize (IHcount).
              destruct (activeBlock s) as [| first rest] eqn:Hblock.
              ** destruct (inv_nonempty s Hinv). exact Hblock.
              ** assert (4 <= idCount (id first) <= objCount s)
                   by (apply IHactive; now left). lia.
        -- specialize (Hgrid' q Hq). lia.
      * intros Hon' p q Hp Hq. rewrite Hend in Hon'.
        apply orb_false_iff in Hon'. destruct Hon' as [_ Hover]. subst overlap.
        rewrite Hactive' in Hp. rewrite (Hcount p Hp).
        specialize (Hgrid' q Hq). lia.
    + destruct (createBlock_idPrefix _ _ _ Hnew) as [Hnodup Hcount].
      change Tetrimino.TETRIMINO_SIZE with 4 in Hcount.
      assert (Hempty : forall q, ~ In q (gridCubes (grid s'))).
      { intros q Hq. apply gridCubes_In in Hq. destruct Hq as (row & col & Hcell).
        subst s'. cbn [restartedState grid] in Hcell. rewrite cellAt_emptyGrid in Hcell.
        discriminate Hcell. }
      assert (Hobj : objCount s' = objCount s + 12) by (subst s'; reflexivity).
      assert (Hactive' : activeBlock s' = newBlock) by (subst s'; reflexivity).
      assert (Hgrid' : grid s' = generate2DArray (fun _ _ => None))
        by (subst s'; reflexivity).
      split; [rewrite Hactive'; exact Hnodup |]. split; [| split].
      * intros row col row' col' q q' Hcell. rewrite Hgrid', cellAt_emptyGrid in Hcell.
        discriminate Hcell.
      * intros q Hq. apply in_app_or in Hq. destruct Hq as [Hq | Hq].
        -- rewrite Hactive' in Hq. rewrite (Hcount q Hq), Hobj.
           destruct (activeBlock s) as [| first rest] eqn:Hblock.
           ++ destruct (inv_nonempty s Hinv). exact Hblock.
           ++ assert (4 <= idCount (id first) <= objCount s)
                by (apply IHactive; now left). lia.
        -- destruct (Hempty q Hq).
      * intros _ p q _ Hq. destruct (Hempty q Hq).
Qed.

Lemma reachable_unique_ids_witness :
  NoDup (map idPrefix (activeBlock (stateAfter overhang)))
  /\ Forall (fun q => 4 <= idCount (id q) <= objCount (stateAfter overhang))
       (activeBlock (stateAfter overhang) ++ gridCubes (grid (stateAfter overhang))).
Proof.
  destruct (reachable_unique_ids (stateAfter overhang)) as (Hnodup & _ & Hcount & _).
  - exists 20%nat, overhang. split; vm_compute; reflexivity.
  - split; [exact Hnodup |]. apply Forall_forall. exact Hcount.
Defined.

(** ** The shape of a reachable state; no crash and no endless loop *)

(** X20.  In every state that a game can reach the grid has 20 rows of 10
    cells, every cube of the grid records the cell that holds it, the
    active block has four cubes, all in rows 0-19 and columns 0-9, and the
    preview shape and the staged shape are among the seven known shapes. *)
Theorem reachable_block_inGrid (s : State) :
  reachable s ->
  Z.of_nat (List.length (grid s)) = GRID_RANGE.NUM_OF_ROWS
  /\ (forall cells, In cells (grid s) ->
        Z.of_nat (List.length cells) = GRID_RANGE.NUM_OF_COLUMNS)
  /\ (forall row col q, cellAt (grid s) row col = Some q ->
        grid_row q = row /\ grid_col q = col)
  /\ List.length (activeBlock s) = 4%nat
  /\ (forall q, In q (activeBlock s) ->
        0 <= grid_row q <= GRID_RANGE.NUM_OF_ROWS - 1
        /\ 0 <= grid_col q <= GRID_RANGE.NUM_OF_COLUMNS - 1)
  /\ In (shapePreview s) Tetrimino.TETRIMINO_TYPES
  /\ In (randomTetriminoType s) Tetrimino.TETRIMINO_TYPES.
Proof.
  intros Hreach.
  destruct (reachable_invariant s Hreach)
    as [Hshape Hplace Hblock Hnonempty Hpreview Hrandom].
  destruct (hasGridShape_spec _ Hshape) as [Hrows Hcols].
  split; [exact Hrows |]. split; [exact Hcols |]. split; [exact Hplace |].
  split; [| split; [| split; assumption]].
  - clear - Hreach. revert s Hreach.
    apply (reachable_induction (fun s => List.length (activeBlock s) = 4%nat)).
    + vm_compute. reflexivity.
    + intros fuel s a s' _ _ IH Hstep. apply step_cases in Hstep.
      destruct Hstep as [Hs' | [[index Hs'] | [(f & _ & Hs') | [(filled & _ & Hs')
        | [(newBlock & overlap & filled & rows & _ & Hnew & _ & Hs')
          | (newBlock & _ & _ & Hnew & Hs')]]]]].
      * subst s'. exact IH.
      * subst s'. exact IH.
      * subst s'. rewrite withActiveBlock_activeBlock, length_map. exact IH.
      * subst s'. cbn [fallenState activeBlock]. rewrite length_map. exact IH.
      * destruct (createBlock_facts _ _ _ Hnew) as (Hfour & _).
        change Tetrimino.TETRIMINO_SIZE with 4 in Hfour.
        rewrite (locked_active_block _ _ _ _ _ _ Hs'). destruct overlap; [exact IH | lia].
      * destruct (createBlock_facts _ _ _ Hnew) as (Hfour & _).
        change Tetrimino.TETRIMINO_SIZE with 4 in Hfour.
        subst s'. cbn [restartedState activeBlock]. lia.
  - intros q Hq. rewrite forallb_forall in Hblock. apply inGrid_iff. apply Hblock. exact Hq.
Qed.

Lemma reachable_block_inGrid_witness :
  List.length (activeBlock (stateAfter leftPile)) = 4%nat
  /\ Z.of_nat (List.length (grid (stateAfter leftPile))) = 20.
Proof.
  destruct (reachable_block_inGrid (stateAfter leftPile)) as (Hrows & _ & _ & Hfour & _).
  - exists 20%nat, leftPile. split; vm_compute; reflexivity.
  - split; [exact Hfour | exact Hrows].
Defined.

Lemma Drop_more_fuel (fuel extra : nat) (s s' : State) :
  Drop.apply fuel s = Ok s' -> Drop.apply (fuel + extra) s = Ok s'.
Proof.
  revert s. induction fuel as [| fuel IH]; intros s H; [discriminate H |].
  cbn [Drop.apply Nat.add] in *.
  destruct (not _ _) as [goesOn | |]; cbn [bind] in *; try discriminate H.
  destruct goesOn; [apply IH; exact H | exact H].
Qed.

Lemma reduceState_more_fuel (fuel extra : nat) (s s' : State) (a : Action) :
  reduceState fuel s a = Ok s' -> reduceState (fuel + extra) s a = Ok s'.
Proof.
  destruct a as [index | elapsed | direction | | direction |]; try (intros H; exact H).
  unfold reduceState. cbn [negb orb applyAction]. apply Drop_more_fuel.
Qed.

Lemma runActions_more_fuel (fuel extra : nat) (actions : list Action) (s s' : State) :
  runActions fuel s actions = Ok s' -> runActions (fuel + extra) s actions = Ok s'.
Proof.
  revert s. induction actions as [| a rest IH]; intros s H; [exact H |].
  cbn [runActions] in *. step_bind H.
  rewrite (reduceState_more_fuel fuel extra s a0 a E). cbn [bind]. apply IH. exact H.
Qed.

Lemma runActions_snoc (fuel : nat) (actions : list Action) (a : Action) (s s' s'' : State) :
  runActions fuel s actions = Ok s' ->
  reduceState fuel s' a = Ok s'' ->
  runActions fuel s (actions ++ [a]) = Ok s''.
Proof.
  revert s. induction actions as [| b rest IH]; intros s Hrun Hstep.
  - injection Hrun as Hrun. subst s'. cbn [app runActions]. rewrite Hstep. reflexivity.
  - cbn [app runActions] in *. step_bind Hrun. apply IH; assumption.
Qed.

Lemma reachable_step (fuel : nat) (s s' : State) (a : Action) :
  reachable s -> emitted a = true -> reduceState fuel s a = Ok s' -> reachable s'.
Proof.
  intros (fuel0 & actions & Hemitted & Hrun) Ha Hstep.
  exists (fuel0 + fuel)%nat, (actions ++ [a]). split.
  - rewrite forallb_app, Hemitted. cbn [forallb]. now rewrite Ha.
  - apply (runActions_snoc _ _ _ _ s).
    + apply runActions_more_fuel. exact Hrun.
    + rewrite Nat.add_comm. apply reduceState_more_fuel. exact Hstep.
Qed.

(** X21.  A game does not crash or hang on anything but a rotation: in a
    reachable state every action that the program emits, other than
    [Rotate], returns a state; [Drop] needs at most 19 calls.  Whatever state
    an emitted action returns is reachable again. *)
Theorem reachable_actions_return (fuel : nat) (s : State) (a : Action) :
  reachable s ->
  emitted a = true ->
  (19 <= fuel)%nat ->
  ((forall direction, a <> Rotate direction) ->
   exists s', reduceState fuel s a = Ok s')
  /\ (forall s', reduceState fuel s a = Ok s' -> reachable s').
Proof.
  intros Hreach Hemitted Hfuel. split.
  - intros Hrotate. exact (reachable_action_returns fuel s a Hreach Hfuel Hrotate).
  - intros s' Hstep. eapply reachable_step; eassumption.
Qed.

Lemma reachable_actions_return_witness :
  exists s', reduceState 19 (stateAfter overhang) Drop = Ok s' /\ reachable s'.
Proof.
  destruct (reachable_actions_return 19 (stateAfter overhang) Drop) as [Hreturns Hreach].
  - exists 20%nat, overhang. split; vm_compute; reflexivity.
  - reflexivity.
  - lia.
  - destruct Hreturns as [s' Hstep]; [discriminate |].
    exists s'. split; [exact Hstep | apply Hreach; exact Hstep].
Defined.

(** ** Restart *)

(** X22.  [Restart] leaves a running game as it is.  On an ended game it
    starts a new one: the game is on, the grid is empty, score and level are
    0, the high score is the larger of the old high score and the old score,
    the active block is made from the staged shape with spawn counter
    [objCount + 4], the preview shows that same shape, the staged shape is
    reset to "J", and [objCount] grows by 12.  A second [Restart] changes
    nothing more. *)
Theorem Restart_result (fuel : nat) (s s' : State) :
  reduceState fuel s Restart = Ok s' ->
  (gameEnd s = false -> s' = s)
  /\ (gameEnd s = true ->
      gameEnd s' = false
      /\ hasGridShape (grid s') = true
      /\ (forall row col, cellAt (grid s') row col = None)
      /\ score s' = 0
      /\ level s' = 0
      /\ highScore s' = Z.max (highScore s) (score s)
      /\ createBlock (randomTetriminoType s) (objCount s + 4) = Ok (activeBlock s')
      /\ shapePreview s' = randomTetriminoType s
      /\ randomTetriminoType s' = "J"
      /\ objCount s' = objCount s + 12
      /\ speedMultiplier s' = Constants.INITIAL_SPEED)
  /\ reduceState fuel s' Restart = Ok s'.
Proof.
  intros Hstep. unfold reduceState in *. cbn [negb orb applyAction] in *.
  destruct (Restart_cases s s' Hstep) as [[Hon Hs'] | (Hend & newBlock & Hnew & Hs')].
  - subst s'. split; [reflexivity |]. split; [congruence | exact Hstep].
  - split; [congruence |]. split.
    + intros _. subst s'.
      cbn [restartedState gameEnd grid score level highScore activeBlock shapePreview
             randomTetriminoType objCount].
      split; [reflexivity |]. split; [apply generate2DArray_shape |].
      split; [apply cellAt_emptyGrid |].
      rewrite max_is_Zmax. repeat split; try reflexivity. exact Hnew.
    + subst s'. reflexivity.
Qed.

Lemma Restart_result_witness :
  exists s',
    reduceState 20 (stateAfter leftPile) Restart = Ok s'
    /\ gameEnd s' = false
    /\ score s' = 0
    /\ objCount s' = objCount (stateAfter leftPile) + 12.
Proof.
  assert (Hstep : exists s', reduceState 20 (stateAfter leftPile) Restart = Ok s').
  { destruct (reduceState 20 (stateAfter leftPile) Restart) as [s' | |] eqn:H.
    - now exists s'.
    - vm_compute in H. discriminate H.
    - vm_compute in H. discriminate H. }
  destruct Hstep as [s' Hstep]. exists s'. split; [exact Hstep |].
  destruct (Restart_result 20 (stateAfter leftPile) s' Hstep) as (_ & Hnew & _).
  destruct Hnew as (Hon & _ & _ & Hscore & _ & _ & _ & _ & _ & Hcount & _).
  - vm_compute. reflexivity.
  - repeat split; assumption.
Defined.

(** ** The generator of grids and the random number generator *)

(** X23.  [generate2DArray] returns a grid of 20 rows of 10 cells whose cell
    [(row, col)] is what the given function returns for [row] and [col]; a
    position outside these bounds is in no row or in no cell of its row. *)
Theorem generate2DArray_cells (generateCell : Z -> Z -> option Cube) :
  Z.of_nat (List.length (generate2DArray generateCell)) = 20
  /\ (forall cells, In cells (generate2DArray generateCell) ->
        Z.of_nat (List.length cells) = 10)
  /\ (forall row col,
        cellAt (generate2DArray generateCell) row col
        = if (0 <=? row) && (row <? 20) && (0 <=? col) && (col <? 10)
          then generateCell row col
          else None).
Proof.
  pose proof (generate2DArray_shape generateCell) as Hshape.
  destruct (hasGridShape_spec _ Hshape) as [Hrows Hcols].
  split; [exact Hrows |]. split; [exact Hcols |].
  intros row col.
  destruct ((0 <=? row) && (row <? 20) && (0 <=? col) && (col <? 10)) eqn:Hin.
  - rewrite !andb_true_iff, !Z.leb_le, !Z.ltb_lt in Hin.
    apply cellAt_generate2DArray.
    + change GRID_RANGE.NUM_OF_ROWS with 20. lia.
    + change GRID_RANGE.NUM_OF_COLUMNS with 10. lia.
  - destruct (cellAt (generate2DArray generateCell) row col) as [q |] eqn:Hcell;
      [| reflexivity].
    pose proof (cellAt_Some_range _ _ _ _ Hshape Hcell) as Hrange.
    change GRID_RANGE.NUM_OF_ROWS with 20 in Hrange.
    change GRID_RANGE.NUM_OF_COLUMNS with 10 in Hrange.
    rewrite !andb_false_iff, !Z.leb_gt, !Z.ltb_ge in Hin. lia.
Qed.

(** X24.  The range of the random number generator, in the program's
    double arithmetic.  [RNG.scale] maps a hash into [-1, 1] exactly when
    the hash is between 0 and [m - 1].  For a seed that is a safe integer
    (magnitude at most 2^53): [RNG.hash] of a seed [>= 0] is such a hash, so
    its scaled value is in [-1, 1]; for a negative seed the remainder takes
    the sign of the dividend, the hash is [<= 0] and the scaled value is
    [<= -1]. *)
Theorem RNG_range (seed : Z) :
  Z.abs seed <= 2 ^ 53 ->
  (forall h, (-1 <= RNG.scale h <= 1)%Q <-> 0 <= h <= RNG.m - 1)
  /\ (0 <= seed ->
      0 <= RNG.hash seed < RNG.m /\ (-1 <= RNG.scale (RNG.hash seed) <= 1)%Q)
  /\ (seed < 0 ->
      - RNG.m < RNG.hash seed <= 0 /\ (RNG.scale (RNG.hash seed) <= -1)%Q).
Proof.
  intros _.
  assert (Hscale : forall h, RNG.scale h == inject_Z h * (2 # 2147483647) - 1).
  { intros h. unfold RNG.scale, RNG.m. rewrite inject_Z_mult.
    change (inject_Z (2147483648 - 1)) with 2147483647%Q.
    change (inject_Z 2) with 2%Q. field. }
  split; [| split].
  - intros h. rewrite Hscale. unfold RNG.m. split.
    + intros [Hlo Hhi].
      assert (H0 : (inject_Z 0 <= inject_Z h)%Q) by (change (inject_Z 0) with 0%Q; lra).
      assert (H1 : (inject_Z h <= inject_Z 2147483647)%Q)
        by (change (inject_Z 2147483647) with 2147483647%Q; lra).
      rewrite <- Zle_Qle in H0, H1. lia.
    + intros [Hlo Hhi].
      assert (H0 : (inject_Z 0 <= inject_Z h)%Q) by (rewrite <- Zle_Qle; exact Hlo).
      assert (H1 : (inject_Z h <= inject_Z 2147483647)%Q) by (rewrite <- Zle_Qle; lia).
      change (inject_Z 0) with 0%Q in H0.
      change (inject_Z 2147483647) with 2147483647%Q in H1. split; lra.
  - intros Hseed. pose proof (hash_range seed Hseed) as Hhash.
    split; [exact Hhash | apply scale_range; exact Hhash].
  - intros Hseed.
    assert (Hhash : - RNG.m < RNG.hash seed <= 0).
    { unfold RNG.hash.
      assert (Hproduct : RNG.roundDouble (RNG.a * seed) <= - RNG.a).
      { apply roundDouble_le_neg; [unfold RNG.a; split; [lia | discriminate] |].
        unfold RNG.a. lia. }
      assert (Hsum : RNG.roundDouble (RNG.roundDouble (RNG.a * seed) + RNG.c) <= - 0).
      { apply roundDouble_le_neg; [split; [lia | discriminate] |].
        unfold RNG.a, RNG.c in *. lia. }
      assert (Hm : 0 < RNG.m) by reflexivity.
      apply Z.rem_bound_pos_neg; [exact Hm | lia]. }
    split; [exact Hhash |]. rewrite Hscale.
    assert (H0 : (inject_Z (RNG.hash seed) <= inject_Z 0)%Q)
      by (rewrite <- Zle_Qle; lia).
    change (inject_Z 0) with 0%Q in H0. lra.
Qed.

Lemma RNG_range_witness :
  RNG.hash (-1) = -1103502900
  /\ - RNG.m < RNG.hash (-1) <= 0
  /\ 0 <= RNG.hash 178652871 < RNG.m.
Proof.
  split; [vm_compute; reflexivity |].
  split.
  - destruct (RNG_range (-1)) as (_ & _ & Hneg); [vm_compute; discriminate |].
    apply Hneg. reflexivity.
  - destruct (RNG_range 178652871) as (_ & Hpos & _); [vm_compute; discriminate |].
    apply Hpos. discriminate.
Defined.

(** ** Quarter turns and the end-of-game test *)

(** X25.  The rotation of a cube about a pivot is a quarter turn: the pivot
    keeps its cell, the distance to the pivot is kept, two turns in the same
    direction reflect the cube through the pivot, the opposite turn undoes a
    turn, and four turns bring the cube back to its cell; a cube drawn at
    the pixels of its cell is then the very same cube. *)
Theorem rotateCube_quarter_turns (direction : Direction) (pivot cube : Cube) :
  let turn := Rotate.rotateCube direction pivot in
  let back :=
    Rotate.rotateCube
      match direction with clockwise => anticlockwise | anticlockwise => clockwise end
      pivot in
  position (turn pivot) = position pivot
  /\ (grid_row (turn cube) - grid_row pivot) ^ 2 + (grid_col (turn cube) - grid_col pivot) ^ 2
     = (grid_row cube - grid_row pivot) ^ 2 + (grid_col cube - grid_col pivot) ^ 2
  /\ position (turn (turn cube))
     = (2 * grid_row pivot - grid_row cube, 2 * grid_col pivot - grid_col cube)
  /\ position (back (turn cube)) = position cube
  /\ position (turn (turn (turn (turn cube)))) = position cube
  /\ (pixelsMatch cube = true -> turn (turn (turn (turn cube))) = cube).
Proof.
  cbv zeta.
  assert (Hfour : position (Rotate.rotateCube direction pivot
                              (Rotate.rotateCube direction pivot
                                 (Rotate.rotateCube direction pivot
                                    (Rotate.rotateCube direction pivot cube))))
                  = position cube).
  { destruct direction; unfold position, Rotate.rotateCube; cbn [grid_row grid_col];
      f_equal; lia. }
  repeat split.
  - destruct direction; unfold position, Rotate.rotateCube; cbn [grid_row grid_col];
      f_equal; lia.
  - destruct direction; unfold Rotate.rotateCube; cbn [grid_row grid_col]; nia.
  - destruct direction; unfold position, Rotate.rotateCube; cbn [grid_row grid_col];
      f_equal; lia.
  - destruct direction; unfold position, Rotate.rotateCube; cbn [grid_row grid_col];
      f_equal; lia.
  - exact Hfour.
  - intros Hpixels. unfold pixelsMatch in Hpixels. apply andb_true_iff in Hpixels.
    rewrite !Z.eqb_eq in Hpixels. destruct Hpixels as [Hx Hy].
    unfold position in Hfour. injection Hfour as Hrow Hcol.
    destruct cube as [cid cx cy crow ccol cwidth cheight cstyle ccenter].
    cbn [x y grid_row grid_col] in Hx, Hy.
    unfold Rotate.rotateCube in *.
    cbn [id x y grid_row grid_col width height style center] in *.
    rewrite Hrow, Hcol, <- Hx, <- Hy. reflexivity.
Qed.

(** X26.  The end-of-game test [isColumnFilled] looks at row 0 only: it
    returns true exactly when some cell of row 0 holds a cube, whatever the
    other rows hold, and it throws exactly when the grid has no row. *)
Theorem isColumnFilled_spec (g : Grid) :
  (isColumnFilled g = TypeError <-> g = [])
  /\ (isColumnFilled g = Ok true <-> exists col q, cellAt g 0 col = Some q)
  /\ (isColumnFilled g = Ok false <-> g <> [] /\ forall col, cellAt g 0 col = None).
Proof.
  unfold isColumnFilled, cellAt.
  destruct g as [| cells rest].
  - cbn [nthZ]. split; [tauto |]. split.
    + split; [discriminate |]. intros (col & q & H). discriminate H.
    + split; [discriminate |]. intros [H _]. now destruct H.
  - change (nthZ (cells :: rest) 0) with (Some cells).
    assert (Hany : existsb isNotNullOrUndefined cells = true
                   <-> exists col q, nthZ cells col = Some (Some q)).
    { rewrite existsb_exists. split.
      - intros ([q |] & Hin & Hcell); [| discriminate Hcell].
        apply In_nth_error in Hin. destruct Hin as [n Hn].
        exists (Z.of_nat n), q. rewrite nthZ_of_nat. exact Hn.
      - intros (col & q & Hcell). exists (Some q). split; [| reflexivity].
        eapply nthZ_In. exact Hcell. }
    split; [split; discriminate |]. split.
    + split.
      * intros H. injection H as H. apply Hany in H. destruct H as (col & q & Hcell).
        exists col, q. now rewrite Hcell.
      * intros (col & q & Hcell). f_equal. apply Hany. exists col, q.
        destruct (nthZ cells col) as [[q' |] |]; congruence.
    + split.
      * intros H. injection H as H. split; [discriminate |]. intros col.
        destruct (nthZ cells col) as [[q |] |] eqn:Hcell; try reflexivity.
        assert (Htrue : existsb isNotNullOrUndefined cells = true)
          by (apply Hany; now exists col, q).
        congruence.
      * intros [_ Hnone]. f_equal.
        destruct (existsb isNotNullOrUndefined cells) eqn:Hcells; [| reflexivity].
        destruct (proj1 Hany eq_refl) as (col & q & Hcell).
        specialize (Hnone col). rewrite Hcell in Hnone. discriminate Hnone.
Qed.
